(** * Otto core orchestrator (otto/core.go): a shallow embedding

    The development follows [otto/core.go]: the [Core] object, the context
    builders [appContext] and [infra], the registry lookups [app], the graph
    walk with its fail-fast flag, the credential routine [creds] and the
    entry points [Compile], [Build], [Dev] and [Execute].

    Collaborators that live outside [core.go] (the Go standard library, the
    terraform [dag] walker, the application and infrastructure plugins, the
    user interface, the file system) are represented by small executable
    models, each introduced where it is first needed. *)

From Stdlib Require Import String Ascii List Bool Arith Lia ZArith DecimalString.
From stdpp Require Import base gmap strings list fin_maps.
Import ListNotations.

Local Open Scope string_scope.

(** ** Go's [path/filepath] (Unix flavour)

    [filepath.Join] drops empty elements, joins the others with the
    separator and returns the result of [filepath.Clean]. [Clean] works on
    the elements between separators: it drops empty and [.] elements, lets
    a [..] remove the element before it (unless that one is [..] too), drops
    a [..] that would climb above the root of a rooted path, and writes [.]
    for an empty result. *)
Module filepath.

Definition Separator : ascii := "/"%char.

Definition IsPathSeparator (c : ascii) : bool := Ascii.eqb c Separator.

(** The elements between separators, [strings.Split(p, "/")]. *)
Fixpoint Split (p : string) : list string :=
  match p with
  | EmptyString => [EmptyString]
  | String c r =>
      if IsPathSeparator c then EmptyString :: Split r
      else match Split r with
           | [] => [String c EmptyString]
           | e :: es => String c e :: es
           end
  end.

(** [strings.Join(elems, "/")]. *)
Fixpoint SlashJoin (elems : list string) : string :=
  match elems with
  | [] => EmptyString
  | [e] => e
  | e :: es => e ++ String Separator (SlashJoin es)
  end.

Definition IsAbs (p : string) : bool :=
  match p with
  | String c _ => IsPathSeparator c
  | EmptyString => false
  end.

(** The loop of [Clean]: [out] is the output buffer, last element first. *)
Fixpoint cleanElems (rooted : bool) (out : list string) (elems : list string)
  : list string :=
  match elems with
  | [] => rev out
  | e :: es =>
      if String.eqb e "" then cleanElems rooted out es
      else if String.eqb e "." then cleanElems rooted out es
      else if String.eqb e ".." then
        match out with
        | top :: out' =>
            if String.eqb top ".." then cleanElems rooted (e :: out) es
            else cleanElems rooted out' es
        | [] =>
            if rooted then cleanElems rooted [] es
            else cleanElems rooted [e] es
        end
      else cleanElems rooted (e :: out) es
  end.

Definition render (rooted : bool) (elems : list string) : string :=
  match rooted, elems with
  | false, [] => "."
  | false, _ => SlashJoin elems
  | true, _ => String Separator (SlashJoin elems)
  end.

Definition Clean (p : string) : string :=
  match p with
  | EmptyString => "."
  | _ => render (IsAbs p) (cleanElems (IsAbs p) [] (Split p))
  end.

Definition nonEmpty (s : string) : bool := negb (String.eqb s "").

Definition Join (elems : list string) : string :=
  match List.filter nonEmpty elems with
  | [] => EmptyString
  | es => Clean (SlashJoin es)
  end.

(** [filepath.Dir]: the path up to and including the last separator,
    cleaned. *)
Definition Dir (p : string) : string :=
  match rev (Split p) with
  | [] | [_] => Clean EmptyString
  | _ :: before => Clean (SlashJoin (rev before) ++ String Separator EmptyString)
  end.

(** The last element of a path, [filepath.Base] on a cleaned path. *)
Definition lastElem (p : string) : string := List.last (Split p) EmptyString.

(** A string that can be one path element: no separator in it. *)
Fixpoint noSeparator (s : string) : bool :=
  match s with
  | EmptyString => true
  | String c r => negb (IsPathSeparator c) && noSeparator r
  end.

(** A plain element: a name that [Clean] keeps as it is. *)
Definition plain (e : string) : Prop :=
  noSeparator e = true /\ e <> "" /\ e <> "." /\ e <> "..".

End filepath.

(** ** Go values: errors and results *)

(** An [error] value is either one message ([fmt.Errorf], a plugin's error)
    or the list that the graph walker builds out of the errors its callbacks
    returned (go-multierror). The [nil] error is [None : option error]. *)
Inductive error : Type :=
| errorString (msg : string)
| multiError (errs : list string).

(** [strconv.Itoa] on a length. *)
Definition itoa (n : nat) : string := NilZero.string_of_uint (Nat.to_uint n).

Definition newline : string := String (ascii_of_nat 10) EmptyString.

(** [err.Error()]; for the collected errors, go-multierror's list format. *)
Definition Error (e : error) : string :=
  match e with
  | errorString msg => msg
  | multiError errs =>
      itoa (length errs) ++ " error(s) occurred:" ++ newline ++ newline
      ++ String.concat newline (List.map (fun msg => "* " ++ msg) errs)
  end.

(** How many callback errors an [error] result carries. *)
Definition errorCount (e : option error) : nat :=
  match e with
  | None => 0
  | Some (errorString _) => 1
  | Some (multiError errs) => length errs
  end.

Inductive result (A : Type) : Type :=
| Ok (a : A)
| Err (e : error).
Arguments Ok {A} a.
Arguments Err {A} e.

Definition resultError {A} (r : result A) : option error :=
  match r with Ok _ => None | Err e => Some e end.

(** ** The Appfile (package [appfile], outside [core.go]) *)

Record Application := {
  app_Name : string;
  app_Type : string
}.

Record Project := {
  proj_Name : string;
  proj_Infrastructure : string
}.

Record Infra := {
  infra_Name : string;
  infra_Type : string;
  infra_Flavor : string
}.

(** Modelled from the spec: the [appfile.File] declaration is not in
    [core.go]. The spec gives it an [ID] (stable identity string),
    [Application.Name], [Application.Type], [Project.Infrastructure] and an
    [ActiveInfrastructure()] accessor returning the active infrastructure
    configuration (with a [Flavor]) or nothing. *)
Record File := {
  ID : string;
  file_Application : Application;
  file_Project : Project;
  ActiveInfrastructure : option Infra
}.

(** ** Contexts (packages [context], [app], [infrastructure]) *)

(** The directory backend and the user interface are handles that the core
    stores and passes on. *)
Definition Backend := string.
Definition Ui := string.

Record Shared := {
  shared_Directory : Backend;
  shared_Ui : Ui
}.

Record Tuple := {
  tuple_App : string;
  tuple_Infra : string;
  tuple_InfraFlavor : string
}.

Record Context := {
  Dir : string;
  CacheDir : string;
  ctx_Tuple : Tuple;
  ctx_Appfile : File;
  ctx_Application : Application;
  ctx_Action : string;
  ctx_ActionArgs : list string;
  DevDepFragments : list string;
  ctx_Shared : Shared
}.

(** Credentials are a [map[string]string]; the nil map is [None]. *)
Abbreviation Creds := (gmap string string).

Record InfraContext := {
  ictx_Dir : string;
  ictx_Infra : Infra;
  ictx_Shared : Shared;
  ictx_Action : string;
  ictx_ActionArgs : list string;
  InfraCreds : option Creds
}.

Record CompileResult := {
  DevDepFragmentPath : string
}.

Record DevDep := {
  Files : list string
}.

(** ** Plugins

    Application and infrastructure implementations are outside the core. A
    plugin operation is a function of the context it is handed: it returns
    its result and leaves the files the core works with alone. The core
    records every call it makes in the trace of the world (below), which is
    how the properties observe which plugin ran, with which context and how
    often. *)
Record App := {
  app_Compile : Context -> result CompileResult;
  app_Build : Context -> option error;
  app_Dev : Context -> option error;
  app_DevDep : Context -> Context -> result DevDep
}.

Record Infrastructure := {
  infra_Compile : InfraContext -> result CompileResult;
  infra_Execute : InfraContext -> option error;
  infra_Creds : InfraContext -> result (option Creds)
}.

(** A factory starts an implementation, or fails. *)
Definition AppFactory := result App.
Definition InfraFactory := result Infrastructure.

(** ** The world the core runs in

    The file system, the answers the user will type, and the trace of what
    the core did to its collaborators. *)

(** What the core asks of the user: [ui.InputOpts]. *)
Record InputOpts := {
  opts_Id : string;
  opts_Query : string;
  opts_Description : string
}.

Inductive Event : Type :=
| EvHeader (text : string)
| EvMessage (text : string)
| EvInput (opts : InputOpts)
| EvAppFactory (t : Tuple)
| EvInfraFactory (name : string)
| EvAppCompile (ctx : Context)
| EvAppBuild (ctx : Context)
| EvAppDev (ctx : Context)
| EvAppDevDep (rootCtx ctx : Context)
| EvInfraCompile (ctx : InfraContext)
| EvInfraExecute (ctx : InfraContext)
| EvInfraCreds (ctx : InfraContext)
| EvRelFiles (dir : string)
| EvWriteDevDep (path : string).

(** The bytes the core handles are kept symbolic: [json.Marshal] of a
    credentials map is [JSON m], and [json.Unmarshal] gives the map back
    from exactly those bytes. *)
Inductive Bytes : Type :=
| JSON (m : option Creds)
| Text (s : string).

(** What a regular file holds. An encrypted envelope remembers the password
    it was sealed with and its plaintext; it opens with that password only.
    A dev-dep descriptor holds the [DevDep] it serialises. *)
Inductive FileData : Type :=
| Raw (b : Bytes)
| Envelope (password : string) (plaintext : Bytes)
| DevDepJSON (d : DevDep).

Record World := {
  files : gmap string FileData;
  dirs : gset string;
  (** paths on which the operating system refuses every change *)
  denied : gset string;
  (** the answers [Ui.Input] will return, in order *)
  answers : list (result string);
  trace : list Event
}.

Definition setFiles (f : gmap string FileData) (w : World) : World :=
  {| files := f; dirs := dirs w; denied := denied w;
     answers := answers w; trace := trace w |}.

Definition setDirs (d : gset string) (w : World) : World :=
  {| files := files w; dirs := d; denied := denied w;
     answers := answers w; trace := trace w |}.

Definition setAnswers (a : list (result string)) (w : World) : World :=
  {| files := files w; dirs := dirs w; denied := denied w;
     answers := a; trace := trace w |}.

Definition emit (e : Event) (w : World) : World :=
  {| files := files w; dirs := dirs w; denied := denied w;
     answers := answers w; trace := trace w ++ [e] |}.

(** *** A monad for Go functions that return [(value, error)]

    A computation reads and changes the world and ends in [Ok] or [Err];
    [bind] is Go's [if err != nil { return err }]. *)
Definition M (A : Type) : Type := World -> result A * World.

Definition ret {A} (a : A) : M A := fun w => (Ok a, w).

Definition fail {A} (e : error) : M A := fun w => (Err e, w).

Definition bind {A B} (m : M A) (k : A -> M B) : M B :=
  fun w =>
    match m w with
    | (Ok a, w') => k a w'
    | (Err e, w') => (Err e, w')
    end.

(** [if err != nil { return wrap(err) }] *)
Definition wrapErr {A} (wrap : error -> error) (m : M A) : M A :=
  fun w =>
    match m w with
    | (Ok a, w') => (Ok a, w')
    | (Err e, w') => (Err (wrap e), w')
    end.

Definition lift {A} (r : result A) : M A := fun w => (r, w).

Definition liftErr (e : option error) : M unit :=
  fun w => match e with None => (Ok tt, w) | Some e => (Err e, w) end.

Definition log (e : Event) : M unit := fun w => (Ok tt, emit e w).

Declare Scope go_scope.
Delimit Scope go_scope with go.
Notation "x <- m ;; k" := (bind m (fun x => k))
  (at level 100, m at next level, right associativity) : go_scope.
Notation "m ;;; k" := (bind m (fun _ => k))
  (at level 100, right associativity) : go_scope.
Local Open Scope go_scope.

Definition Errorf (msg : string) : error := errorString msg.

(** *** The user interface *)
Module ui.

Definition Header (text : string) : M unit := log (EvHeader text).

Definition Message (text : string) : M unit := log (EvMessage text).

(** [Input] returns the next answer; with no answer left the input has
    ended, which the interface reports as an error. *)
Definition Input (opts : InputOpts) : M string :=
  fun w =>
    let w := emit (EvInput opts) w in
    match answers w with
    | [] => (Err (Errorf "EOF"), w)
    | a :: rest => (a, setAnswers rest w)
    end.

End ui.

(** *** The file system ([os]) *)
Module os.

Definition exists_ (path : string) (w : World) : bool :=
  bool_decide (is_Some (files w !! path)) || bool_decide (path ∈ dirs w).

(** [os.Stat]: only whether it succeeds matters to the core. *)
Definition Stat (path : string) : M unit :=
  fun w =>
    if exists_ path w then (Ok tt, w)
    else (Err (Errorf ("stat " ++ path ++ ": no such file or directory")), w).

(** Is there a directory at [path]? The root and the working directory are
    directories of every world. *)
Definition IsDir (path : string) (w : World) : bool :=
  bool_decide (path ∈ dirs w) || String.eqb path "/" || String.eqb path ".".

(** [s] without its longest suffix of characters that satisfy [f]. *)
Fixpoint trimEnd (f : ascii -> bool) (s : string) : string :=
  match s with
  | EmptyString => EmptyString
  | String c r =>
      match trimEnd f r with
      | EmptyString => if f c then EmptyString else String c EmptyString
      | r' => String c r'
      end
  end.

(** [s] without its last character. *)
Fixpoint dropLast (s : string) : string :=
  match s with
  | EmptyString => EmptyString
  | String c EmptyString => EmptyString
  | String c r => String c (dropLast r)
  end.

(** The parent [MkdirAll] makes first, [path[:j-1]] in
    [[
      i := len(path)
      for i > 0 && os.IsPathSeparator(path[i-1]) { i-- }
      j := i
      for j > 0 && !os.IsPathSeparator(path[j-1]) { j-- }
      if j > 1 { err = MkdirAll(path[:j-1], perm) ... }
    ]] *)
Definition Parent (path : string) : option string :=
  let upto := trimEnd (fun c => negb (filepath.IsPathSeparator c))
                (trimEnd filepath.IsPathSeparator path) in
  if Nat.ltb 1 (String.length upto) then Some (dropLast upto) else None.

(** [os.Mkdir] of a path whose parent is in place: the path must be free,
    and not refused. *)
Definition Mkdir (path : string) : M unit :=
  fun w =>
    if exists_ path w || IsDir path w then
      (Err (Errorf ("mkdir " ++ path ++ ": file exists")), w)
    else if bool_decide (path ∈ denied w) then
      (Err (Errorf ("mkdir " ++ path ++ ": permission denied")), w)
    else (Ok tt, setDirs ({[path]} ∪ dirs w) w).

(** [os.MkdirAll], as Go has it: nothing to do for a directory that is
    there; a regular file at the path is an error; otherwise the parent is
    made first, in the same way, and then the path itself. The directories
    made before a failure stay. Every call on a parent is on a shorter path,
    so [fuel] beyond the length of the path is never used up. *)
Fixpoint mkdirAll (fuel : nat) (path : string) : M unit :=
  fun w =>
    if IsDir path w then (Ok tt, w)
    else if exists_ path w then
      (Err (Errorf ("mkdir " ++ path ++ ": not a directory")), w)
    else
      match fuel with
      | O => (Err (Errorf ("mkdir " ++ path ++ ": file name too long")), w)
      | Datatypes.S fuel' =>
          ((match Parent path with
            | Some parent => mkdirAll fuel' parent
            | None => ret tt
            end) ;;;
           (fun w' =>
              match Mkdir path w' with
              | (Err e, w'') =>
                  if IsDir path w'' then (Ok tt, w'') else (Err e, w'')
              | done => done
              end)) w
      end.

Definition MkdirAll (path : string) : M unit :=
  mkdirAll (Datatypes.S (String.length path)) path.

(** [endsWithDot] of [os.RemoveAll]: the path is [.] or ends in [/.]. *)
Definition endsWithDot (path : string) : bool :=
  String.eqb path "."
  || (Nat.leb 2 (String.length path)
      && String.eqb (String.substring (String.length path - 2) 2 path) "/.").

(** Is [p] the path [root] or a path below it? [root] is a cleaned path, so
    it ends in a separator only when it is the root directory. *)
Definition under (root p : string) : bool :=
  String.eqb p root
  || String.prefix
       (if String.eqb root "/" then root
        else root ++ String filepath.Separator EmptyString) p.

(** [os.RemoveAll], as Go has it: the empty path removes nothing, and a
    path that is [.] or ends in [/.] is refused; otherwise the tree at the
    path is removed, and a path that is not there is not an error. The
    path is resolved by its elements, as [filepath.Clean] does: repeated
    and trailing separators and inner [.] elements do not matter, and [..]
    steps back over the element before it. *)
Definition RemoveAll (path : string) : M unit :=
  fun w =>
    if String.eqb path "" then (Ok tt, w)
    else if endsWithDot path then
      (Err (Errorf ("RemoveAll " ++ path ++ ": invalid argument")), w)
    else
      let root := filepath.Clean path in
      if bool_decide (root ∈ denied w) then
        (Err (Errorf ("unlinkat " ++ root ++ ": permission denied")), w)
      else
        (Ok tt,
         setDirs (filter (fun p => under root p = false) (dirs w))
           (setFiles (filter (fun kv => under root (fst kv) = false) (files w)) w)).

(** Writing a regular file. *)
Definition WriteFile (path : string) (d : FileData) : M unit :=
  fun w =>
    if bool_decide (path ∈ dirs w) then
      (Err (Errorf ("open " ++ path ++ ": is a directory")), w)
    else if bool_decide (path ∈ denied w) then
      (Err (Errorf ("open " ++ path ++ ": permission denied")), w)
    else (Ok tt, setFiles (<[path := d]> (files w)) w).

End os.

(** ** Helpers of the repository that [core.go] calls *)

(** Modelled from the spec: [cryptWrite] and [cryptRead] are declared
    outside [core.go]. The spec asks for an authenticated envelope sealed
    under the password: what [cryptWrite] stored is read back with the same
    password, and any other password (or a file that is no envelope) is an
    error. *)
Definition cryptWrite (path password : string) (plaintext : Bytes) : M unit :=
  os.WriteFile path (Envelope password plaintext).

Definition cryptRead (path password : string) : M Bytes :=
  fun w =>
    match files w !! path with
    | Some (Envelope pw plaintext) =>
        if String.eqb pw password then (Ok plaintext, w)
        else (Err (Errorf "bad password"), w)
    | Some _ => (Err (Errorf "malformed encrypted file"), w)
    | None => (Err (Errorf ("open " ++ path ++ ": no such file or directory")), w)
    end.

Module json.

Definition Marshal (m : option Creds) : Bytes := JSON m.

(** [json.Unmarshal(plaintext, &creds)]: the JSON [null] leaves the nil
    map in place. *)
Definition Unmarshal (b : Bytes) : result (option Creds) :=
  match b with
  | JSON m => Ok m
  | Text _ => Err (Errorf "invalid character looking for beginning of value")
  end.

End json.

(** Modelled from the spec: [app.ReadDevDep], [app.WriteDevDep] and
    [DevDep.RelFiles] are declared outside [core.go]. The spec has
    [WriteDevDep]/[ReadDevDep] serialise and deserialise the descriptor at
    the given path, and [RelFiles(cacheDir)] rewrite the paths to be relative
    to the cache directory (relativise/verify). *)
Definition ReadDevDep (path : string) : M DevDep :=
  fun w =>
    match files w !! path with
    | Some (DevDepJSON d) => (Ok d, w)
    | Some _ => (Err (Errorf "invalid dev dependency file"), w)
    | None => (Err (Errorf ("open " ++ path ++ ": no such file or directory")), w)
    end.

Definition WriteDevDep (path : string) (d : DevDep) : M unit :=
  log (EvWriteDevDep path) ;;; os.WriteFile path (DevDepJSON d).

Definition stripPrefix (p s : string) : option string :=
  if String.prefix p s
  then Some (String.substring (String.length p) (String.length s - String.length p) s)
  else None.

Fixpoint relFiles (dir : string) (fs : list string) : result (list string) :=
  match fs with
  | [] => Ok []
  | f :: rest =>
      match (if filepath.IsAbs f
             then stripPrefix (dir ++ String filepath.Separator EmptyString) f
             else Some f) with
      | None => Err (Errorf ("file is not in the cache directory: " ++ f))
      | Some f' =>
          match relFiles dir rest with
          | Ok rest' => Ok (f' :: rest')
          | Err e => Err e
          end
      end
  end.

Definition RelFiles (d : DevDep) (dir : string) : M DevDep :=
  log (EvRelFiles dir) ;;;
  fs <- lift (relFiles dir (Files d)) ;;
  ret {| Files := fs |}.

(** The printed form of a tuple, [%s] of [app.Tuple]. *)
Definition TupleString (t : Tuple) : string :=
  "(" ++ tuple_App t ++ ", " ++ tuple_Infra t ++ ", " ++ tuple_InfraFlavor t ++ ")".

(** Modelled from the spec: the task enumeration and [ExecuteOpts] are
    declared outside [core.go]. The spec lists [ExecuteTaskDev] and
    [ExecuteTaskInfra], and [ExecuteOpts = {Task, Action, Args}]; any other
    task value is kept with its printed form. *)
Inductive ExecuteTask : Type :=
| ExecuteTaskDev
| ExecuteTaskInfra
| ExecuteTaskOther (printed : string).

Definition TaskString (t : ExecuteTask) : string :=
  match t with
  | ExecuteTaskDev => "dev"
  | ExecuteTaskInfra => "infra"
  | ExecuteTaskOther s => s
  end.

Record ExecuteOpts := {
  Task : ExecuteTask;
  Action : string;
  Args : list string
}.

(** ** The graph of compiled Appfiles (terraform's [dag]) *)

Record CompiledGraphVertex := {
  vertex_File : File;
  NameValue : string
}.

Module dag.

(** Vertices are known by their position; an edge [(a, b)] says that [a]
    depends on [b]. *)
Record Graph := {
  Vertices : list CompiledGraphVertex;
  Edges : list (nat * nat)
}.

Definition VertexName (v : CompiledGraphVertex) : string := NameValue v.

Definition DownEdges (g : Graph) (v : nat) : list nat :=
  map snd (List.filter (fun e => Nat.eqb (fst e) v) (Edges g)).

Definition UpEdges (g : Graph) (v : nat) : list nat :=
  map fst (List.filter (fun e => Nat.eqb (snd e) v) (Edges g)).

Definition indexed (g : Graph) : list (nat * CompiledGraphVertex) :=
  combine (seq 0 (length (Vertices g))) (Vertices g).

(** [Root]: the one vertex that nothing depends on. *)
Definition Root (g : Graph) : result (nat * CompiledGraphVertex) :=
  match List.filter (fun v => match UpEdges g (fst v) with [] => true | _ => false end)
          (indexed g) with
  | [r] => Ok r
  | [] => Err (Errorf "no roots found")
  | _ => Err (Errorf "multiple roots")
  end.

End dag.

Record Compiled := {
  comp_File : File;
  Graph : dag.Graph
}.

(** ** The core *)

Record Core := {
  appfile : File;
  appfileCompiled : Compiled;
  apps : Tuple -> option AppFactory;
  dir : Backend;
  infras : string -> option InfraFactory;
  dataDir : string;
  localDir : string;
  compileDir : string;
  ui_ : Ui
}.

Record CoreConfig := {
  cfg_DataDir : string;
  cfg_LocalDir : string;
  cfg_CompileDir : string;
  cfg_Appfile : Compiled;
  cfg_Directory : Backend;
  cfg_Apps : Tuple -> option AppFactory;
  cfg_Infrastructures : string -> option InfraFactory;
  cfg_Ui : Ui
}.

Definition NewCore (c : CoreConfig) : result Core :=
  Ok {| appfile := comp_File (cfg_Appfile c);
        appfileCompiled := cfg_Appfile c;
        apps := cfg_Apps c;
        dir := cfg_Directory c;
        infras := cfg_Infrastructures c;
        dataDir := cfg_DataDir c;
        localDir := cfg_LocalDir c;
        compileDir := cfg_CompileDir c;
        ui_ := cfg_Ui c |}.

(** *** [appContext], [app] and [infra] *)

Definition appContext (c : Core) (f : File) : M Context :=
  match ActiveInfrastructure f with
  | None =>
      fail (Errorf ("infrastructure not found in appfile: "
                    ++ proj_Infrastructure (file_Project f)))
  | Some config =>
      let tuple := {| tuple_App := app_Type (file_Application f);
                      tuple_Infra := proj_Infrastructure (file_Project f);
                      tuple_InfraFlavor := infra_Flavor config |} in
      let outputDir :=
        if negb (String.eqb (ID f) (ID (appfile c)))
        then filepath.Join [compileDir c; "dep-" ++ ID f]
        else filepath.Join [compileDir c; "app"] in
      let cacheDir := filepath.Join [dataDir c; "cache"; ID f] in
      wrapErr (fun err => Errorf ("error making cache directory '" ++ cacheDir
                                  ++ "': " ++ Error err))
        (os.MkdirAll cacheDir) ;;;
      ret {| Dir := outputDir;
             CacheDir := cacheDir;
             ctx_Tuple := tuple;
             ctx_Appfile := f;
             ctx_Application := file_Application f;
             ctx_Action := "";
             ctx_ActionArgs := [];
             DevDepFragments := [];
             ctx_Shared := {| shared_Directory := dir c; shared_Ui := ui_ c |} |}
  end.

Definition app (c : Core) (ctx : Context) : M App :=
  match apps c (ctx_Tuple ctx) with
  | None =>
      fail (Errorf ("app implementation for tuple not found: "
                    ++ TupleString (ctx_Tuple ctx)))
  | Some f =>
      log (EvAppFactory (ctx_Tuple ctx)) ;;;
      wrapErr (fun err => Errorf ("app failed to start properly: " ++ Error err))
        (lift f)
  end.

Definition infra (c : Core) : M (Infrastructure * InfraContext) :=
  match infras c (proj_Infrastructure (file_Project (appfile c))) with
  | None =>
      fail (Errorf ("infrastructure type not supported: "
                    ++ proj_Infrastructure (file_Project (appfile c))))
  | Some f =>
      match ActiveInfrastructure (appfile c) with
      | None =>
          fail (Errorf ("infrastructure not found in appfile: "
                        ++ proj_Infrastructure (file_Project (appfile c))))
      | Some config =>
          log (EvInfraFactory (proj_Infrastructure (file_Project (appfile c)))) ;;;
          infra <- lift f ;;
          let outputDir :=
            filepath.Join [compileDir c;
                           "infra-" ++ proj_Infrastructure (file_Project (appfile c))] in
          ret (infra,
               {| ictx_Dir := outputDir;
                  ictx_Infra := config;
                  ictx_Shared := {| shared_Directory := dir c; shared_Ui := ui_ c |};
                  ictx_Action := "";
                  ictx_ActionArgs := [];
                  InfraCreds := None |})
      end
  end.

(** ** The graph walker ([dag.Walk])

    The walker runs the callback of every vertex in a task of its own, once
    all the vertices it depends on have finished; a vertex with a failed (or
    skipped) dependency is skipped and counts as failed; the errors of the
    callbacks are collected. Callbacks of independent vertices overlap: a
    callback is split in the step that starts it ([cbStart], here the load
    of the stop flag) and the step that runs the rest of it ([cbRun]), and
    a schedule lists the steps in the order they happen. The rest of a
    callback is one step: the walker orders whole callbacks, not the calls
    inside two callbacks that overlap, so the events of one callback stay
    together in the trace. A step that cannot happen in the state it meets
    (a vertex whose dependencies are still running, a vertex that already
    ran) changes nothing. *)
Module walker.

Inductive Step : Type :=
| Start (v : nat)
| Run (v : nat).

Section Walk.

(** [St]: the variables the callbacks share; [Local]: what a callback
    holds between its two steps. *)
Context {St Local : Type}.
Variable g : dag.Graph.
Variable cbStart : nat -> CompiledGraphVertex -> St -> Local.
Variable cbRun :
  nat -> CompiledGraphVertex -> Local -> St -> option error * St.

Inductive Status : Type :=
| Waiting
| Running (l : Local)
| Done (err : option error)
| Skipped.

Record State := {
  status : list Status;
  shared : St;
  errs : list error
}.

Definition finished (s : Status) : bool :=
  match s with Done _ | Skipped => true | _ => false end.

Definition succeeded (s : Status) : bool :=
  match s with Done None => true | _ => false end.

Definition statusOf (st : State) (v : nat) : Status :=
  match status st !! v with Some s => s | None => Skipped end.

Definition depsFinished (st : State) (v : nat) : bool :=
  forallb (fun d => finished (statusOf st d)) (dag.DownEdges g v).

Definition depsSucceeded (st : State) (v : nat) : bool :=
  forallb (fun d => succeeded (statusOf st d)) (dag.DownEdges g v).

Definition setStatus (v : nat) (s : Status) (st : State) : State :=
  {| status := <[v := s]> (status st); shared := shared st; errs := errs st |}.

Definition step (st : State) (a : Step) : State :=
  match a with
  | Start v =>
      match dag.Vertices g !! v, status st !! v with
      | Some x, Some Waiting =>
          if depsFinished st v then
            if depsSucceeded st v
            then setStatus v (Running (cbStart v x (shared st))) st
            else setStatus v Skipped st
          else st
      | _, _ => st
      end
  | Run v =>
      match dag.Vertices g !! v, status st !! v with
      | Some x, Some (Running l) =>
          let '(err, sh) := cbRun v x l (shared st) in
          {| status := <[v := Done err]> (status st);
             shared := sh;
             errs := match err with
                     | Some e => errs st ++ [e]
                     | None => errs st
                     end |}
      | _, _ => st
      end
  end.

Definition run (st : State) (sched : list Step) : State :=
  fold_left step sched st.

Definition init (sh : St) : State :=
  {| status := List.map (fun _ => Waiting) (dag.Vertices g);
     shared := sh;
     errs := [] |}.

(** One pass over the vertices in which every callback that can run
    does, one after the other. *)
Definition pass : list Step :=
  flat_map (fun v => [Run v; Start v; Run v]) (seq 0 (length (dag.Vertices g))).

(** [Walk] returns when no task is left: after the schedule, the tasks
    still pending run one after the other. *)
Definition drain : list Step :=
  List.concat (List.map (fun _ => pass) (dag.Vertices g)).

Definition Walk (sched : list Step) (sh : St) : State :=
  run (init sh) (sched ++ drain).

(** The error [Walk] returns: nil, or the collected errors. *)
Definition walkError (st : State) : option error :=
  match errs st with
  | [] => None
  | es => Some (multiError (List.map Error es))
  end.

End Walk.

Arguments Waiting {Local}.
Arguments Running {Local} l.
Arguments Done {Local} err.
Arguments Skipped {Local}.

End walker.

(** ** [Core.walk] *)

(** The variables a walk's callbacks share: the atomic stop flag, what the
    user callback captured, and the world. *)
Record WalkVars (S : Type) := {
  stop : Z;
  captured : S;
  world : World
}.
Arguments stop {S} _.
Arguments captured {S} _.
Arguments world {S} _.

Section CoreWalk.

Context {S : Type}.
Variable c : Core.
(** The user callback: it is handed the app, its context and whether the
    vertex is the root, and works on the variables it captured. *)
Variable f : App -> Context -> bool -> S -> M S.
Variable root : nat.

(** [atomic.LoadInt32(&stop) != 0] *)
Definition walkStart (v : nat) (x : CompiledGraphVertex) (vars : WalkVars S) : bool :=
  negb (Z.eqb (stop vars) 0).

(** The callback past the load of the flag. *)
Definition walkBody (v : nat) (x : CompiledGraphVertex) (s : S) : M S :=
  appCtx <- wrapErr (fun err => Errorf ("Error loading Appfile for '"
                                 ++ dag.VertexName x ++ "': " ++ Error err))
              (appContext c (vertex_File x)) ;;
  app <- wrapErr (fun err => Errorf ("Error loading App implementation for '"
                              ++ dag.VertexName x ++ "': " ++ Error err))
           (app c appCtx) ;;
  f app appCtx (Nat.eqb v root) s.

(** With the deferred [atomic.StoreInt32(&stop, 1)] on an error. The
    variables the user callback captured are written only by a callback
    that succeeds: neither callback of this file changes them before it
    fails. *)
Definition walkRun (v : nat) (x : CompiledGraphVertex) (stopped : bool)
    (vars : WalkVars S) : option error * WalkVars S :=
  if stopped then (None, vars)
  else
    match walkBody v x (captured vars) (world vars) with
    | (Ok s, w) => (None, {| stop := stop vars; captured := s; world := w |})
    | (Err e, w) => (Some e, {| stop := 1; captured := captured vars; world := w |})
    end.

End CoreWalk.

Definition walkState (S : Type) := @walker.State (WalkVars S) bool.

(** The walk up to the state the walker ends in. *)
Definition walkFrom {S} (c : Core) (f : App -> Context -> bool -> S -> M S)
    (root : nat) (sched : list walker.Step) (s : S) (w : World) : walkState S :=
  walker.Walk (Graph (appfileCompiled c)) walkStart (walkRun c f root) sched
    {| stop := 0; captured := s; world := w |}.

Definition walk {S} (c : Core) (f : App -> Context -> bool -> S -> M S)
    (sched : list walker.Step) (s : S) (w : World) : option error * S * World :=
  match dag.Root (Graph (appfileCompiled c)) with
  | Err err => (Some (Errorf ("Error loading app: " ++ Error err)), s, w)
  | Ok root =>
      let st := walkFrom c f (fst root) sched s w in
      (walker.walkError st,
       captured (walker.shared st), world (walker.shared st))
  end.

(** ** Calls into the plugins *)

Definition callAppCompile (a : App) (ctx : Context) : M CompileResult :=
  log (EvAppCompile ctx) ;;; lift (app_Compile a ctx).

Definition callAppBuild (a : App) (ctx : Context) : M unit :=
  log (EvAppBuild ctx) ;;; liftErr (app_Build a ctx).

Definition callAppDev (a : App) (ctx : Context) : M unit :=
  log (EvAppDev ctx) ;;; liftErr (app_Dev a ctx).

Definition callAppDevDep (a : App) (rootCtx ctx : Context) : M DevDep :=
  log (EvAppDevDep rootCtx ctx) ;;; lift (app_DevDep a rootCtx ctx).

Definition callInfraCompile (i : Infrastructure) (ctx : InfraContext) : M CompileResult :=
  log (EvInfraCompile ctx) ;;; lift (infra_Compile i ctx).

Definition callInfraExecute (i : Infrastructure) (ctx : InfraContext) : M unit :=
  log (EvInfraExecute ctx) ;;; liftErr (infra_Execute i ctx).

Definition callInfraCreds (i : Infrastructure) (ctx : InfraContext)
  : M (option Creds) :=
  log (EvInfraCreds ctx) ;;; lift (infra_Creds i ctx).

(** ** [Core.Compile] *)

Definition setDevDepFragments (fs : list string) (ctx : Context) : Context :=
  {| Dir := Dir ctx; CacheDir := CacheDir ctx; ctx_Tuple := ctx_Tuple ctx;
     ctx_Appfile := ctx_Appfile ctx; ctx_Application := ctx_Application ctx;
     ctx_Action := ctx_Action ctx; ctx_ActionArgs := ctx_ActionArgs ctx;
     DevDepFragments := fs; ctx_Shared := ctx_Shared ctx |}.

(** The loop over [results] that fills [ctx.DevDepFragments]. *)
Definition collectFragments (results : list CompileResult) : list string :=
  fold_left
    (fun acc result =>
       if negb (String.eqb (DevDepFragmentPath result) "")
       then (acc ++ [DevDepFragmentPath result])%list
       else acc)
    results [].

Definition compileCallback (c : Core) (a : App) (ctx : Context) (root : bool)
    (results : list CompileResult) : M (list CompileResult) :=
  (if negb root
   then ui.Message ("Compiling dependency '"
                    ++ app_Name (file_Application (ctx_Appfile ctx)) ++ "'...")
   else ui.Message "Compiling main application...") ;;;
  let ctx := if root then setDevDepFragments (collectFragments results) ctx else ctx in
  result <- callAppCompile a ctx ;;
  ret (results ++ [result])%list.

Definition Compile (c : Core) (sched : list walker.Step) : M unit :=
  ic <- infra c ;;
  os.RemoveAll (compileDir c) ;;;
  _ <- callInfraCompile (fst ic) (snd ic) ;;
  fun w =>
    let '(err, results, w') := walk c (compileCallback c) sched [] w in
    (Ok tt, w').

(** ** [Core.creds] *)

(** The two descriptions, as [strings.TrimSpace] leaves them. *)
Definition credsQueryPassExists : string :=
  "Infrastructure credentials are required for this operation. Otto found
saved credentials that are password protected. Please enter the password
to decrypt these credentials. You may also just hit <enter> and leave
the password blank to force Otto to ask for the credentials again.".

Definition credsQueryPassNew : string :=
  "This password will be used to encrypt and save the credentials so they
don't need to be repeated multiple times.".

Definition setInfraCreds (m : option Creds) (ctx : InfraContext) : InfraContext :=
  {| ictx_Dir := ictx_Dir ctx; ictx_Infra := ictx_Infra ctx;
     ictx_Shared := ictx_Shared ctx; ictx_Action := ictx_Action ctx;
     ictx_ActionArgs := ictx_ActionArgs ctx; InfraCreds := m |}.

Definition encryptOpts : InputOpts :=
  {| opts_Id := "creds_password";
     opts_Query := "Password for Encrypting Credentials";
     opts_Description := credsQueryPassNew |}.

Definition decryptOpts : InputOpts :=
  {| opts_Id := "creds_password";
     opts_Query := "Encrypted Credentials Password";
     opts_Description := credsQueryPassExists |}.

Definition credsFoundNotice : string :=
  "Cached and encrypted infrastructure credentials found.
Otto will now ask you for the password to decrypt these
credentials.

".

Definition credsMissingNotice : string :=
  "Existing infrastructure credentials were not found! Otto will
now ask you for infrastructure credentials. These will be encrypted
and saved on disk so this doesn't need to be repeated.

IMPORTANT: If you're re-entering new credentials, make sure the
credentials are for the same account, otherwise you may lose
access to your existing infrastructure Otto set up.

".

(** [for password == "" { password, err = Ui.Input(...) ... }]: every turn
    takes one answer, and the input ends in an error once the answers are
    used up, so one turn more than there are answers is always enough. *)
Fixpoint askPasswordLoop (fuel : nat) : M string :=
  match fuel with
  | O => fail (Errorf "EOF")
  | Datatypes.S n =>
      password <- ui.Input encryptOpts ;;
      if String.eqb password "" then askPasswordLoop n else ret password
  end.

Definition askPassword : M string :=
  fun w => askPasswordLoop (Datatypes.S (length (answers w))) w.

(** The block guarded by [if exists]: it either returns from [creds]
    ([inl]) or falls through with the variable [creds] ([inr]). *)
Definition credsCached (path : string) (infraCtx : InfraContext)
  : M (InfraContext + option Creds) :=
  ui.Message credsFoundNotice ;;;
  value <- ui.Input decryptOpts ;;
  if negb (String.eqb value "") then
    _ <- wrapErr
           (fun err => Errorf ("error reading encrypted credentials: " ++ Error err
              ++ "

If this error persists, you can force Otto to ask for credentials
again by inputting the empty password as the password."))
           (plaintext <- cryptRead path value ;; lift (json.Unmarshal plaintext)) ;;
    ret (inl infraCtx)
  else ret (inr None).

Definition credsAcquire (path : string) (i : Infrastructure)
    (infraCtx : InfraContext) : M (option Creds) :=
  ui.Message credsMissingNotice ;;;
  creds <- callInfraCreds i infraCtx ;;
  password <- askPassword ;;
  let plaintext := json.Marshal creds in
  wrapErr (fun err => Errorf ("error writing encrypted credentials: " ++ Error err))
    (cryptWrite path password plaintext) ;;;
  ret creds.

Definition creds (c : Core) (i : Infrastructure) (infraCtx : InfraContext)
  : M InfraContext :=
  ui.Header "Detecting infrastructure credentials..." ;;;
  let path := filepath.Join [localDir c; "creds"] in
  exists_ <- (fun w =>
                match os.Stat path w with
                | (Ok _, w') => (Ok true, w')
                | (Err _, w') =>
                    (os.MkdirAll (filepath.Dir path) ;;; ret false) w'
                end) ;;
  r <- (if exists_ : bool then credsCached path infraCtx else ret (inr None)) ;;
  match r with
  | inl ctx => ret ctx
  | inr creds =>
      creds <- match creds with
               | None => credsAcquire path i infraCtx
               | Some _ => ret creds
               end ;;
      ret (setInfraCreds creds infraCtx)
  end.

(** ** [Core.Build] *)

Definition Build (c : Core) : M unit :=
  ic <- infra c ;;
  infraCtx <- creds c (fst ic) (snd ic) ;;
  root <- lift (dag.Root (Graph (appfileCompiled c))) ;;
  rootCtx <- wrapErr (fun err => Errorf ("Error loading App: " ++ Error err))
               (appContext c (vertex_File (snd root))) ;;
  rootApp <- wrapErr (fun err => Errorf ("Error loading App: " ++ Error err))
               (app c rootCtx) ;;
  callAppBuild rootApp rootCtx.

(** ** [Core.Dev] *)

Definition devCallback (rootCtx : Context) (appImpl : App) (ctx : Context)
    (root : bool) (_ : unit) : M unit :=
  if root then ret tt
  else
    let cachePath := filepath.Join [CacheDir ctx; "dev-dep.json"] in
    fun w =>
      match ReadDevDep cachePath w with
      | (Ok _, w') =>
          ui.Header ("Using cached dev dependency for '"
                     ++ app_Name (file_Application (ctx_Appfile ctx)) ++ "'") w'
      | (Err _, w') =>
          (dep <- wrapErr
                    (fun err => Errorf ("Error building dependency for dev '"
                       ++ app_Name (file_Application (ctx_Appfile ctx))
                       ++ "': " ++ Error err))
                    (callAppDevDep appImpl rootCtx ctx) ;;
           if Nat.ltb 0 (length (Files dep)) then
             dep' <- wrapErr
                       (fun err => Errorf ("Error caching dependency for dev '"
                          ++ app_Name (file_Application (ctx_Appfile ctx))
                          ++ "': " ++ Error err))
                       (RelFiles dep (CacheDir ctx)) ;;
             wrapErr
               (fun err => Errorf ("Error caching dependency for dev '"
                  ++ app_Name (file_Application (ctx_Appfile ctx))
                  ++ "': " ++ Error err))
               (WriteDevDep cachePath dep')
           else ret tt) w'
      end.

Definition Dev (c : Core) (sched : list walker.Step) : M unit :=
  root <- lift (dag.Root (Graph (appfileCompiled c))) ;;
  rootCtx <- wrapErr (fun err => Errorf ("Error loading App: " ++ Error err))
               (appContext c (vertex_File (snd root))) ;;
  rootApp <- wrapErr (fun err => Errorf ("Error loading App: " ++ Error err))
               (app c rootCtx) ;;
  (fun w =>
     let '(err, _, w') := walk c (devCallback rootCtx) sched tt w in
     (match err with Some e => Err e | None => Ok tt end, w')) ;;;
  callAppDev rootApp rootCtx.

(** ** [Core.Execute] *)

(** How a call ends: it returns its error value, or it panics. *)
Inductive Outcome : Type :=
| Returned (err : option error)
| Panicked (msg : string).

Definition returned {A} (r : result A * World) : Outcome * World :=
  (Returned (resultError (fst r)), snd r).

Definition setAction (action : string) (args : list string) (ctx : Context) : Context :=
  {| Dir := Dir ctx; CacheDir := CacheDir ctx; ctx_Tuple := ctx_Tuple ctx;
     ctx_Appfile := ctx_Appfile ctx; ctx_Application := ctx_Application ctx;
     ctx_Action := action; ctx_ActionArgs := args;
     DevDepFragments := DevDepFragments ctx; ctx_Shared := ctx_Shared ctx |}.

Definition setInfraAction (action : string) (args : list string) (ctx : InfraContext)
  : InfraContext :=
  {| ictx_Dir := ictx_Dir ctx; ictx_Infra := ictx_Infra ctx;
     ictx_Shared := ictx_Shared ctx; ictx_Action := action;
     ictx_ActionArgs := args; InfraCreds := InfraCreds ctx |}.

Definition executeApp (c : Core) (opts : ExecuteOpts) (w : World) : Outcome * World :=
  match (appCtx <- appContext c (appfile c) ;;
         a <- app c appCtx ;;
         ret (a, appCtx)) w with
  | (Err err, w') => (Returned (Some err), w')
  | (Ok (a, appCtx), w') =>
      let appCtx := setAction (Action opts) (Args opts) appCtx in
      match Task opts with
      | ExecuteTaskDev => returned (callAppDev a appCtx w')
      | _ => (Panicked ("uknown task: " ++ TaskString (Task opts)), w')
      end
  end.

Definition executeInfra (c : Core) (opts : ExecuteOpts) : M unit :=
  ic <- infra c ;;
  let infraCtx := setInfraAction (Action opts) (Args opts) (snd ic) in
  callInfraExecute (fst ic) infraCtx.

Definition Execute (c : Core) (opts : ExecuteOpts) (w : World) : Outcome * World :=
  match Task opts with
  | ExecuteTaskDev => executeApp c opts w
  | ExecuteTaskInfra => returned (executeInfra c opts w)
  | _ => (Returned (Some (Errorf ("unknown task: " ++ TaskString (Task opts)))), w)
  end.

(** ** Notions the statements use *)

(** The context [appContext] returns for an Appfile when it succeeds. *)
Definition contextOf (c : Core) (f : File) : option Context :=
  match ActiveInfrastructure f with
  | None => None
  | Some config =>
      Some {| Dir := if String.eqb (ID f) (ID (appfile c))
                     then filepath.Join [compileDir c; "app"]
                     else filepath.Join [compileDir c; "dep-" ++ ID f];
              CacheDir := filepath.Join [dataDir c; "cache"; ID f];
              ctx_Tuple := {| tuple_App := app_Type (file_Application f);
                              tuple_Infra := proj_Infrastructure (file_Project f);
                              tuple_InfraFlavor := infra_Flavor config |};
              ctx_Appfile := f;
              ctx_Application := file_Application f;
              ctx_Action := "";
              ctx_ActionArgs := [];
              DevDepFragments := [];
              ctx_Shared := {| shared_Directory := dir c; shared_Ui := ui_ c |} |}
  end.

(** The implementation [app] returns for a context when it succeeds. *)
Definition appOf (c : Core) (ctx : Context) : option App :=
  match apps c (ctx_Tuple ctx) with
  | Some (Ok a) => Some a
  | _ => None
  end.

(** What the [Compile] of a dependency returns: its app's result on its
    context. *)
Definition compileResultOf (c : Core) (x : CompiledGraphVertex)
  : option CompileResult :=
  match contextOf c (vertex_File x) with
  | None => None
  | Some ctx =>
      match appOf c ctx with
      | None => None
      | Some a =>
          match app_Compile a ctx with
          | Ok r => Some r
          | Err _ => None
          end
      end
  end.

(** What [Compile] tells the user about a vertex. *)
Definition compileMessage (root : bool) (ctx : Context) : string :=
  if negb root
  then "Compiling dependency '"
       ++ app_Name (file_Application (ctx_Appfile ctx)) ++ "'..."
  else "Compiling main application...".

(** The non-empty fragment paths of a list of results. *)
Definition fragmentPaths (results : list CompileResult) : list string :=
  List.filter filepath.nonEmpty (List.map DevDepFragmentPath results).

(** [reaches g a b]: [a] depends on [b], directly or through others. *)
Inductive reaches (g : dag.Graph) : nat -> nat -> Prop :=
| reaches_refl a : reaches g a a
| reaches_edge a b d :
    reaches g a b -> In d (dag.DownEdges g b) -> reaches g a d.

(** A schedule without overlap: every callback that starts runs to its end
    before anything else happens. *)
Fixpoint sequential (sched : list walker.Step) : bool :=
  match sched with
  | [] => true
  | walker.Run _ :: rest => sequential rest
  | walker.Start v :: walker.Run v' :: rest => Nat.eqb v v' && sequential rest
  | walker.Start _ :: _ => false
  end.

(** [r] can stand in the results for vertex [v]: [v] is the root, or [r]
    is what the [Compile] of the dependency [v] returns. *)
Definition resultFor (c : Core) (root v : nat) (r : CompileResult) : Prop :=
  v = root
  \/ exists x, dag.Vertices (Graph (appfileCompiled c)) !! v = Some x
               /\ compileResultOf c x = Some r.

(** What every state of a [Compile] walk satisfies. *)
Record compileInv (c : Core) (root : nat) (st : walkState (list CompileResult))
  : Prop := {
  inv_length :
    length (walker.status st) = length (dag.Vertices (Graph (appfileCompiled c)));
  (** a callback starts only after its dependencies returned nil *)
  inv_deps :
    forall v,
      (walker.status st !! v = Some (walker.Done None)
       \/ exists l, walker.status st !! v = Some (walker.Running l)) ->
      forall d, In d (dag.DownEdges (Graph (appfileCompiled c)) v) ->
                walker.status st !! d = Some (walker.Done None);
  (** the flag is set only when a callback returned an error *)
  inv_flag :
    stop (walker.shared st) <> 0%Z ->
    exists v e, walker.status st !! v = Some (walker.Done (Some e));
  (** while the flag is clear, no callback saw it set *)
  inv_clear :
    stop (walker.shared st) = 0%Z ->
    forall v l, walker.status st !! v = Some (walker.Running l) -> l = false;
  (** while the flag is clear, the results are those of the callbacks that
      returned, in the order they returned *)
  inv_results :
    stop (walker.shared st) = 0%Z ->
    exists order,
      NoDup order
      /\ (forall v, v ∈ order <-> exists e, walker.status st !! v = Some (walker.Done e))
      /\ Forall2 (resultFor c root) order (captured (walker.shared st))
}.

(** No callback is between its two steps. *)
Definition noneRunning {St Local} (st : @walker.State St Local) : Prop :=
  forall v l, walker.status st !! v <> Some (walker.Running l).

(** What a walk without overlap keeps true: no callback is under way, at
    most one error was returned, and the flag is set if one was. *)
Definition oneAtATime {S} (st : walkState S) : Prop :=
  noneRunning st
  /\ length (walker.errs st) <= 1
  /\ (walker.errs st <> [] -> stop (walker.shared st) <> 0%Z).

(** Where the cached descriptor of a context lives. *)
Definition devDepPath (ctx : Context) : string :=
  filepath.Join [CacheDir ctx; "dev-dep.json"].

(** One run of [Dev] after the other, each with its own schedule. *)
Definition devRuns (c : Core) (scheds : list (list walker.Step)) (w : World) : World :=
  fold_left (fun w sched => snd (Dev c sched w)) scheds w.

(** A readable descriptor is stored at [path]: [ReadDevDep] succeeds. *)
Definition cached (path : string) (w : World) : Prop :=
  exists d, files w !! path = Some (DevDepJSON d).

(** Every dependency of the graph whose descriptor would live at [path]
    gets a [DevDep] without files. *)
Definition noFilesAt (c : Core) (path : string) : Prop :=
  forall rootCtx v x ctx a dep,
    dag.Vertices (Graph (appfileCompiled c)) !! v = Some x ->
    contextOf c (vertex_File x) = Some ctx ->
    devDepPath ctx = path ->
    appOf c ctx = Some a ->
    app_DevDep a rootCtx ctx = Ok dep ->
    Files dep = [].

Definition isAppDev (e : Event) : bool :=
  match e with EvAppDev _ => true | _ => false end.

Definition isDevDepAt (path : string) (e : Event) : bool :=
  match e with
  | EvAppDevDep _ ctx => String.eqb (devDepPath ctx) path
  | _ => false
  end.

(** What a [Dev] walk that started in [w0] has done by [w]: it has added
    events to the trace, none of them a call of [Dev]; and if a descriptor
    was cached at [path] it still is, and [DevDep] was not called for it. *)
Definition devWalked (path : string) (w0 w : World) : Prop :=
  exists new,
    trace w = (trace w0 ++ new)%list
    /\ Forall (fun e => isAppDev e = false) new
    /\ (cached path w0 ->
        cached path w /\ Forall (fun e => isDevDepAt path e = false) new).

(** The header the callback of [Dev] prints on a cache hit. *)
Definition cacheHitHeader (ctx : Context) : Event :=
  EvHeader ("Using cached dev dependency for '"
            ++ app_Name (file_Application (ctx_Appfile ctx)) ++ "'").


(** What every state of a [Dev] walk that started in [w0] satisfies. *)
Record devInv (c : Core) (root : nat) (rootCtx : Context) (w0 : World)
    (st : walkState unit) : Prop := {
  (** the flag is set only after an error *)
  dinv_flag : stop (walker.shared st) <> 0%Z -> walker.errs st <> [];
  (** while the flag is clear, no callback saw it set *)
  dinv_clear :
    stop (walker.shared st) = 0%Z ->
    forall v l, walker.status st !! v = Some (walker.Running l) -> l = false;
  (** a descriptor that was cached still is *)
  dinv_cached :
    forall p, cached p w0 -> cached p (world (walker.shared st));
  (** a descriptor whose dependencies report no files is still missing *)
  dinv_missing :
    forall p, noFilesAt c p -> ~ cached p w0 ->
              ~ cached p (world (walker.shared st));
  (** while the flag is clear, every dependency whose callback returned was
      visited: its header was printed if its descriptor was cached, and its
      [DevDep] was called if the descriptor was missing and stays missing *)
  dinv_visited :
    exists new,
      trace (world (walker.shared st)) = (trace w0 ++ new)%list
      /\ (stop (walker.shared st) = 0%Z ->
          forall v e x ctx,
            walker.status st !! v = Some (walker.Done e) ->
            v <> root ->
            dag.Vertices (Graph (appfileCompiled c)) !! v = Some x ->
            contextOf c (vertex_File x) = Some ctx ->
            (cached (devDepPath ctx) w0 -> In (cacheHitHeader ctx) new)
            /\ (noFilesAt c (devDepPath ctx) -> ~ cached (devDepPath ctx) w0 ->
                In (EvAppDevDep rootCtx ctx) new))
}.

(** From [w] to [w'] nothing happened but that directories were made. *)
Definition madeDirs (w w' : World) : Prop :=
  files w' = files w /\ denied w' = denied w /\ trace w' = trace w
  /\ answers w' = answers w /\ forall p, p ∈ dirs w -> p ∈ dirs w'.

(** ** Notions for further properties *)

(** Events of the application plugins: a factory started or an operation
    called. *)
Definition isAppEvent (e : Event) : bool :=
  match e with
  | EvAppFactory _ | EvAppCompile _ | EvAppBuild _ | EvAppDev _ | EvAppDevDep _ _ => true
  | _ => false
  end.

(** What [creds] may do: talk to the user and call [infra.Creds]. *)
Definition isCredsEvent (e : Event) : bool :=
  match e with
  | EvHeader _ | EvMessage _ | EvInput _ | EvInfraCreds _ => true
  | _ => false
  end.

(** The announcement of the root in [Compile]. *)
Definition isMainAnnouncement (e : Event) : bool :=
  match e with
  | EvMessage text => String.eqb text "Compiling main application..."
  | _ => false
  end.

(** A callback has started: it is between its two steps or has returned. *)
Definition started {Local} (s : @walker.Status Local) : bool :=
  match s with
  | walker.Running _ | walker.Done _ => true
  | _ => false
  end.

(** The edges of the graph join vertices of the graph. *)
Definition edgesInRange (g : dag.Graph) : Prop :=
  forall a b, In (a, b) (dag.Edges g) ->
              a < length (dag.Vertices g) /\ b < length (dag.Vertices g).

(** What every state of a walk satisfies, whatever the callbacks: a callback
    starts only after the callbacks of its dependencies returned nil; an
    error a callback returned is among the errors collected; and a vertex is
    skipped only after an error. *)
Record orderly {St Local} (g : dag.Graph) (st : @walker.State St Local) : Prop := {
  ord_length : length (walker.status st) = length (dag.Vertices g);
  ord_deps :
    forall v s, walker.status st !! v = Some s -> started s = true ->
    forall d, In d (dag.DownEdges g v) ->
              walker.status st !! d = Some (walker.Done None);
  ord_errs :
    forall v e, walker.status st !! v = Some (walker.Done (Some e)) ->
                In e (walker.errs st);
  ord_skipped :
    forall v, walker.status st !! v = Some walker.Skipped -> walker.errs st <> []
}.

(** What a [Compile] walk that started in [w0] has told the user by the
    state [st]: the root is announced only by the root's own callback. *)
Definition announcedByRoot (root : nat) (w0 : World)
    (st : walkState (list CompileResult)) : Prop :=
  exists new,
    trace (world (walker.shared st)) = (trace w0 ++ new)%list
    /\ (List.filter isMainAnnouncement new <> [] ->
        exists e, walker.status st !! root = Some (walker.Done e)).

(** The suffix of the error [creds] returns when the cached credentials
    cannot be read. *)
Definition credsReadAdvice : string :=
  "

If this error persists, you can force Otto to ask for credentials
again by inputting the empty password as the password.".

(** A call of an app's [Compile]. *)
Definition isAppCompile (e : Event) : bool :=
  match e with EvAppCompile _ => true | _ => false end.

(** The event [ev] is the call of [Compile] that returned the result [r]:
    the call of the implementation of its context, on that context. *)
Definition compileCall (c : Core) (ev : Event) (r : CompileResult) : Prop :=
  exists ctx a,
    ev = EvAppCompile ctx /\ appOf c ctx = Some a /\ app_Compile a ctx = Ok r.

(** The calls of [Compile] since the world [w0] are those that returned the
    results, in their order, unless the flag is set. *)
Definition compileCalls (c : Core) (w0 : World) (vars : WalkVars (list CompileResult))
  : Prop :=
  exists new,
    trace (world vars) = (trace w0 ++ new)%list
    /\ (stop vars = 0%Z ->
        Forall2 (compileCall c) (List.filter isAppCompile new) (captured vars)).

(** Between the worlds [w] and [w'] nothing happened but what [creds] may
    do. *)
Definition onlyCredsEvents (w w' : World) : Prop :=
  exists new,
    trace w' = (trace w ++ new)%list
    /\ Forall (fun e => isCredsEvent e = true) new.

(** Between the worlds [w] and [w'] the application plugins were touched
    exactly as the list [l] says. *)
Definition appEvents (w w' : World) (l : list Event) : Prop :=
  exists new,
    trace w' = (trace w ++ new)%list /\ List.filter isAppEvent new = l.

(** What a callback of [Compile] may do: start an app factory, tell the
    user and call [app.Compile]. *)
Definition isCompileWalkEvent (e : Event) : bool :=
  match e with
  | EvAppFactory _ | EvMessage _ | EvAppCompile _ => true
  | _ => false
  end.

(** ** Sample projects

    A project on the infrastructure [aws] with application types [ok] (every
    operation succeeds; [Compile] reports a fragment in its output
    directory), [bad] (Compile and DevDep fail) and [files] (DevDep reports
    one file in the cache directory). *)
Module Sample.

Definition aws : Infra :=
  {| infra_Name := "aws"; infra_Type := "aws"; infra_Flavor := "simple" |}.

Definition mkFile (id name ty : string) : File :=
  {| ID := id;
     file_Application := {| app_Name := name; app_Type := ty |};
     file_Project := {| proj_Name := "example"; proj_Infrastructure := "aws" |};
     ActiveInfrastructure := Some aws |}.

(** An Appfile whose project names an infrastructure it does not
    configure. *)
Definition noInfraFile : File :=
  {| ID := "N";
     file_Application := {| app_Name := "lonely"; app_Type := "ok" |};
     file_Project := {| proj_Name := "example"; proj_Infrastructure := "gce" |};
     ActiveInfrastructure := None |}.

Definition okApp : App :=
  {| app_Compile := fun ctx => Ok {| DevDepFragmentPath := Dir ctx ++ "/frag.sh" |};
     app_Build := fun _ => None;
     app_Dev := fun _ => None;
     app_DevDep := fun _ _ => Ok {| Files := [] |} |}.

Definition badApp : App :=
  {| app_Compile := fun ctx =>
       Err (Errorf ("compile failed: " ++ app_Name (ctx_Application ctx)));
     app_Build := fun _ => None;
     app_Dev := fun _ => None;
     app_DevDep := fun _ ctx =>
       Err (Errorf ("dev dep failed: " ++ app_Name (ctx_Application ctx))) |}.

Definition filesApp : App :=
  {| app_Compile := fun ctx => Ok {| DevDepFragmentPath := "" |};
     app_Build := fun _ => None;
     app_Dev := fun _ => None;
     app_DevDep := fun _ ctx => Ok {| Files := [CacheDir ctx ++ "/box.tar"] |} |}.

Definition registry (t : Tuple) : option AppFactory :=
  if String.eqb (tuple_App t) "ok" then Some (Ok okApp)
  else if String.eqb (tuple_App t) "bad" then Some (Ok badApp)
  else if String.eqb (tuple_App t) "files" then Some (Ok filesApp)
  else None.

Definition awsCreds : Creds := {[ "AWS_KEY" := "y" ]}.

Definition awsInfra : Infrastructure :=
  {| infra_Compile := fun _ => Ok {| DevDepFragmentPath := "" |};
     infra_Execute := fun _ => None;
     infra_Creds := fun _ => Ok (Some awsCreds) |}.

Definition infraRegistry (name : string) : option InfraFactory :=
  if String.eqb name "aws" then Some (Ok awsInfra) else None.

Definition vertex (f : File) : CompiledGraphVertex :=
  {| vertex_File := f; NameValue := app_Name (file_Application f) |}.

Definition mkCore (rootFile : File) (g : dag.Graph) : Core :=
  {| appfile := rootFile;
     appfileCompiled := {| comp_File := rootFile; Graph := g |};
     apps := registry;
     dir := "backend";
     infras := infraRegistry;
     dataDir := "/data";
     localDir := "/local";
     compileDir := "/tmp/compile";
     ui_ := "ui" |}.

Definition emptyWorld : World :=
  {| files := ∅; dirs := ∅; denied := ∅; answers := []; trace := [] |}.

(** Root only. *)
Definition rootOk : File := mkFile "R" "main" "ok".
Definition rootBad : File := mkFile "R" "main" "bad".
Definition graph1 (r : File) : dag.Graph :=
  {| dag.Vertices := [vertex r]; dag.Edges := [] |}.

(** Root [R] with two independent dependencies. *)
Definition graph3 (r d1 d2 : File) : dag.Graph :=
  {| dag.Vertices := [vertex r; vertex d1; vertex d2];
     dag.Edges := [(0, 1); (0, 2)] |}.

(** The context [appContext] builds for a dependency of these cores. *)
Definition depCtx (id name ty : string) : Context :=
  {| Dir := "/tmp/compile/dep-" ++ id;
     CacheDir := "/data/cache/" ++ id;
     ctx_Tuple := {| tuple_App := ty; tuple_Infra := "aws";
                     tuple_InfraFlavor := "simple" |};
     ctx_Appfile := mkFile id name ty;
     ctx_Application := {| app_Name := name; app_Type := ty |};
     ctx_Action := "";
     ctx_ActionArgs := [];
     DevDepFragments := [];
     ctx_Shared := {| shared_Directory := "backend"; shared_Ui := "ui" |} |}.

Definition rootCtx (ty : string) : Context :=
  {| Dir := "/tmp/compile/app";
     CacheDir := "/data/cache/R";
     ctx_Tuple := {| tuple_App := ty; tuple_Infra := "aws";
                     tuple_InfraFlavor := "simple" |};
     ctx_Appfile := mkFile "R" "main" ty;
     ctx_Application := {| app_Name := "main"; app_Type := ty |};
     ctx_Action := "";
     ctx_ActionArgs := [];
     DevDepFragments := [];
     ctx_Shared := {| shared_Directory := "backend"; shared_Ui := "ui" |} |}.

Definition infraCtx0 : InfraContext :=
  {| ictx_Dir := "/tmp/compile/infra-aws";
     ictx_Infra := aws;
     ictx_Shared := {| shared_Directory := "backend"; shared_Ui := "ui" |};
     ictx_Action := "";
     ictx_ActionArgs := [];
     InfraCreds := None |}.

End Sample.

(** * Properties *)

(** ** [filepath] *)

Example Join_ex1 : filepath.Join ["/tmp/compile"; "dep-D"] = "/tmp/compile/dep-D".
Proof. vm_compute. reflexivity. Qed.
Example Join_ex2 : filepath.Join ["/tmp//compile/"; "dep-x/../app"] = "/tmp/compile/app".
Proof. vm_compute. reflexivity. Qed.
Example Join_ex3 : filepath.Join [""; "app"] = "app".
Proof. vm_compute. reflexivity. Qed.
Example Join_ex4 : filepath.Join ["../a/../.."; "cache"; "id"] = "../../cache/id".
Proof. vm_compute. reflexivity. Qed.
Example Clean_ex1 : filepath.Clean "a//b/./c/.." = "a/b".
Proof. vm_compute. reflexivity. Qed.
Example Clean_ex2 : filepath.Clean "/../a" = "/a".
Proof. vm_compute. reflexivity. Qed.
Example Clean_ex3 : filepath.Clean "a/../.." = "..".
Proof. vm_compute. reflexivity. Qed.
Example Clean_ex4 : filepath.Clean "/" = "/".
Proof. vm_compute. reflexivity. Qed.
Example Clean_ex5 : filepath.Clean "a/.." = ".".
Proof. vm_compute. reflexivity. Qed.
Example Dir_ex1 : filepath.Dir "/home/u/.otto/local/creds" = "/home/u/.otto/local".
Proof. vm_compute. reflexivity. Qed.
Example Dir_ex2 : filepath.Dir "/creds" = "/".
Proof. vm_compute. reflexivity. Qed.
Example Dir_ex3 : filepath.Dir "creds" = ".".
Proof. vm_compute. reflexivity. Qed.


Module filepath_facts.
Import filepath.

Lemma append_nil (b : string) : "" ++ b = b.
Proof. reflexivity. Qed.

Lemma append_cons (x : ascii) (a b : string) : String x a ++ b = String x (a ++ b).
Proof. reflexivity. Qed.

Lemma append_assoc (a b c : string) : (a ++ b) ++ c = a ++ (b ++ c).
Proof.
  induction a as [|x a IH]; [reflexivity|].
  rewrite !append_cons, IH. reflexivity.
Qed.

Lemma Split_not_nil p : Split p <> [].
Proof.
  destruct p as [|c r]; simpl; [discriminate|].
  destruct (IsPathSeparator c); [discriminate|].
  destruct (Split r); discriminate.
Qed.

Lemma Split_noSeparator e : noSeparator e = true -> Split e = [e].
Proof.
  induction e as [|c r IH]; simpl; intros H; [reflexivity|].
  apply andb_true_iff in H as [Hc Hr].
  apply negb_true_iff in Hc. rewrite Hc, (IH Hr). reflexivity.
Qed.

Lemma Split_app d e :
  Split (d ++ String Separator e) = (Split d ++ Split e)%list.
Proof.
  induction d as [|c r IH].
  - reflexivity.
  - rewrite append_cons. simpl. rewrite IH.
    destruct (IsPathSeparator c); [reflexivity|].
    destruct (Split r) as [|x xs] eqn:E; [|reflexivity].
    exfalso. exact (Split_not_nil r E).
Qed.

Lemma cleanElems_app rooted xs : forall out ys,
  cleanElems rooted out (xs ++ ys)%list
  = cleanElems rooted (rev (cleanElems rooted out xs)) ys.
Proof.
  induction xs as [|x xs IH]; intros out ys; simpl.
  - rewrite rev_involutive. reflexivity.
  - repeat match goal with
           | |- context [if ?b then _ else _] => destruct b
           | |- context [match ?l with [] => _ | _ :: _ => _ end] => destruct l
           end; apply IH.
Qed.

Lemma cleanElems_plain rooted out e :
  plain e -> cleanElems rooted out [e] = (rev out ++ [e])%list.
Proof.
  intros (_ & H1 & H2 & H3). simpl.
  apply String.eqb_neq in H1, H2, H3. rewrite H1, H2, H3. reflexivity.
Qed.

Lemma SlashJoin_snoc xs e :
  SlashJoin (xs ++ [e])
  = match xs with
    | [] => e
    | _ => SlashJoin xs ++ String Separator e
    end.
Proof.
  induction xs as [|x xs IH]; [reflexivity|].
  change ((x :: xs) ++ [e])%list with (x :: (xs ++ [e]))%list.
  destruct xs as [|y ys].
  - reflexivity.
  - change (SlashJoin (x :: (y :: ys) ++ [e])%list)
      with (x ++ String Separator (SlashJoin ((y :: ys) ++ [e])%list)).
    rewrite IH.
    change (SlashJoin (x :: y :: ys))
      with (x ++ String Separator (SlashJoin (y :: ys))).
    rewrite append_assoc. reflexivity.
Qed.

Lemma last_Split_snoc d e :
  noSeparator e = true -> List.last (Split (d ++ String Separator e)) "" = e.
Proof.
  intros H. rewrite Split_app, (Split_noSeparator _ H).
  apply last_last.
Qed.

Lemma lastElem_render rooted xs e :
  noSeparator e = true -> e <> "" ->
  lastElem (render rooted (xs ++ [e])%list) = e.
Proof.
  intros H Hne. unfold lastElem, render.
  assert (Hj : forall ys, List.last (Split (SlashJoin (ys ++ [e])%list)) "" = e).
  { intros ys. rewrite SlashJoin_snoc. destruct ys.
    - rewrite (Split_noSeparator _ H). reflexivity.
    - apply last_Split_snoc, H. }
  destruct rooted.
  - rewrite SlashJoin_snoc. destruct xs.
    + apply (last_Split_snoc "" e H).
    + change (String Separator (SlashJoin (s :: xs) ++ String Separator e))
        with (String Separator (SlashJoin (s :: xs)) ++ String Separator e).
      apply last_Split_snoc, H.
  - destruct (xs ++ [e])%list eqn:E.
    + destruct xs; discriminate.
    + rewrite <- E. apply Hj.
Qed.

(** Cleaning a path that ends in a plain element keeps that element as
    the last one. *)
Lemma lastElem_Clean_snoc d e :
  plain e -> lastElem (Clean (d ++ String Separator e)) = e.
Proof.
  intros He. unfold Clean.
  destruct (d ++ String Separator e) eqn:E.
  - destruct d; discriminate.
  - rewrite <- E. rewrite Split_app, cleanElems_app.
    destruct He as (Hs & Hne & Hd & Hdd).
    rewrite (Split_noSeparator _ Hs).
    rewrite cleanElems_plain by (repeat split; assumption).
    rewrite rev_involutive. apply lastElem_render; assumption.
Qed.

Lemma lastElem_Clean_plain e : plain e -> lastElem (Clean e) = e.
Proof.
  intros He. pose proof He as (Hs & Hne & Hd & Hdd). unfold Clean.
  destruct e as [|c r]; [congruence|].
  rewrite (Split_noSeparator _ Hs), cleanElems_plain by exact He.
  apply (lastElem_render _ []); assumption.
Qed.

(** [filepath.Join(d, e)] ends in [e] when [e] is a plain element. *)
Lemma lastElem_Join2 d e : plain e -> lastElem (Join [d; e]) = e.
Proof.
  intros He. pose proof He as (Hs & Hne & Hd & Hdd).
  unfold Join. simpl. unfold nonEmpty.
  apply String.eqb_neq in Hne. rewrite Hne. simpl.
  destruct (String.eqb d "") eqn:Ed; simpl.
  - apply lastElem_Clean_plain, He.
  - apply lastElem_Clean_snoc, He.
Qed.

Lemma noSeparator_app a b :
  noSeparator (a ++ b) = noSeparator a && noSeparator b.
Proof.
  induction a as [|c r IH]; simpl; [reflexivity|].
  rewrite IH, andb_assoc. reflexivity.
Qed.

Lemma plain_app : plain "app".
Proof. repeat split; discriminate. Qed.

Lemma plain_dep id : noSeparator id = true -> plain ("dep-" ++ id).
Proof.
  intros H. repeat split; try discriminate.
  rewrite noSeparator_app, H. reflexivity.
Qed.

End filepath_facts.

(** ** The file system *)

Module os_facts.
Import os.

Lemma trimEnd_length f s : String.length (trimEnd f s) <= String.length s.
Proof.
  induction s as [|c r IH]; simpl; [lia|].
  destruct (trimEnd f r) as [|d r'] eqn:E.
  - destruct (f c); simpl; lia.
  - simpl in *. lia.
Qed.

Lemma dropLast_length s :
  s <> EmptyString -> Datatypes.S (String.length (dropLast s)) = String.length s.
Proof.
  induction s as [|c r IH]; [congruence|]. intros _.
  destruct r as [|d r']; [reflexivity|].
  change (dropLast (String c (String d r'))) with (String c (dropLast (String d r'))).
  specialize (IH ltac:(discriminate)).
  cbn [String.length] in IH |- *. lia.
Qed.

(** The parent is a shorter path. *)
Lemma Parent_shorter path parent :
  Parent path = Some parent -> String.length parent < String.length path.
Proof.
  unfold Parent.
  set (upto := trimEnd _ (trimEnd _ path)).
  destruct (Nat.ltb 1 (String.length upto)) eqn:E; [|discriminate].
  intros H. injection H as <-. apply Nat.ltb_lt in E.
  assert (Hne : upto <> EmptyString) by (intros H0; rewrite H0 in E; simpl in E; lia).
  pose proof (dropLast_length upto Hne) as Hd.
  pose proof (trimEnd_length (fun c => negb (filepath.IsPathSeparator c))
                (trimEnd filepath.IsPathSeparator path)) as H1.
  pose proof (trimEnd_length filepath.IsPathSeparator path) as H2.
  fold upto in H1. lia.
Qed.

Lemma madeDirs_refl w : madeDirs w w.
Proof. repeat split. auto. Qed.

Lemma madeDirs_trans w1 w2 w3 : madeDirs w1 w2 -> madeDirs w2 w3 -> madeDirs w1 w3.
Proof.
  intros (Hf1 & Hn1 & Ht1 & Ha1 & Hd1) (Hf2 & Hn2 & Ht2 & Ha2 & Hd2).
  repeat split; try congruence. intros p Hp. apply Hd2, Hd1, Hp.
Qed.

Lemma IsDir_made path w : path ∈ dirs w -> IsDir path w = true.
Proof. intros H. unfold IsDir. rewrite (bool_decide_eq_true_2 _ H). reflexivity. Qed.

Lemma Mkdir_effects path w :
  madeDirs w (snd (Mkdir path w))
  /\ (forall u, fst (Mkdir path w) = Ok u -> IsDir path (snd (Mkdir path w)) = true).
Proof.
  unfold Mkdir.
  destruct (exists_ path w || IsDir path w).
  { split; [apply madeDirs_refl|discriminate]. }
  destruct (bool_decide (path ∈ denied w)).
  { split; [apply madeDirs_refl|discriminate]. }
  split.
  - repeat split. intros p Hp. simpl. apply elem_of_union. right. exact Hp.
  - intros _ _. apply IsDir_made. simpl. apply elem_of_union. left.
    apply elem_of_singleton. reflexivity.
Qed.

(** [MkdirAll] only makes directories, and where it succeeds the directory
    is there. *)
Lemma mkdirAll_effects fuel : forall path w,
  madeDirs w (snd (mkdirAll fuel path w))
  /\ (forall u, fst (mkdirAll fuel path w) = Ok u ->
                IsDir path (snd (mkdirAll fuel path w)) = true).
Proof.
  induction fuel as [|fuel IH]; intros path w; cbn [mkdirAll];
    destruct (IsDir path w) eqn:Hd;
    try (split; [apply madeDirs_refl|intros; exact Hd]);
    destruct (exists_ path w);
    try (split; [apply madeDirs_refl|discriminate]).
  unfold bind.
  assert (Hparent : exists r w1,
             (match Parent path with
              | Some parent => mkdirAll fuel parent
              | None => ret tt
              end) w = (r, w1) /\ madeDirs w w1).
  { destruct (Parent path) as [parent|].
    - exists (fst (mkdirAll fuel parent w)), (snd (mkdirAll fuel parent w)).
      split; [destruct (mkdirAll fuel parent w); reflexivity|apply IH].
    - exists (Ok tt), w. split; [reflexivity|apply madeDirs_refl]. }
  destruct Hparent as (r & w1 & -> & H1).
  destruct r as [u|e]; [|split; [exact H1|discriminate]].
  destruct (Mkdir_effects path w1) as [H2 Hok].
  destruct (Mkdir path w1) as [[u'|e] w2]; simpl in H2, Hok |- *.
  - split; [exact (madeDirs_trans _ _ _ H1 H2)|]. intros _ _. exact (Hok u' eq_refl).
  - destruct (IsDir path w2) eqn:Hd2; simpl.
    + split; [exact (madeDirs_trans _ _ _ H1 H2)|]. intros _ _. exact Hd2.
    + split; [exact (madeDirs_trans _ _ _ H1 H2)|discriminate].
Qed.

(** Fuel beyond the length of the path makes no difference. *)
Lemma mkdirAll_fuel fuel1 : forall fuel2 path w,
  String.length path < fuel1 -> String.length path < fuel2 ->
  mkdirAll fuel1 path w = mkdirAll fuel2 path w.
Proof.
  induction fuel1 as [|fuel1 IH]; intros fuel2 path w H1 H2; [lia|].
  destruct fuel2 as [|fuel2]; [lia|].
  cbn [mkdirAll]. destruct (IsDir path w); [reflexivity|].
  destruct (exists_ path w); [reflexivity|].
  unfold bind. destruct (Parent path) as [parent|] eqn:HP; [|reflexivity].
  apply Parent_shorter in HP. rewrite (IH fuel2 parent w) by lia. reflexivity.
Qed.

Lemma MkdirAll_effects path w :
  madeDirs w (snd (MkdirAll path w))
  /\ (forall u, fst (MkdirAll path w) = Ok u ->
                IsDir path (snd (MkdirAll path w)) = true).
Proof. apply mkdirAll_effects. Qed.

(** A directory that is there is left as it is. *)
Lemma MkdirAll_there path w : IsDir path w = true -> MkdirAll path w = (Ok tt, w).
Proof. intros H. unfold MkdirAll. cbn [mkdirAll]. rewrite H. reflexivity. Qed.

Lemma RemoveAll_quiet path w :
  trace (snd (RemoveAll path w)) = trace w
  /\ answers (snd (RemoveAll path w)) = answers w
  /\ denied (snd (RemoveAll path w)) = denied w
  /\ (forall e, fst (RemoveAll path w) = Err e -> snd (RemoveAll path w) = w).
Proof.
  unfold RemoveAll.
  destruct (String.eqb path ""); [repeat split; discriminate|].
  destruct (endsWithDot path); [repeat split|].
  destruct (bool_decide (filepath.Clean path ∈ denied w)); repeat split.
  discriminate.
Qed.

End os_facts.

(** ** [appContext] *)

(** What [appContext] computes for the output and the cache directory. *)
Lemma appContext_cases c f w :
  match contextOf c f with
  | None =>
      appContext c f w
      = (Err (Errorf ("infrastructure not found in appfile: "
                      ++ proj_Infrastructure (file_Project f))), w)
  | Some ctx =>
      appContext c f w
      = match os.MkdirAll (CacheDir ctx) w with
        | (Ok _, w') => (Ok ctx, w')
        | (Err e, w') =>
            (Err (Errorf ("error making cache directory '" ++ CacheDir ctx
                          ++ "': " ++ Error e)), w')
        end
  end.
Proof.
  unfold contextOf, appContext.
  destruct (ActiveInfrastructure f) as [config|]; [|reflexivity].
  unfold bind, wrapErr, ret. cbn [CacheDir].
  destruct (os.MkdirAll _ w) as [[u|e] w'];
    destruct (String.eqb (ID f) (ID (appfile c))); reflexivity.
Qed.

Lemma appContext_ok c f w ctx w' :
  appContext c f w = (Ok ctx, w') ->
  Dir ctx = (if String.eqb (ID f) (ID (appfile c))
             then filepath.Join [compileDir c; "app"]
             else filepath.Join [compileDir c; "dep-" ++ ID f])
  /\ CacheDir ctx = filepath.Join [dataDir c; "cache"; ID f]
  /\ DevDepFragments ctx = []
  /\ ctx_Appfile ctx = f
  /\ files w' = files w /\ trace w' = trace w /\ answers w' = answers w.
Proof.
  intros H. pose proof (appContext_cases c f w) as Hc. unfold contextOf in Hc.
  destruct (ActiveInfrastructure f) as [config|]; [|rewrite Hc in H; discriminate].
  cbn [CacheDir] in Hc. rewrite Hc in H. clear Hc.
  destruct (os_facts.MkdirAll_effects (filepath.Join [dataDir c; "cache"; ID f]) w)
    as [(Hf & _ & Ht & Ha & _) _].
  destruct (os.MkdirAll _ w) as [[u|e] w1]; [|discriminate].
  injection H as <- <-. simpl in *. auto 10.
Qed.

(** C7. An Appfile without an active infrastructure makes [appContext] fail
    with the "infrastructure not found in appfile" error that names
    [file.Project.Infrastructure], and the world (files, directories, trace)
    is left exactly as it was: the error comes before the cache directory
    is made. *)
Theorem appContext_infra_not_configured (c : Core) (f : File) (w : World) :
  ActiveInfrastructure f = None ->
  appContext c f w
  = (Err (Errorf ("infrastructure not found in appfile: "
                  ++ proj_Infrastructure (file_Project f))), w).
Proof.
  intros H. unfold appContext. rewrite H. reflexivity.
Qed.

Lemma appContext_infra_not_configured_witness :
  ActiveInfrastructure Sample.noInfraFile = None
  /\ appContext (Sample.mkCore Sample.rootOk (Sample.graph1 Sample.rootOk))
       Sample.noInfraFile Sample.emptyWorld
     = (Err (Errorf "infrastructure not found in appfile: gce"), Sample.emptyWorld).
Proof.
  split; [reflexivity|].
  apply (appContext_infra_not_configured
           (Sample.mkCore Sample.rootOk (Sample.graph1 Sample.rootOk))
           Sample.noInfraFile Sample.emptyWorld).
  reflexivity.
Defined.

(** With an active infrastructure the cache directory is made, with its
    parents: the check on the active infrastructure is what keeps the disk
    untouched. *)
Example appContext_makes_cache_dir :
  dirs (snd (appContext (Sample.mkCore Sample.rootOk (Sample.graph1 Sample.rootOk))
               (Sample.mkFile "D" "dep" "ok") Sample.emptyWorld))
  = {[ "/data"; "/data/cache"; "/data/cache/D" ]}.
Proof. vm_compute. reflexivity. Qed.

(** C8, as stated, fails: [filepath.Join] cleans its result, so the IDs
    [D] and [D/] (distinct strings) lead to the same output directory. *)
Lemma appContext_Dir_collision :
  let c := Sample.mkCore Sample.rootOk (Sample.graph1 Sample.rootOk) in
  let f1 := Sample.mkFile "D" "one" "ok" in
  let f2 := Sample.mkFile "D/" "two" "ok" in
  ID f1 <> ID f2
  /\ exists ctx1 ctx2 w1 w2,
       appContext c f1 Sample.emptyWorld = (Ok ctx1, w1)
       /\ appContext c f2 Sample.emptyWorld = (Ok ctx2, w2)
       /\ Dir ctx1 = "/tmp/compile/dep-D"
       /\ Dir ctx2 = "/tmp/compile/dep-D".
Proof.
  split; [discriminate|].
  do 4 eexists. repeat split; vm_compute; reflexivity.
Qed.

(** C8, amended. When [appContext] succeeds, [Dir] is
    [Join(compileDir, "app")] for the root's ID and
    [Join(compileDir, "dep-<ID>")] otherwise, and [CacheDir] is
    [Join(dataDir, "cache", ID)]; two Appfiles with distinct IDs that hold no
    path separator get distinct [Dir] values. *)
Theorem appContext_dirs (c : Core) (f1 f2 : File) (w1 w2 w1' w2' : World)
    (ctx1 ctx2 : Context) :
  appContext c f1 w1 = (Ok ctx1, w1') ->
  appContext c f2 w2 = (Ok ctx2, w2') ->
  (Dir ctx1 = (if String.eqb (ID f1) (ID (appfile c))
               then filepath.Join [compileDir c; "app"]
               else filepath.Join [compileDir c; "dep-" ++ ID f1])
   /\ CacheDir ctx1 = filepath.Join [dataDir c; "cache"; ID f1])
  /\ (filepath.noSeparator (ID f1) = true ->
      filepath.noSeparator (ID f2) = true ->
      ID f1 <> ID f2 -> Dir ctx1 <> Dir ctx2).
Proof.
  intros H1 H2.
  apply appContext_ok in H1 as (Hd1 & Hc1 & _).
  apply appContext_ok in H2 as (Hd2 & _).
  split; [split; assumption|].
  intros Hs1 Hs2 Hne Heq.
  assert (Hl : filepath.lastElem (Dir ctx1) = filepath.lastElem (Dir ctx2))
    by (rewrite Heq; reflexivity).
  rewrite Hd1, Hd2 in Hl.
  pose proof filepath_facts.plain_app as Pa.
  pose proof (filepath_facts.plain_dep _ Hs1) as P1.
  pose proof (filepath_facts.plain_dep _ Hs2) as P2.
  destruct (String.eqb_spec (ID f1) (ID (appfile c))) as [E1|E1];
    destruct (String.eqb_spec (ID f2) (ID (appfile c))) as [E2|E2];
    rewrite !filepath_facts.lastElem_Join2 in Hl by assumption.
  - congruence.
  - discriminate Hl.
  - discriminate Hl.
  - apply Hne. injection Hl. auto.
Qed.

Lemma appContext_dirs_witness :
  Dir (Sample.depCtx "D1" "one" "ok") = "/tmp/compile/dep-D1"
  /\ CacheDir (Sample.depCtx "D1" "one" "ok") = "/data/cache/D1"
  /\ Dir (Sample.depCtx "D1" "one" "ok") <> Dir (Sample.depCtx "D2" "two" "ok").
Proof.
  pose (c := Sample.mkCore Sample.rootOk (Sample.graph1 Sample.rootOk)).
  pose (f1 := Sample.mkFile "D1" "one" "ok").
  pose (f2 := Sample.mkFile "D2" "two" "ok").
  assert (H1 : appContext c f1 Sample.emptyWorld
               = (Ok (Sample.depCtx "D1" "one" "ok"),
                  snd (appContext c f1 Sample.emptyWorld)))
    by (vm_compute; reflexivity).
  assert (H2 : appContext c f2 Sample.emptyWorld
               = (Ok (Sample.depCtx "D2" "two" "ok"),
                  snd (appContext c f2 Sample.emptyWorld)))
    by (vm_compute; reflexivity).
  destruct (appContext_dirs c f1 f2 _ _ _ _ _ _ H1 H2) as [[Hd Hc] Hne].
  split; [exact Hd|]. split; [exact Hc|].
  apply Hne; [reflexivity | reflexivity | discriminate].
Defined.

(** ** [Execute] *)

(** Called on its own with a task other than [ExecuteTaskDev], [executeApp]
    does reach its panic once the context and the app are there. *)
Example executeApp_panics_on_infra_task :
  fst (executeApp (Sample.mkCore Sample.rootOk (Sample.graph1 Sample.rootOk))
         {| Task := ExecuteTaskInfra; Action := "info"; Args := [] |}
         Sample.emptyWorld)
  = Panicked ("uknown task: " ++ TaskString ExecuteTaskInfra).
Proof. vm_compute. reflexivity. Qed.

Lemma executeApp_dev_returns c opts w :
  Task opts = ExecuteTaskDev -> exists err, fst (executeApp c opts w) = Returned err.
Proof.
  intros Ht. unfold executeApp.
  destruct (bind _ _ w) as [[[a appCtx]|err] w']; [|eexists; reflexivity].
  rewrite Ht. unfold returned. simpl. eexists; reflexivity.
Qed.

(** C10. [Execute] hands the call to [executeApp] exactly for
    [ExecuteTaskDev] and to [executeInfra] exactly for [ExecuteTaskInfra];
    for every other task it returns the "unknown task" error and leaves the
    world as it was (no factory is started, no plugin is called); and it
    never ends in the panic of [executeApp]. *)
Theorem Execute_dispatch (c : Core) (opts : ExecuteOpts) (w : World) :
  match Task opts with
  | ExecuteTaskDev => Execute c opts w = executeApp c opts w
  | ExecuteTaskInfra => Execute c opts w = returned (executeInfra c opts w)
  | ExecuteTaskOther printed =>
      Execute c opts w
      = (Returned (Some (Errorf ("unknown task: " ++ printed))), w)
  end
  /\ exists err, fst (Execute c opts w) = Returned err.
Proof.
  unfold Execute. destruct (Task opts) eqn:Ht.
  - split; [reflexivity|]. apply executeApp_dev_returns, Ht.
  - split; [reflexivity|]. unfold returned. simpl. eexists; reflexivity.
  - split; [reflexivity|]. simpl. eexists; reflexivity.
Qed.

Example Execute_unknown_task :
  Execute (Sample.mkCore Sample.rootOk (Sample.graph1 Sample.rootOk))
    {| Task := ExecuteTaskOther "migrate"; Action := ""; Args := [] |}
    Sample.emptyWorld
  = (Returned (Some (Errorf "unknown task: migrate")), Sample.emptyWorld).
Proof. reflexivity. Qed.

(** ** [creds] *)

(** A world in which credentials were saved under the password [correct]. *)
Example creds_wrong_password :
  fst (creds (Sample.mkCore Sample.rootOk (Sample.graph1 Sample.rootOk))
         Sample.awsInfra Sample.infraCtx0
         (setAnswers [Ok "wrong"]
            (setFiles {[ "/local/creds" := Envelope "correct" (JSON (Some {[ "AWS_KEY" := "x" ]})) ]}
               Sample.emptyWorld)))
  = Err (Errorf ("error reading encrypted credentials: bad password" ++ "

If this error persists, you can force Otto to ask for credentials
again by inputting the empty password as the password.")).
Proof. vm_compute. reflexivity. Qed.

(** C2, at the failing input. The cached file opens with the password the
    user types and holds the map with [AWS_KEY] set to [x]; [creds] returns without an
    error, and the context it leaves has no credentials. *)
Theorem creds_cached_leaves_InfraCreds_unset :
  let c := Sample.mkCore Sample.rootOk (Sample.graph1 Sample.rootOk) in
  let saved : Creds := {[ "AWS_KEY" := "x" ]} in
  let w := setAnswers [Ok "correct"]
             (setFiles {[ "/local/creds" := Envelope "correct" (JSON (Some saved)) ]}
                Sample.emptyWorld) in
  (fst (bind (cryptRead "/local/creds" "correct")
          (fun plaintext => lift (json.Unmarshal plaintext)) w)
   = Ok (Some saved))
  /\ exists ctx, fst (creds c Sample.awsInfra Sample.infraCtx0 w) = Ok ctx
                 /\ InfraCreds ctx = None.
Proof.
  split; [vm_compute; reflexivity|].
  eexists. split; [vm_compute; reflexivity|]. reflexivity.
Qed.

(** The encryption prompt: [k] empty answers and then the password [pw]. *)
Lemma askPasswordLoop_answers k : forall fuel w pw rest,
  k < fuel -> pw <> "" ->
  answers w = (repeat (Ok "") k ++ Ok pw :: rest)%list ->
  askPasswordLoop fuel w
  = (Ok pw,
     {| files := files w; dirs := dirs w; denied := denied w;
        answers := rest;
        trace := (trace w ++ repeat (EvInput encryptOpts) (Datatypes.S k))%list |}).
Proof.
  induction k as [|k IH]; intros fuel w pw rest Hf Hpw Ha;
    (destruct fuel as [|fuel]; [lia|]).
  - simpl in *. unfold bind, ui.Input. simpl. rewrite Ha.
    apply String.eqb_neq in Hpw. rewrite Hpw. reflexivity.
  - simpl in Ha. simpl askPasswordLoop. unfold bind, ui.Input. simpl. rewrite Ha.
    simpl. rewrite (IH fuel _ pw rest); [| lia | assumption | reflexivity].
    simpl. rewrite <- app_assoc. reflexivity.
Qed.

Lemma askPassword_answers k w pw rest :
  pw <> "" ->
  answers w = (repeat (Ok "") k ++ Ok pw :: rest)%list ->
  askPassword w
  = (Ok pw,
     {| files := files w; dirs := dirs w; denied := denied w;
        answers := rest;
        trace := (trace w ++ repeat (EvInput encryptOpts) (Datatypes.S k))%list |}).
Proof.
  intros Hpw Ha. unfold askPassword. apply askPasswordLoop_answers; [|assumption..].
  rewrite Ha, length_app, repeat_length. simpl. lia.
Qed.

(** More turns than there are answers never change what the loop does. *)
Lemma askPasswordLoop_fuel fuel1 : forall fuel2 w,
  length (answers w) < fuel1 -> length (answers w) < fuel2 ->
  askPasswordLoop fuel1 w = askPasswordLoop fuel2 w.
Proof.
  induction fuel1 as [|fuel1 IH]; intros fuel2 w H1 H2; [lia|].
  destruct fuel2 as [|fuel2]; [lia|].
  simpl. unfold bind, ui.Input. simpl.
  destruct (answers w) as [|[a|e] rest] eqn:Ha; simpl; try reflexivity.
  destruct (String.eqb a ""); [|reflexivity].
  simpl in H1, H2. apply IH; simpl; lia.
Qed.

Lemma askPasswordLoop_enough_fuel fuel w :
  length (answers w) < fuel -> askPasswordLoop fuel w = askPassword w.
Proof.
  intros H. unfold askPassword. apply askPasswordLoop_fuel; lia.
Qed.

(** The early return of the cached branch, in general: whenever the file
    opens with the password typed, [creds] returns the context it was
    given. *)
Lemma creds_cached_returns_context c i infraCtx w pw rest m :
  files w !! filepath.Join [localDir c; "creds"] = Some (Envelope pw (JSON m)) ->
  answers w = Ok pw :: rest -> pw <> "" ->
  fst (creds c i infraCtx w) = Ok infraCtx.
Proof.
  intros Hf Ha Hpw. unfold creds, bind, ui.Header, log, os.Stat, os.exists_.
  simpl. rewrite Hf. simpl.
  unfold credsCached, bind, ui.Message, log, ui.Input, wrapErr, cryptRead, lift, ret.
  simpl. rewrite Ha. simpl.
  apply String.eqb_neq in Hpw. rewrite Hpw. simpl.
  rewrite Hf, String.eqb_refl. reflexivity.
Qed.

Lemma askPasswordLoop_trace fuel : forall w,
  exists new, trace (snd (askPasswordLoop fuel w)) = (trace w ++ new)%list.
Proof.
  induction fuel as [|fuel IH]; intros w; simpl.
  - exists []. rewrite app_nil_r. reflexivity.
  - unfold bind, ui.Input. simpl.
    destruct (answers w) as [|[a|e] rest]; simpl; try (eexists; reflexivity).
    destruct (String.eqb a ""); [|eexists; reflexivity].
    destruct (IH (setAnswers rest (emit (EvInput encryptOpts) w))) as [new Hn].
    rewrite Hn. simpl. rewrite <- app_assoc. eexists; reflexivity.
Qed.

(** The re-acquisition block starts by telling the user and calling
    [infra.Creds]. *)
Lemma credsAcquire_trace path i infraCtx w :
  exists new,
    trace (snd (credsAcquire path i infraCtx w))
    = (trace w ++ [EvMessage credsMissingNotice; EvInfraCreds infraCtx] ++ new)%list.
Proof.
  unfold credsAcquire, bind, ui.Message, callInfraCreds, log, lift. simpl.
  destruct (infra_Creds i infraCtx) as [m|e]; simpl.
  2: { exists []. rewrite <- app_assoc. reflexivity. }
  unfold askPassword.
  match goal with
  | |- context [askPasswordLoop ?n ?w0] =>
      destruct (askPasswordLoop_trace n w0) as [new Hn];
      destruct (askPasswordLoop n w0) as [[pw|e] w1]
  end; simpl in Hn |- *.
  2: { exists new. rewrite Hn, <- !app_assoc. reflexivity. }
  unfold wrapErr, cryptWrite, os.WriteFile, ret.
  repeat match goal with
         | |- context [if bool_decide ?P then _ else _] => destruct (bool_decide P)
         end; simpl; exists new; rewrite Hn, <- !app_assoc; reflexivity.
Qed.

(** C6. The encrypted file exists and the user answers the decryption
    prompt with the empty password: [creds] goes on with the re-acquisition
    block, which tells the user and calls [infra.Creds(infraCtx)]. When
    that gives a map, it asks for the encryption password until an answer is
    not empty ([k] empty answers, then [pw]), writes the envelope of the new
    map under [pw] to [<localDir>/creds], and returns with the map in
    [InfraCreds]. *)
Theorem creds_empty_password_reacquires (c : Core) (i : Infrastructure)
    (infraCtx : InfraContext) (w : World) (tail : list (result string)) :
  let path := filepath.Join [localDir c; "creds"] in
  let asked :=
    setAnswers tail
      (emit (EvInput decryptOpts)
         (emit (EvMessage credsFoundNotice)
            (emit (EvHeader "Detecting infrastructure credentials...") w))) in
  os.exists_ path w = true ->
  answers w = Ok "" :: tail ->
  creds c i infraCtx w
  = (creds <- credsAcquire path i infraCtx ;; ret (setInfraCreds creds infraCtx)) asked
  /\ (exists new,
        trace (snd (creds c i infraCtx w))
        = (trace w
           ++ [EvHeader "Detecting infrastructure credentials...";
               EvMessage credsFoundNotice;
               EvInput decryptOpts;
               EvMessage credsMissingNotice;
               EvInfraCreds infraCtx]
           ++ new)%list)
  /\ (forall m pw k rest,
        tail = (repeat (Ok "") k ++ Ok pw :: rest)%list ->
        pw <> "" ->
        infra_Creds i infraCtx = Ok m ->
        path ∉ dirs w -> path ∉ denied w ->
        creds c i infraCtx w
        = (Ok (setInfraCreds m infraCtx),
           {| files := <[path := Envelope pw (json.Marshal m)]> (files w);
              dirs := dirs w;
              denied := denied w;
              answers := rest;
              trace := (trace w
                        ++ [EvHeader "Detecting infrastructure credentials...";
                            EvMessage credsFoundNotice;
                            EvInput decryptOpts;
                            EvMessage credsMissingNotice;
                            EvInfraCreds infraCtx]
                        ++ repeat (EvInput encryptOpts) (Datatypes.S k))%list |})).
Proof.
  intros path asked Hex Ha.
  assert (Hgo : creds c i infraCtx w
                = (creds <- credsAcquire path i infraCtx ;;
                   ret (setInfraCreds creds infraCtx)) asked).
  { assert (Hex' : os.exists_ path
                       (emit (EvHeader "Detecting infrastructure credentials...") w)
                     = true) by exact Hex.
    unfold creds. fold path.
    unfold bind at 1. unfold ui.Header, log. cbv beta iota.
    unfold bind at 1. unfold os.Stat. rewrite Hex'. cbv beta iota.
    unfold bind at 1. unfold credsCached.
    unfold bind at 1. unfold ui.Message, log. cbv beta iota.
    unfold bind at 1. unfold ui.Input. cbn [answers emit]. rewrite Ha.
    cbv beta iota. cbn [String.eqb negb]. unfold ret at 1. cbv beta iota.
    reflexivity. }
  split; [exact Hgo|]. split.
  - rewrite Hgo. unfold bind, ret.
    destruct (credsAcquire_trace path i infraCtx asked) as [new Hn].
    exists new.
    destruct (credsAcquire path i infraCtx asked) as [[m|e] w1]; simpl in *;
      rewrite Hn; simpl; rewrite <- !app_assoc; reflexivity.
  - intros m pw k rest Htail Hpw Hcreds Hnd Hnden.
    rewrite Hgo. unfold bind at 1.
    unfold credsAcquire, bind, ui.Message, callInfraCreds, log, lift. simpl.
    rewrite Hcreds.
    erewrite (askPassword_answers k _ pw rest); [| assumption | exact Htail].
    unfold wrapErr, cryptWrite, os.WriteFile, ret. simpl.
    rewrite (bool_decide_eq_false_2 _ Hnd), (bool_decide_eq_false_2 _ Hnden).
    unfold setFiles, json.Marshal. simpl.
    rewrite <- !app_assoc. reflexivity.
Qed.

Lemma creds_empty_password_reacquires_witness :
  let c := Sample.mkCore Sample.rootOk (Sample.graph1 Sample.rootOk) in
  let w := setAnswers [Ok ""; Ok ""; Ok "new"]
             (setFiles {[ "/local/creds" := Envelope "correct" (JSON (Some {[ "AWS_KEY" := "x" ]})) ]}
                Sample.emptyWorld) in
  let r := creds c Sample.awsInfra Sample.infraCtx0 w in
  fst r = Ok (setInfraCreds (Some Sample.awsCreds) Sample.infraCtx0)
  /\ files (snd r) !! "/local/creds"
     = Some (Envelope "new" (JSON (Some Sample.awsCreds)))
  /\ answers (snd r) = [].
Proof.
  intros c w r.
  destruct (creds_empty_password_reacquires c Sample.awsInfra Sample.infraCtx0 w
              [Ok ""; Ok "new"] eq_refl eq_refl) as (_ & _ & Hall).
  assert (H : r = _) by
    (apply (Hall (Some Sample.awsCreds) "new" 1 []);
     [ reflexivity
     | discriminate
     | reflexivity
     | vm_compute; intros H; discriminate H
     | vm_compute; intros H; discriminate H ]).
  rewrite H. simpl. repeat split.
Defined.

(** ** The callback of [walk], piece by piece *)

Lemma appContext_world c f w r w' :
  appContext c f w = (r, w') ->
  files w' = files w /\ trace w' = trace w /\ answers w' = answers w
  /\ denied w' = denied w
  /\ (forall ctx, r = Ok ctx -> contextOf c f = Some ctx).
Proof.
  intros H. pose proof (appContext_cases c f w) as Hc.
  destruct (contextOf c f) as [ctx0|];
    [|rewrite Hc in H; injection H as <- <-; repeat split; discriminate].
  rewrite Hc in H. clear Hc.
  destruct (os_facts.MkdirAll_effects (CacheDir ctx0) w) as [(Hf & Hn & Ht & Ha & _) _].
  destruct (os.MkdirAll _ w) as [[u|e] w1]; injection H as <- <-; simpl in *;
    repeat split; try assumption; intros ctx Hctx; congruence.
Qed.

Lemma app_world c ctx w r w' :
  app c ctx w = (r, w') ->
  files w' = files w /\ answers w' = answers w /\ dirs w' = dirs w
  /\ denied w' = denied w
  /\ (trace w' = trace w \/ trace w' = (trace w ++ [EvAppFactory (ctx_Tuple ctx)])%list)
  /\ (forall a, r = Ok a ->
        appOf c ctx = Some a
        /\ trace w' = (trace w ++ [EvAppFactory (ctx_Tuple ctx)])%list).
Proof.
  unfold app, appOf.
  destruct (apps c (ctx_Tuple ctx)) as [[a|e]|];
    unfold bind, log, wrapErr, lift, fail; simpl;
    intros H; inversion H; subst; clear H; simpl;
    repeat split;
    try reflexivity; try (left; reflexivity); try (right; reflexivity);
    try congruence.
Qed.

(** The callback either fails before the user callback is reached (and
    then changes no file), or hands the user callback the context and the
    app of the vertex. *)
Lemma walkBody_cases {S} c (f : App -> Context -> bool -> S -> M S) root v x s w :
  (exists e w1,
      walkBody c f root v x s w = (Err e, w1)
      /\ files w1 = files w /\ answers w1 = answers w
      /\ (trace w1 = trace w
          \/ exists t, trace w1 = (trace w ++ [EvAppFactory t])%list))
  \/ (exists ctx a w1,
        contextOf c (vertex_File x) = Some ctx
        /\ appOf c ctx = Some a
        /\ files w1 = files w /\ answers w1 = answers w
        /\ denied w1 = denied w
        /\ trace w1 = (trace w ++ [EvAppFactory (ctx_Tuple ctx)])%list
        /\ walkBody c f root v x s w = f a ctx (Nat.eqb v root) s w1).
Proof.
  unfold walkBody, bind, wrapErr.
  destruct (appContext c (vertex_File x) w) as [[ctx|e] w1] eqn:Hc.
  - apply appContext_world in Hc as (Hf1 & Ht1 & Ha1 & Hd1 & Hctx).
    destruct (app c ctx w1) as [[a|e] w2] eqn:Ha.
    + apply app_world in Ha as (Hf2 & Ha2 & _ & Hd2 & _ & Hok).
      destruct (Hok a eq_refl) as [Happ Ht2].
      right. exists ctx, a, w2. repeat split; try congruence.
      apply Hctx. reflexivity.
    + apply app_world in Ha as (Hf2 & Ha2 & _ & _ & Ht2 & _).
      left. do 2 eexists. split; [reflexivity|].
      repeat split; try congruence.
      destruct Ht2 as [Ht2|Ht2]; [left; congruence|right].
      eexists. rewrite Ht2, Ht1. reflexivity.
  - apply appContext_world in Hc as (Hf1 & Ht1 & Ha1 & _).
    left. do 2 eexists. split; [reflexivity|]. auto.
Qed.

(** ** The walker *)

Module walker_facts.
Import walker.

Section Facts.

Context {St Local : Type}.
Variable g : dag.Graph.
Variable cbStart : nat -> CompiledGraphVertex -> St -> Local.
Variable cbRun : nat -> CompiledGraphVertex -> Local -> St -> option error * St.

Local Abbreviation State := (@State St Local).
Local Abbreviation step := (step g cbStart cbRun).
Local Abbreviation run := (run g cbStart cbRun).
Local Abbreviation depsSucceeded := (@depsSucceeded St Local g).
Local Abbreviation depsFinished := (@depsFinished St Local g).

Lemma run_app (st : State) a b : run st (a ++ b)%list = run (run st a) b.
Proof. unfold walker.run. apply fold_left_app. Qed.

Lemma run_cons (st : State) a rest : run st (a :: rest) = run (step st a) rest.
Proof. reflexivity. Qed.

(** What holds at the start and is kept by every step holds at the end. *)
Lemma run_invariant (P : State -> Prop) :
  (forall st a, P st -> P (step st a)) ->
  forall sched st, P st -> P (run st sched).
Proof.
  intros Hstep sched. induction sched as [|a rest IH]; intros st H; [exact H|].
  rewrite run_cons. apply IH, Hstep, H.
Qed.

(** A step is either a step of the bookkeeping alone, which leaves the
    shared variables and the errors alone, or the run of a callback that had
    started. *)
Lemma step_cases (st : State) a :
  (shared (step st a) = shared st /\ errs (step st a) = errs st
   /\ (forall v, status (step st a) !! v = status st !! v
                 \/ (a = Start v /\ status st !! v = Some Waiting
                     /\ (status (step st a) !! v = Some Skipped
                         \/ exists x,
                             dag.Vertices g !! v = Some x
                             /\ depsSucceeded st v = true
                             /\ status (step st a) !! v
                                = Some (Running (cbStart v x (shared st)))))))
  \/ (exists v x l,
        a = Run v /\ dag.Vertices g !! v = Some x
        /\ status st !! v = Some (Running l)
        /\ shared (step st a) = snd (cbRun v x l (shared st))
        /\ status (step st a) = <[v := Done (fst (cbRun v x l (shared st)))]> (status st)
        /\ errs (step st a)
           = match fst (cbRun v x l (shared st)) with
             | Some e => (errs st ++ [e])%list
             | None => errs st
             end).
Proof.
  destruct a as [v|v]; simpl.
  - left.
    destruct (dag.Vertices g !! v) as [x|] eqn:Hx; [|auto].
    destruct (status st !! v) as [[| | |]|] eqn:Hs; auto.
    destruct (depsFinished st v); [|auto].
    destruct (depsSucceeded st v) eqn:Hd; simpl; repeat split; intros u;
      (destruct (decide (v = u)) as [<-|Hne];
       [ right; repeat split; auto;
         rewrite list_lookup_insert_eq by (eapply lookup_lt_Some; eauto); eauto
       | left; apply list_lookup_insert_ne; assumption ]).
  - destruct (dag.Vertices g !! v) as [x|] eqn:Hx; [|auto].
    destruct (status st !! v) as [[|l| |]|] eqn:Hs; auto.
    right. exists v, x, l.
    destruct (cbRun v x l (shared st)) as [err sh]. simpl. auto 10.
Qed.


(** A property of the shared variables that every callback keeps is kept
    by the whole walk. *)
Lemma run_shared_invariant (Q : St -> Prop) :
  (forall v x l sh, Q sh -> Q (snd (cbRun v x l sh))) ->
  forall sched (st : State), Q (shared st) -> Q (shared (run st sched)).
Proof.
  intros Hcb. apply (run_invariant (fun st => Q (shared st))).
  intros st a H.
  destruct (step_cases st a) as [(Hs & _)|(v & x & l & _ & _ & _ & Hs & _)];
    rewrite Hs; auto.
Qed.

Lemma step_length (st : State) a :
  length (status (step st a)) = length (status st).
Proof.
  destruct (step_cases st a) as [(_ & _ & Hs)|(v & x & l & _ & _ & _ & _ & Hs & _)].
  - destruct a as [v|v]; simpl.
    + destruct (dag.Vertices g !! v) as [x|]; [|reflexivity].
      destruct (status st !! v) as [[| | |]|]; try reflexivity.
      destruct (depsFinished st v); [|reflexivity].
      destruct (depsSucceeded st v); simpl; apply length_insert.
    + destruct (dag.Vertices g !! v) as [x|]; [|reflexivity].
      destruct (status st !! v) as [[|l| |]|]; try reflexivity.
      destruct (cbRun v x l (shared st)). simpl. apply length_insert.
  - rewrite Hs. apply length_insert.
Qed.

Lemma run_length sched : forall st : State,
  length (status (run st sched)) = length (status st).
Proof.
  induction sched as [|a rest IH]; intros st; [reflexivity|].
  rewrite run_cons, IH. apply step_length.
Qed.

(** A vertex that has finished stays finished. *)
Lemma step_finished (st : State) a v :
  finished (statusOf st v) = true -> finished (statusOf (step st a) v) = true.
Proof.
  unfold statusOf. intros Hf.
  destruct a as [u|u]; simpl.
  - destruct (dag.Vertices g !! u) as [x|]; [|exact Hf].
    destruct (status st !! u) as [[| | |]|] eqn:Hu; try exact Hf.
    assert (Hne : u <> v) by (intros ->; rewrite Hu in Hf; discriminate).
    destruct (depsFinished st u); [|exact Hf].
    destruct (depsSucceeded st u); simpl;
      rewrite list_lookup_insert_ne by exact Hne; exact Hf.
  - destruct (dag.Vertices g !! u) as [x|]; [|exact Hf].
    destruct (status st !! u) as [[|l| |]|] eqn:Hu; try exact Hf.
    assert (Hne : u <> v) by (intros ->; rewrite Hu in Hf; discriminate).
    destruct (cbRun u x l (shared st)). simpl.
    rewrite list_lookup_insert_ne by exact Hne. exact Hf.
Qed.

Lemma run_finished sched v : forall st : State,
  finished (statusOf st v) = true -> finished (statusOf (run st sched) v) = true.
Proof.
  induction sched as [|a rest IH]; intros st Hf; [exact Hf|].
  rewrite run_cons. apply IH, step_finished, Hf.
Qed.

Lemma step_Run_finishes (st : State) v x l :
  dag.Vertices g !! v = Some x ->
  status st !! v = Some (Running l) ->
  finished (statusOf (step st (Run v)) v) = true.
Proof.
  intros Hx Hs. cbn [walker.step]. rewrite Hx, Hs.
  destruct (cbRun v x l (shared st)). unfold statusOf. cbn [status].
  rewrite list_lookup_insert_eq by (eapply lookup_lt_Some; eauto). reflexivity.
Qed.

Lemma step_Start_waiting (st : State) v x :
  dag.Vertices g !! v = Some x ->
  status st !! v = Some Waiting ->
  depsFinished st v = true ->
  status (step st (Start v)) !! v = Some Skipped
  \/ exists l, status (step st (Start v)) !! v = Some (Running l).
Proof.
  intros Hx Hs Hd. cbn [walker.step]. rewrite Hx, Hs, Hd.
  assert (Hlt : v < length (status st)) by (eapply lookup_lt_Some; eauto).
  destruct (depsSucceeded st v); cbn [status setStatus];
    rewrite list_lookup_insert_eq by exact Hlt; eauto.
Qed.

(** A vertex whose dependencies have finished is finished once its three
    steps of a pass are over. *)
Lemma triple_finishes (st : State) v :
  length (status st) = length (dag.Vertices g) ->
  v < length (dag.Vertices g) ->
  depsFinished st v = true ->
  finished (statusOf (run st [Run v; Start v; Run v]) v) = true.
Proof.
  intros Hlen Hv Hd.
  destruct (lookup_lt_is_Some_2 (dag.Vertices g) v Hv) as [x Hx].
  destruct (lookup_lt_is_Some_2 (status st) v ltac:(lia)) as [s Hs].
  destruct s as [|l| |].
  - (* waiting: it starts now *)
    assert (H1 : step st (Run v) = st) by (cbn [walker.step]; rewrite Hx, Hs; reflexivity).
    rewrite run_cons, H1, run_cons.
    destruct (step_Start_waiting st v x Hx Hs Hd) as [H2|[l H2]].
    + apply run_finished. unfold statusOf. rewrite H2. reflexivity.
    + rewrite run_cons. apply (step_Run_finishes _ v x l Hx H2).
  - (* running: it ends now *)
    rewrite run_cons. apply run_finished, (step_Run_finishes st v x l Hx Hs).
  - apply run_finished. unfold statusOf. rewrite Hs. reflexivity.
  - apply run_finished. unfold statusOf. rewrite Hs. reflexivity.
Qed.

Section Finishes.

(** The graph has no cycle: a rank goes down along every edge. *)
Variable rank : nat -> nat.
Hypothesis rank_edge : forall a b, In (a, b) (dag.Edges g) -> rank b < rank a.

Lemma pass_finishes (st : State) k :
  length (status st) = length (dag.Vertices g) ->
  (forall u, rank u < k -> finished (statusOf st u) = true) ->
  forall u, rank u < Datatypes.S k -> finished (statusOf (run st (pass g)) u) = true.
Proof.
  intros Hlen Hk u Hu.
  destruct (Nat.lt_ge_cases u (length (dag.Vertices g))) as [Hlt|Hge].
  2: { unfold statusOf. rewrite lookup_ge_None_2; [reflexivity|].
       rewrite run_length. lia. }
  assert (Hin : In u (seq 0 (length (dag.Vertices g)))) by (apply in_seq; lia).
  apply in_split in Hin as (l1 & l2 & Hsplit).
  unfold pass. rewrite Hsplit, flat_map_app. simpl.
  rewrite run_app.
  change (Run u :: Start u :: Run u :: flat_map (fun v => [Run v; Start v; Run v]) l2)
    with ([Run u; Start u; Run u] ++ flat_map (fun v => [Run v; Start v; Run v]) l2)%list.
  rewrite run_app. apply run_finished, triple_finishes.
  - rewrite run_length. exact Hlen.
  - exact Hlt.
  - unfold walker.depsFinished. apply forallb_forall. intros d Hd.
    apply run_finished, Hk.
    assert (He : In (u, d) (dag.Edges g)).
    { unfold dag.DownEdges in Hd. apply in_map_iff in Hd as ([a b] & Hb & Hab).
      apply filter_In in Hab as [Hab Ha]. simpl in *.
      apply Nat.eqb_eq in Ha. subst. exact Hab. }
    specialize (rank_edge _ _ He). lia.
Qed.

Lemma passes_finish (l : list CompiledGraphVertex) : forall (st : State) k,
  length (status st) = length (dag.Vertices g) ->
  (forall u, rank u < k -> finished (statusOf st u) = true) ->
  forall u, rank u < k + length l ->
    finished (statusOf (run st (List.concat (List.map (fun _ => pass g) l))) u) = true.
Proof.
  induction l as [|x l IH]; intros st k Hlen Hk u Hu.
  - simpl in *. apply Hk. lia.
  - simpl. rewrite run_app. apply (IH _ (Datatypes.S k)).
    + rewrite run_length. exact Hlen.
    + apply pass_finishes; assumption.
    + simpl in Hu. lia.
Qed.

(** [Walk] returns with every vertex finished: the callbacks still pending
    after the schedule all get their turn. *)
Lemma Walk_finishes sched sh :
  (forall v, v < length (dag.Vertices g) -> rank v < length (dag.Vertices g)) ->
  forall v, finished (statusOf (Walk g cbStart cbRun sched sh) v) = true.
Proof.
  intros Hrank v. unfold Walk. rewrite run_app.
  destruct (Nat.lt_ge_cases v (length (dag.Vertices g))) as [Hlt|Hge].
  - unfold drain. apply (passes_finish _ _ 0).
    + rewrite run_length. unfold init. simpl. apply length_map.
    + intros u Hu. lia.
    + simpl. apply Hrank, Hlt.
  - unfold statusOf. rewrite lookup_ge_None_2; [reflexivity|].
    rewrite !run_length. unfold init. simpl. rewrite length_map. lia.
Qed.

End Finishes.

End Facts.

End walker_facts.

(** ** The callback of [Dev] *)

Lemma ReadDevDep_cached path w d :
  files w !! path = Some (DevDepJSON d) -> ReadDevDep path w = (Ok d, w).
Proof. intros H. unfold ReadDevDep. rewrite H. reflexivity. Qed.

Lemma ReadDevDep_not_cached path w :
  ~ cached path w -> exists e, ReadDevDep path w = (Err e, w).
Proof.
  intros H. unfold ReadDevDep.
  destruct (files w !! path) as [[b|pw b|d]|] eqn:E; eauto.
  exfalso. apply H. exists d. exact E.
Qed.

Lemma devCallback_hit rootCtx a ctx w d :
  files w !! devDepPath ctx = Some (DevDepJSON d) ->
  devCallback rootCtx a ctx false tt w
  = (Ok tt,
     emit (EvHeader ("Using cached dev dependency for '"
                     ++ app_Name (file_Application (ctx_Appfile ctx)) ++ "'")) w).
Proof.
  intros H. unfold devCallback. fold (devDepPath ctx).
  rewrite (ReadDevDep_cached _ _ _ H). reflexivity.
Qed.

(** What the callback may add to the trace and do to the cache, whatever
    the vertex: it never calls [Dev], it calls [DevDep] only where no
    descriptor is cached, and a cached descriptor stays cached. *)
Lemma devCallback_effect rootCtx a ctx root w :
  exists new,
    trace (snd (devCallback rootCtx a ctx root tt w)) = (trace w ++ new)%list
    /\ Forall (fun e => isAppDev e = false
                        /\ forall p, isDevDepAt p e = true -> ~ cached p w) new
    /\ (forall p, cached p w -> cached p (snd (devCallback rootCtx a ctx root tt w))).
Proof.
  unfold devCallback. fold (devDepPath ctx).
  destruct root.
  { exists []. simpl. rewrite app_nil_r. auto. }
  destruct (files w !! devDepPath ctx) as [fd|] eqn:E.
  2: shelve.
  destruct fd as [b|pw b|d].
  3: { rewrite (ReadDevDep_cached _ _ _ E). eexists [_]. simpl.
       split; [reflexivity|]. split; [|auto].
       constructor; [|constructor]. split; [reflexivity|]. discriminate. }
  all: shelve.
  Unshelve.
  all: assert (Hn : ~ cached (devDepPath ctx) w)
         by (intros [d Hd]; congruence);
       destruct (ReadDevDep_not_cached _ _ Hn) as [e He]; rewrite He; clear He e;
       assert (Hev : isAppDev (EvAppDevDep rootCtx ctx) = false
                     /\ forall p, isDevDepAt p (EvAppDevDep rootCtx ctx) = true
                                  -> ~ cached p w)
         by (split; [reflexivity|]; simpl; intros p Hp;
             apply String.eqb_eq in Hp; subst p; exact Hn);
       unfold bind, wrapErr, callAppDevDep, log, lift, RelFiles, WriteDevDep,
         os.WriteFile, ret; simpl;
       destruct (app_DevDep a rootCtx ctx) as [dep|e1]; simpl;
       [ destruct (Nat.ltb 0 (length (Files dep))); simpl;
         [ destruct (relFiles (CacheDir ctx) (Files dep)) as [fs|e2]; simpl;
           [ unfold bind, log, wrapErr; simpl;
             repeat match goal with
                    | |- context [if bool_decide ?P then _ else _] =>
                        destruct (bool_decide P)
                    end; simpl | ] | ] | ];
       eexists; (split; [rewrite <- ?app_assoc; reflexivity|]);
       (split;
        [ simpl;
          repeat (match goal with |- Forall _ (_ :: _) => constructor end;
                  [ first [ exact Hev
                          | split; [reflexivity | intros ? ?; discriminate] ] | ]);
          constructor | ]);
       try (intros p Hp; exact Hp).
  all: intros p [d Hd]; unfold cached; simpl;
       destruct (decide (devDepPath ctx = p)) as [<-|Hne];
       [ rewrite lookup_insert_eq; eauto
       | rewrite lookup_insert_ne by assumption; eauto ].
Qed.

Lemma cached_files p w w' : files w' = files w -> cached p w <-> cached p w'.
Proof. intros H. unfold cached. rewrite H. reflexivity. Qed.

Lemma walkRun_dev_effect c rootCtx root v x stopped (vars : WalkVars unit) :
  exists new,
    trace (world (snd (walkRun c (devCallback rootCtx) root v x stopped vars)))
    = (trace (world vars) ++ new)%list
    /\ Forall (fun e => isAppDev e = false
                        /\ forall p, isDevDepAt p e = true -> ~ cached p (world vars)) new
    /\ (forall p, cached p (world vars) ->
          cached p (world (snd (walkRun c (devCallback rootCtx) root v x stopped vars)))).
Proof.
  unfold walkRun. destruct stopped.
  { exists []. simpl. rewrite app_nil_r. auto. }
  destruct (walkBody_cases c (devCallback rootCtx) root v x (captured vars) (world vars))
    as [(e & w1 & Hb & Hf & _ & Ht)|(ctx & a & w1 & _ & _ & Hf & _ & _ & Ht & Hb)].
  - rewrite Hb. simpl. destruct Ht as [Ht|[t Ht]]; rewrite Ht.
    + exists []. rewrite app_nil_r. repeat split; [constructor|].
      intros p Hp. apply (cached_files p _ _ Hf), Hp.
    + exists [EvAppFactory t]. repeat split.
      * repeat constructor. intros ? ?; discriminate.
      * intros p Hp. apply (cached_files p _ _ Hf), Hp.
  - rewrite Hb. destruct (captured vars).
    destruct (devCallback_effect rootCtx a ctx (Nat.eqb v root) w1)
      as (new & Hn & Hall & Hc).
    exists (EvAppFactory (ctx_Tuple ctx) :: new).
    assert (Hw : world (snd (match devCallback rootCtx a ctx (Nat.eqb v root) tt w1 with
                             | (Ok s, w) =>
                                 (None, {| stop := stop vars; captured := s; world := w |})
                             | (Err e, w) =>
                                 (Some e, {| stop := 1%Z; captured := tt; world := w |})
                             end))
                 = snd (devCallback rootCtx a ctx (Nat.eqb v root) tt w1)).
    { destruct (devCallback rootCtx a ctx (Nat.eqb v root) tt w1) as [[s|e] w2];
        reflexivity. }
    rewrite Hw, Hn, Ht, <- app_assoc. split; [reflexivity|]. split.
    + constructor; [split; [reflexivity|intros ? ?; discriminate]|].
      eapply Forall_impl; [exact Hall|]. intros e [H1 H2]. split; [exact H1|].
      intros p Hp Hc'. apply (H2 p Hp). apply (cached_files p _ _ Hf), Hc'.
    + intros p Hp. apply Hc. apply (cached_files p _ _ Hf), Hp.
Qed.

Lemma devWalked_refl p w : devWalked p w w.
Proof.
  exists []. rewrite app_nil_r. repeat split; auto.
Qed.

Lemma walkRun_dev_devWalked c rootCtx root p w0 v x stopped (vars : WalkVars unit) :
  devWalked p w0 (world vars) ->
  devWalked p w0 (world (snd (walkRun c (devCallback rootCtx) root v x stopped vars))).
Proof.
  intros (old & Ht & Hnd & Hc).
  destruct (walkRun_dev_effect c rootCtx root v x stopped vars)
    as (new & Hn & Hall & Hk).
  exists (old ++ new)%list. rewrite Hn, Ht, <- app_assoc.
  split; [reflexivity|]. split.
  - apply Forall_app. split; [exact Hnd|].
    eapply Forall_impl; [exact Hall|]. intros e [H _]. exact H.
  - intros H0. destruct (Hc H0) as [Hcur Hno]. split; [apply Hk, Hcur|].
    apply Forall_app. split; [exact Hno|].
    eapply Forall_impl; [exact Hall|]. intros e [_ H].
    destruct (isDevDepAt p e) eqn:E; [|reflexivity].
    exfalso. exact (H p E Hcur).
Qed.

(** The whole walk of [Dev]. *)
Lemma walk_dev_devWalked c rootCtx sched w p :
  devWalked p w (snd (walk c (devCallback rootCtx) sched tt w)).
Proof.
  unfold walk. destruct (dag.Root (Graph (appfileCompiled c))) as [root|e].
  - simpl. unfold walkFrom, walker.Walk.
    apply (walker_facts.run_shared_invariant _ _ _
             (fun vars => devWalked p w (world vars))).
    + intros v x l sh H. apply walkRun_dev_devWalked, H.
    + simpl. apply devWalked_refl.
  - simpl. apply devWalked_refl.
Qed.

Lemma walkRun_body {S} c (f : App -> Context -> bool -> S -> M S) root v x
    (vars : WalkVars S) ctx a w1 w2 :
  appContext c (vertex_File x) (world vars) = (Ok ctx, w1) ->
  app c ctx w1 = (Ok a, w2) ->
  walkRun c f root v x false vars
  = match f a ctx (Nat.eqb v root) (captured vars) w2 with
    | (Ok s, w) => (None, {| stop := stop vars; captured := s; world := w |})
    | (Err e, w) => (Some e, {| stop := 1%Z; captured := captured vars; world := w |})
    end.
Proof.
  intros Hc Ha. unfold walkRun, walkBody, bind, wrapErr. rewrite Hc, Ha. reflexivity.
Qed.

Lemma Dev_no_DevDep_for_cached c sched w p :
  cached p w ->
  exists new,
    trace (snd (Dev c sched w)) = (trace w ++ new)%list
    /\ Forall (fun e => isDevDepAt p e = false) new.
Proof.
  intros Hp. unfold Dev, bind, lift, wrapErr.
  destruct (dag.Root (Graph (appfileCompiled c))) as [root|e] eqn:Hr.
  2: { exists []. simpl. rewrite app_nil_r. auto. }
  destruct (appContext c (vertex_File (snd root)) w) as [[rootCtx|e] w1] eqn:Hc;
    apply appContext_world in Hc as (Hf1 & Ht1 & _).
  2: { exists []. simpl. rewrite app_nil_r, Ht1. auto. }
  destruct (app c rootCtx w1) as [[rootApp|e] w2] eqn:Ha;
    apply app_world in Ha as (Hf2 & _ & _ & _ & Ht2 & _).
  2: { simpl. destruct Ht2 as [Ht2|Ht2]; rewrite Ht2, Ht1.
       - exists []. rewrite app_nil_r. auto.
       - eexists. split; [reflexivity|]. repeat constructor. }
  assert (Hp2 : cached p w2).
  { apply (cached_files p w1 w2 Hf2), (cached_files p w w1 Hf1), Hp. }
  pose proof (walk_dev_devWalked c rootCtx sched w2 p) as (new & Hn & _ & Hk).
  destruct (Hk Hp2) as [_ Hno].
  destruct (walk c (devCallback rootCtx) sched tt w2) as [[err u] w3].
  simpl in Hn.
  assert (Hpre : exists pre, trace w2 = (trace w ++ pre)%list
                             /\ Forall (fun e => isDevDepAt p e = false) pre).
  { destruct Ht2 as [Ht2|Ht2]; rewrite Ht2, Ht1.
    - exists []. rewrite app_nil_r. auto.
    - eexists. split; [reflexivity|]. repeat constructor. }
  destruct Hpre as (pre & Hpre & Hpno).
  destruct err as [e|]; simpl.
  - exists (pre ++ new)%list. rewrite Hn, Hpre, <- app_assoc.
    split; [reflexivity|]. apply Forall_app. auto.
  - unfold callAppDev, bind, log, liftErr. simpl.
    exists (pre ++ new ++ [EvAppDev rootCtx])%list.
    split.
    + etransitivity; [|rewrite app_assoc, <- Hpre, app_assoc, <- Hn; reflexivity].
      destruct (app_Dev rootApp rootCtx); reflexivity.
    + repeat (apply Forall_app; split); auto.
Qed.

Lemma Dev_calls_Dev_once c sched w root rootCtx rootApp w1 w2 w3 :
  dag.Root (Graph (appfileCompiled c)) = Ok root ->
  appContext c (vertex_File (snd root)) w = (Ok rootCtx, w1) ->
  app c rootCtx w1 = (Ok rootApp, w2) ->
  walk c (devCallback rootCtx) sched tt w2 = (None, tt, w3) ->
  Dev c sched w
  = (match app_Dev rootApp rootCtx with Some e => Err e | None => Ok tt end,
     emit (EvAppDev rootCtx) w3)
  /\ exists new,
       trace (snd (Dev c sched w)) = (trace w ++ new ++ [EvAppDev rootCtx])%list
       /\ List.filter isAppDev new = [].
Proof.
  intros Hr Hc Ha Hw.
  assert (HD : Dev c sched w
               = (match app_Dev rootApp rootCtx with Some e => Err e | None => Ok tt end,
                  emit (EvAppDev rootCtx) w3)).
  { unfold Dev, bind, lift, wrapErr. rewrite Hr, Hc, Ha, Hw.
    unfold callAppDev, bind, log, liftErr. simpl.
    destruct (app_Dev rootApp rootCtx); reflexivity. }
  split; [exact HD|]. rewrite HD. simpl.
  apply appContext_world in Hc as (_ & Ht1 & _).
  apply app_world in Ha as (_ & _ & _ & _ & _ & Hok).
  destruct (Hok rootApp eq_refl) as [_ Ht2].
  pose proof (walk_dev_devWalked c rootCtx sched w2 "") as (new & Hn & Hnd & _).
  rewrite Hw in Hn. simpl in Hn.
  exists (EvAppFactory (ctx_Tuple rootCtx) :: new).
  split.
  - rewrite Hn, Ht2, Ht1, <- !app_assoc. reflexivity.
  - simpl. clear Hn. induction Hnd as [|e l He _ IH]; [reflexivity|].
    simpl. rewrite He. exact IH.
Qed.

(** The scenario in full: the first dependency is read from the cache, the
    second has its [DevDep] called, and the root's [Dev] runs last. *)
Example Dev_cache_hit_trace :
  let c := Sample.mkCore Sample.rootOk
             (Sample.graph3 Sample.rootOk (Sample.mkFile "D1" "one" "files")
                (Sample.mkFile "D2" "two" "ok")) in
  let w := setFiles {[ "/data/cache/D1/dev-dep.json" := DevDepJSON {| Files := ["box.tar"] |} ]}
             Sample.emptyWorld in
  fst (Dev c [] w) = Ok tt
  /\ trace (snd (Dev c [] w))
     = [ EvAppFactory (ctx_Tuple (Sample.rootCtx "ok"));
         EvAppFactory (ctx_Tuple (Sample.depCtx "D1" "one" "files"));
         EvHeader "Using cached dev dependency for 'one'";
         EvAppFactory (ctx_Tuple (Sample.depCtx "D2" "two" "ok"));
         EvAppDevDep (Sample.rootCtx "ok") (Sample.depCtx "D2" "two" "ok");
         EvAppFactory (ctx_Tuple (Sample.rootCtx "ok"));
         EvAppDev (Sample.rootCtx "ok") ].
Proof. split; vm_compute; reflexivity. Qed.

Lemma devCallback_keeps_missing rootCtx a ctx root w p :
  ~ cached p w ->
  (devDepPath ctx = p ->
   forall dep, app_DevDep a rootCtx ctx = Ok dep -> Files dep = []) ->
  ~ cached p (snd (devCallback rootCtx a ctx root tt w)).
Proof.
  intros Hn Hempty. unfold devCallback. fold (devDepPath ctx).
  destruct root; [exact Hn|].
  assert (Hread : snd (ReadDevDep (devDepPath ctx) w) = w).
  { unfold ReadDevDep. destruct (files w !! devDepPath ctx) as [[| |]|]; reflexivity. }
  destruct (ReadDevDep (devDepPath ctx) w) as [[d|e] w'] eqn:Hr;
    simpl in Hread; subst w'; [exact Hn|].
  unfold bind at 1. unfold wrapErr at 1. unfold callAppDevDep, bind at 1, log, lift.
  cbv beta iota.
  destruct (app_DevDep a rootCtx ctx) as [dep|e1] eqn:Hd; [|exact Hn].
  cbv beta iota.
  destruct (Nat.ltb 0 (length (Files dep))) eqn:Hlen; [|exact Hn].
  assert (Hne : devDepPath ctx <> p).
  { intros Hp. rewrite (Hempty Hp dep eq_refl) in Hlen. discriminate. }
  unfold bind, wrapErr, RelFiles, WriteDevDep, os.WriteFile, bind, log, lift, ret.
  simpl.
  destruct (relFiles (CacheDir ctx) (Files dep)) as [fs|e2]; simpl; [|exact Hn].
  repeat match goal with
         | |- context [if bool_decide ?P then _ else _] => destruct (bool_decide P)
         end; simpl; try exact Hn.
  intros [d' Hd']. simpl in Hd'. rewrite lookup_insert_ne in Hd' by exact Hne.
  apply Hn. exists d'. exact Hd'.
Qed.

Lemma walkRun_dev_keeps_missing c rootCtx root p v x l (vars : WalkVars unit) :
  noFilesAt c p ->
  dag.Vertices (Graph (appfileCompiled c)) !! v = Some x ->
  ~ cached p (world vars) ->
  ~ cached p (world (snd (walkRun c (devCallback rootCtx) root v x l vars))).
Proof.
  intros Hno Hx Hn. unfold walkRun. destruct l; [exact Hn|].
  destruct (walkBody_cases c (devCallback rootCtx) root v x (captured vars) (world vars))
    as [(e & w1 & Hb & Hf & _)|(ctx & a & w1 & Hctx & Happ & Hf & _ & _ & _ & Hb)];
    rewrite Hb.
  - simpl. intros Hk. apply Hn. apply (cached_files p _ _ Hf), Hk.
  - destruct (captured vars).
    assert (Hk : ~ cached p (snd (devCallback rootCtx a ctx (Nat.eqb v root) tt w1))).
    { apply devCallback_keeps_missing.
      - intros Hk. apply Hn. apply (cached_files p _ _ Hf), Hk.
      - intros Hp dep Hdep. exact (Hno rootCtx v x ctx a dep Hx Hctx Hp Happ Hdep). }
    destruct (devCallback rootCtx a ctx (Nat.eqb v root) tt w1) as [[u|e] w2]; exact Hk.
Qed.



(** Two runs of [Dev] in a row: the dependency without files has its
    [DevDep] called in both, and its descriptor is still missing. *)
Example Dev_twice :
  let c := Sample.mkCore Sample.rootOk
             {| dag.Vertices := [Sample.vertex Sample.rootOk;
                                 Sample.vertex (Sample.mkFile "D" "dep" "ok")];
                dag.Edges := [(0, 1)] |} in
  let w := devRuns c [[]; []] Sample.emptyWorld in
  List.filter (isDevDepAt "/data/cache/D/dev-dep.json") (trace w)
  = [ EvAppDevDep (Sample.rootCtx "ok") (Sample.depCtx "D" "dep" "ok");
      EvAppDevDep (Sample.rootCtx "ok") (Sample.depCtx "D" "dep" "ok") ]
  /\ files w !! "/data/cache/D/dev-dep.json" = None.
Proof. split; vm_compute; reflexivity. Qed.

(** ** [Compile] *)

(** C1, at the failing input: a root with two independent dependencies, the
    first of which fails to compile. The walk returns that error; [Compile]
    returns nil. *)
Theorem Compile_drops_walk_error :
  let c := Sample.mkCore Sample.rootOk
             (Sample.graph3 Sample.rootOk (Sample.mkFile "D1" "one" "bad")
                (Sample.mkFile "D2" "two" "ok")) in
  let before :=
    (ic <- infra c ;;
     os.RemoveAll (compileDir c) ;;;
     callInfraCompile (fst ic) (snd ic)) Sample.emptyWorld in
  resultError (fst before) = None
  /\ fst (fst (walk c (compileCallback c) [] [] (snd before)))
     = Some (multiError ["compile failed: one"])
  /\ fst (Compile c [] Sample.emptyWorld) = Ok tt.
Proof. repeat split; vm_compute; reflexivity. Qed.

(** The same in general: once the walk is reached, nothing of its result
    is looked at. *)
Lemma Compile_returns_nil_after_walk c sched w ic w1 w2 r w3 :
  infra c w = (Ok ic, w1) ->
  os.RemoveAll (compileDir c) w1 = (Ok tt, w2) ->
  callInfraCompile (fst ic) (snd ic) w2 = (Ok r, w3) ->
  fst (Compile c sched w) = Ok tt.
Proof.
  intros Hi Hr Hc. unfold Compile, bind. rewrite Hi, Hr, Hc.
  destruct (walk c (compileCallback c) sched [] w3) as [[err results] w4].
  reflexivity.
Qed.

(** ** The fail-fast flag *)

(** C4, as stated, fails: two independent dependencies both fail to
    compile, and both callbacks load the stop flag before either has
    stored it. The walk returns two errors. *)
Lemma walk_two_errors :
  let c := Sample.mkCore Sample.rootOk
             (Sample.graph3 Sample.rootOk (Sample.mkFile "D1" "one" "bad")
                (Sample.mkFile "D2" "two" "bad")) in
  let sched := [walker.Start 1; walker.Start 2; walker.Run 1; walker.Run 2] in
  fst (fst (walk c (compileCallback c) sched [] Sample.emptyWorld))
  = Some (multiError ["compile failed: one"; "compile failed: two"])
  /\ errorCount (fst (fst (walk c (compileCallback c) sched [] Sample.emptyWorld))) = 2.
Proof. split; vm_compute; reflexivity. Qed.

Lemma sequential_ind (P : list walker.Step -> Prop) :
  P [] ->
  (forall v rest, P rest -> P (walker.Run v :: rest)) ->
  (forall v rest, P rest -> P (walker.Start v :: walker.Run v :: rest)) ->
  forall sched, sequential sched = true -> P sched.
Proof.
  intros Hnil Hrun Hpair sched.
  assert (H : forall n sched, length sched <= n -> sequential sched = true -> P sched).
  { clear sched. induction n as [|n IH]; intros sched Hl Hs.
    - destruct sched; [exact Hnil|simpl in Hl; lia].
    - destruct sched as [|[v|v] rest]; [exact Hnil| |].
      + destruct rest as [|[v'|v'] rest]; simpl in Hs; try discriminate.
        apply andb_true_iff in Hs as [Hv Hs]. apply Nat.eqb_eq in Hv. subst v'.
        apply Hpair, IH; [simpl in Hl; lia|exact Hs].
      + apply Hrun, IH; [simpl in Hl; lia|exact Hs]. }
  apply (H (length sched)). lia.
Qed.

Lemma sequential_app a b :
  sequential a = true -> sequential b = true -> sequential (a ++ b) = true.
Proof.
  intros Ha Hb. revert a Ha.
  apply (sequential_ind (fun a => sequential (a ++ b) = true)).
  - exact Hb.
  - intros v rest IH. exact IH.
  - intros v rest IH. simpl. rewrite Nat.eqb_refl. exact IH.
Qed.

Lemma sequential_drain g : sequential (walker.drain g) = true.
Proof.
  unfold walker.drain.
  assert (Hp : sequential (walker.pass g) = true).
  { unfold walker.pass. induction (seq 0 (length (dag.Vertices g))) as [|v l IH];
      [reflexivity|]. simpl. rewrite Nat.eqb_refl. exact IH. }
  induction (dag.Vertices g) as [|x l IH]; [reflexivity|].
  simpl. apply sequential_app; assumption.
Qed.

(** How a callback of [walk] ends: without an error and with the flag as
    it was (and with nothing changed at all if it had seen the flag set),
    or with an error and the flag set. *)
Lemma walkRun_cases {S} c (f : App -> Context -> bool -> S -> M S) root v x l vars :
  (fst (walkRun c f root v x l vars) = None
   /\ stop (snd (walkRun c f root v x l vars)) = stop vars
   /\ (l = true -> snd (walkRun c f root v x l vars) = vars))
  \/ (l = false
      /\ stop (snd (walkRun c f root v x l vars)) = 1%Z
      /\ exists e, fst (walkRun c f root v x l vars) = Some e).
Proof.
  unfold walkRun. destruct l; [left; auto|].
  destruct (walkBody c f root v x (captured vars) (world vars)) as [[s|e] w]; simpl.
  - left. repeat split. discriminate.
  - right. eauto.
Qed.

Section FailFast.

Context {S : Type}.
Variable c : Core.
Variable f : App -> Context -> bool -> S -> M S.
Variable root : nat.

Local Abbreviation g := (Graph (appfileCompiled c)).
Local Abbreviation wstep := (walker.step g walkStart (walkRun c f root)).
Local Abbreviation wrun := (walker.run g walkStart (walkRun c f root)).

(** Whenever an error was returned the flag is set, and the flag is 0 or 1. *)
Lemma run_flag_follows_errors sched (st : walkState S) :
  (walker.errs st = [] \/ stop (walker.shared st) = 1%Z) ->
  walker.errs (wrun st sched) = [] \/ stop (walker.shared (wrun st sched)) = 1%Z.
Proof.
  apply (walker_facts.run_invariant g walkStart (walkRun c f root)
           (fun st => walker.errs st = [] \/ stop (walker.shared st) = 1%Z)).
  clear. intros st a H.
  destruct (walker_facts.step_cases g walkStart (walkRun c f root) st a)
    as [(Hs & He & _)|(v & x & l & _ & _ & _ & Hs & _ & He)].
  - rewrite Hs, He. exact H.
  - rewrite Hs, He.
    destruct (walkRun_cases c f root v x l (walker.shared st))
      as [(Hn & Hst & _)|(_ & Hst & e & Hsome)].
    + rewrite Hn, Hst. exact H.
    + right. exact Hst.
Qed.

(** A callback that starts with the flag set holds [true]. *)
Lemma start_after_flag (st : walkState S) v l :
  stop (walker.shared st) <> 0%Z ->
  walker.status st !! v = Some walker.Waiting ->
  walker.status (wstep st (walker.Start v)) !! v = Some (walker.Running l) ->
  l = true.
Proof.
  intros Hstop Hw Hr. simpl in Hr. rewrite Hw in Hr.
  destruct (dag.Vertices g !! v) as [x|]; [|congruence].
  destruct (walker.depsFinished g st v); [|congruence].
  destruct (walker.depsSucceeded g st v); simpl in Hr;
    rewrite list_lookup_insert_eq in Hr by (eapply lookup_lt_Some; eauto);
    [|discriminate].
  injection Hr as <-. unfold walkStart.
  apply Z.eqb_neq in Hstop. rewrite Hstop. reflexivity.
Qed.

(** Such a callback stays as it is until it runs... *)
Lemma stopped_callback_waits sched : forall (st : walkState S) v,
  walker.status st !! v = Some (walker.Running true) ->
  walker.status (wrun st sched) !! v = Some (walker.Running true)
  \/ walker.status (wrun st sched) !! v = Some (walker.Done None).
Proof.
  induction sched as [|a rest IH]; intros st v Hv; [left; exact Hv|].
  rewrite walker_facts.run_cons.
  assert (Hor : walker.status (wstep st a) !! v = Some (walker.Running true)
                \/ walker.status (wstep st a) !! v = Some (walker.Done None)).
  { destruct a as [u|u]; simpl.
    - destruct (dag.Vertices g !! u) as [x|]; [|auto].
      destruct (walker.status st !! u) as [[| | |]|] eqn:Hu; auto.
      assert (u <> v) by congruence.
      destruct (walker.depsFinished g st u); [|auto].
      destruct (walker.depsSucceeded g st u); simpl;
        rewrite list_lookup_insert_ne by assumption; auto.
    - destruct (dag.Vertices g !! u) as [x|]; [|auto].
      destruct (walker.status st !! u) as [[|l| |]|] eqn:Hu; auto.
      destruct (walkRun c f root u x l (walker.shared st)) as [err sh] eqn:Hrun.
      simpl. destruct (decide (u = v)) as [->|Hne].
      + rewrite list_lookup_insert_eq by (eapply lookup_lt_Some; eauto).
        right. assert (l = true) by congruence. subst l.
        unfold walkRun in Hrun. injection Hrun as <- _. reflexivity.
      + rewrite list_lookup_insert_ne by assumption. auto. }
  destruct Hor as [Hor|Hor]; [apply IH, Hor|].
  right. clear IH Hv. revert Hor. generalize (wstep st a). clear st a.
  induction rest as [|a rest IH]; intros st Hd; [exact Hd|].
  rewrite walker_facts.run_cons. apply IH.
  destruct a as [u|u]; simpl.
  - destruct (dag.Vertices g !! u) as [x|]; [|auto].
    destruct (walker.status st !! u) as [[| | |]|] eqn:Hu; auto.
    assert (u <> v) by congruence.
    destruct (walker.depsFinished g st u); [|auto].
    destruct (walker.depsSucceeded g st u); simpl;
      rewrite list_lookup_insert_ne by assumption; auto.
  - destruct (dag.Vertices g !! u) as [x|]; [|auto].
    destruct (walker.status st !! u) as [[|l| |]|] eqn:Hu; auto.
    assert (u <> v) by congruence.
    destruct (walkRun c f root u x l (walker.shared st)) as [err sh].
    simpl. rewrite list_lookup_insert_ne by assumption. auto.
Qed.

(** ... and when it runs, it returns nil and touches nothing. *)
Lemma stopped_callback_runs (st : walkState S) v x :
  dag.Vertices g !! v = Some x ->
  walker.status st !! v = Some (walker.Running true) ->
  wstep st (walker.Run v)
  = {| walker.status := <[v := walker.Done None]> (walker.status st);
       walker.shared := walker.shared st;
       walker.errs := walker.errs st |}.
Proof.
  intros Hx Hv. simpl. rewrite Hx, Hv. reflexivity.
Qed.

End FailFast.

Section OneAtATime.

Context {S : Type}.
Variable c : Core.
Variable f : App -> Context -> bool -> S -> M S.
Variable root : nat.

Local Abbreviation g := (Graph (appfileCompiled c)).
Local Abbreviation wstep := (walker.step g walkStart (walkRun c f root)).
Local Abbreviation wrun := (walker.run g walkStart (walkRun c f root)).

Lemma idle_Run (st : walkState S) v : noneRunning st -> wstep st (walker.Run v) = st.
Proof.
  intros Hn. simpl.
  destruct (dag.Vertices g !! v) as [x|]; [|reflexivity].
  destruct (walker.status st !! v) as [[|l| |]|] eqn:Hv; try reflexivity.
  exfalso. exact (Hn v l Hv).
Qed.

Lemma noneRunning_insert (st : walkState S) v (s : @walker.Status bool)
    (sh : WalkVars S) (es : list error) :
  noneRunning st ->
  (forall l, s <> walker.Running l) ->
  noneRunning ({| walker.status := <[v := s]> (walker.status st);
                  walker.shared := sh; walker.errs := es |} : walkState S).
Proof.
  intros Hn Hs u l Hu. simpl in Hu.
  apply list_lookup_insert_Some in Hu as [(_ & Heq & _)|(_ & Hu)].
  - exact (Hs l Heq).
  - exact (Hn u l Hu).
Qed.

(** A callback that starts and runs at once keeps the walk in order. *)
Lemma pair_oneAtATime (st : walkState S) v :
  oneAtATime st ->
  oneAtATime (wstep (wstep st (walker.Start v)) (walker.Run v)).
Proof.
  intros (Hn & Hlen & Hflag).
  assert (Hsame : oneAtATime (wstep st (walker.Run v))).
  { rewrite idle_Run by exact Hn. repeat split; assumption. }
  cbn [walker.step] in Hsame |- *.
  destruct (dag.Vertices g !! v) as [x|] eqn:Hx; [|exact Hsame].
  destruct (walker.status st !! v) as [[| | |]|] eqn:Hv;
    rewrite ?Hv in Hsame; rewrite ?Hv; try exact Hsame.
  destruct (walker.depsFinished g st v); [|rewrite Hv; exact Hsame].
  clear Hsame.
  assert (Hlt : v < length (walker.status st)) by (eapply lookup_lt_Some; eauto).
  destruct (walker.depsSucceeded g st v); cbn [walker.status walker.setStatus];
    rewrite list_lookup_insert_eq by exact Hlt.
  2: { split; [|split; assumption].
       apply noneRunning_insert; [exact Hn|discriminate]. }
  cbn [walker.shared walker.setStatus].
  destruct (walkRun c f root v x (walkStart v x (walker.shared st)) (walker.shared st))
    as [err sh] eqn:Hrun.
  cbn [walker.errs walker.setStatus]. rewrite list_insert_insert_eq.
  pose proof (walkRun_cases c f root v x (walkStart v x (walker.shared st))
                (walker.shared st)) as Hcases.
  rewrite Hrun in Hcases. simpl in Hcases.
  split; [apply noneRunning_insert; [exact Hn|discriminate]|].
  destruct Hcases as [(-> & Hst & _)|(Hl & Hst & e & ->)]; simpl.
  - split; [exact Hlen|]. rewrite Hst. exact Hflag.
  - unfold walkStart in Hl. apply negb_false_iff, Z.eqb_eq in Hl.
    assert (He : walker.errs st = []).
    { destruct (walker.errs st) eqn:E; [reflexivity|].
      exfalso. apply Hflag; [discriminate|exact Hl]. }
    rewrite He. simpl. split; [lia|]. intros _. rewrite Hst. discriminate.
Qed.

Lemma sequential_oneAtATime sched :
  sequential sched = true ->
  forall st : walkState S, oneAtATime st -> oneAtATime (wrun st sched).
Proof.
  apply (sequential_ind
           (fun sched => forall st : walkState S,
                oneAtATime st -> oneAtATime (wrun st sched))).
  - intros st H. exact H.
  - intros v rest IH st H. rewrite walker_facts.run_cons. apply IH.
    rewrite idle_Run by apply H. exact H.
  - intros v rest IH st H. rewrite !walker_facts.run_cons.
    apply IH, pair_oneAtATime, H.
Qed.

Lemma init_oneAtATime (vars : WalkVars S) :
  oneAtATime (walker.init g vars : walkState S).
Proof.
  split; [|split; simpl; [lia|congruence]].
  intros v l. unfold walker.init. simpl.
  generalize dependent v.
  induction (dag.Vertices g) as [|x xs IH]; intros [|v]; simpl; try discriminate.
  apply IH.
Qed.

End OneAtATime.

Lemma walk_sequential_one_error {S} c (f : App -> Context -> bool -> S -> M S)
    sched s w :
  sequential sched = true ->
  errorCount (fst (fst (walk c f sched s w))) <= 1.
Proof.
  intros Hs. unfold walk.
  destruct (dag.Root (Graph (appfileCompiled c))) as [root|e]; [|simpl; lia].
  simpl. unfold walkFrom, walker.Walk.
  destruct (sequential_oneAtATime c f (fst root)
              (sched ++ walker.drain (Graph (appfileCompiled c)))
              (sequential_app _ _ Hs (sequential_drain _))
              _ (init_oneAtATime c {| stop := 0; captured := s; world := w |}))
    as (_ & Hlen & _).
  unfold walker.walkError.
  destruct (walker.errs _) as [|e es]; simpl in *; [lia|].
  rewrite length_map. lia.
Qed.

(** C4, amended. In every walk, at every moment: once a callback has
    returned an error the stop flag is set; a callback that starts after the
    flag is set holds the flag's value until it runs, and when it runs it
    returns nil and changes neither the world nor the captured variables nor
    the errors (no context is built, no app resolved, the user callback not
    called); and when callbacks do not overlap the walk returns at most one
    error. Callbacks that loaded the flag before it was set can each still
    return an error. *)
Theorem walk_fail_fast {S : Type} (c : Core) (f : App -> Context -> bool -> S -> M S) :
  (forall root pre s w,
      let st := walker.run (Graph (appfileCompiled c)) walkStart (walkRun c f root)
                  (walker.init (Graph (appfileCompiled c))
                     {| stop := 0%Z; captured := s; world := w |}) pre in
      walker.errs st <> [] -> stop (walker.shared st) = 1%Z)
  /\ (forall root (st : walkState S) v x l mid,
        dag.Vertices (Graph (appfileCompiled c)) !! v = Some x ->
        stop (walker.shared st) <> 0%Z ->
        walker.status st !! v = Some walker.Waiting ->
        walker.status
          (walker.step (Graph (appfileCompiled c)) walkStart (walkRun c f root)
             st (walker.Start v)) !! v = Some (walker.Running l) ->
        let st1 :=
          walker.run (Graph (appfileCompiled c)) walkStart (walkRun c f root)
            (walker.step (Graph (appfileCompiled c)) walkStart (walkRun c f root)
               st (walker.Start v)) mid in
        l = true
        /\ (walker.status st1 !! v = Some (walker.Running true)
            \/ walker.status st1 !! v = Some (walker.Done None))
        /\ (walker.status st1 !! v = Some (walker.Running true) ->
            walker.step (Graph (appfileCompiled c)) walkStart (walkRun c f root)
              st1 (walker.Run v)
            = {| walker.status := <[v := walker.Done None]> (walker.status st1);
                 walker.shared := walker.shared st1;
                 walker.errs := walker.errs st1 |}))
  /\ (forall sched s w,
        sequential sched = true ->
        errorCount (fst (fst (walk c f sched s w))) <= 1).
Proof.
  split; [|split].
  - intros root pre s w st Hne.
    destruct (run_flag_follows_errors c f root pre
                (walker.init (Graph (appfileCompiled c))
                   {| stop := 0; captured := s; world := w |}))
      as [He|Hs]; [left; reflexivity| |exact Hs].
    contradiction.
  - intros root st v x l mid Hx Hstop Hw Hr st1.
    assert (Hl : l = true) by (eapply start_after_flag; eauto).
    subst l. split; [reflexivity|]. split.
    + apply stopped_callback_waits, Hr.
    + intros H1. eapply stopped_callback_runs; eauto.
  - intros sched s w. apply walk_sequential_one_error.
Qed.

Lemma walk_fail_fast_witness :
  let c := Sample.mkCore Sample.rootOk
             (Sample.graph3 Sample.rootOk (Sample.mkFile "D1" "one" "bad")
                (Sample.mkFile "D2" "two" "bad")) in
  let g := Graph (appfileCompiled c) in
  let failed :=
    walker.run g walkStart (walkRun c (compileCallback c) 0)
      (walker.init g {| stop := 0%Z; captured := []; world := Sample.emptyWorld |})
      [walker.Start 1; walker.Run 1] in
  let started := walker.step g walkStart (walkRun c (compileCallback c) 0)
                   failed (walker.Start 2) in
  errorCount (fst (fst (walk c (compileCallback c) [] [] Sample.emptyWorld))) <= 1
  /\ walker.step g walkStart (walkRun c (compileCallback c) 0) started (walker.Run 2)
     = {| walker.status := <[2 := walker.Done None]> (walker.status started);
          walker.shared := walker.shared started;
          walker.errs := walker.errs started |}.
Proof.
  intros c g failed started. split.
  - apply (proj2 (proj2 (walk_fail_fast c (compileCallback c))) [] [] Sample.emptyWorld).
    reflexivity.
  - destruct (proj1 (proj2 (walk_fail_fast c (compileCallback c)))
                0 failed 2 (Sample.vertex (Sample.mkFile "D2" "two" "bad")) true []
                eq_refl ltac:(vm_compute; discriminate) eq_refl eq_refl)
      as (_ & _ & Hrun).
    apply Hrun. reflexivity.
Defined.

(** Without overlap, the second failing dependency is never compiled: its
    callback sees the flag and does nothing, and the root is skipped. *)
Example walk_sequential_trace :
  let c := Sample.mkCore Sample.rootOk
             (Sample.graph3 Sample.rootOk (Sample.mkFile "D1" "one" "bad")
                (Sample.mkFile "D2" "two" "bad")) in
  walk c (compileCallback c) [] [] Sample.emptyWorld
  = (Some (multiError ["compile failed: one"]), [],
     {| files := ∅;
        dirs := {[ "/data"; "/data/cache"; "/data/cache/D1" ]};
        denied := ∅;
        answers := [];
        trace := [ EvAppFactory (ctx_Tuple (Sample.depCtx "D1" "one" "bad"));
                   EvMessage "Compiling dependency 'one'...";
                   EvAppCompile (Sample.depCtx "D1" "one" "bad") ] |}).
Proof. vm_compute. reflexivity. Qed.

(** ** The callback of [Compile] *)

Lemma collectFragments_from results : forall acc,
  fold_left
    (fun acc result =>
       if negb (String.eqb (DevDepFragmentPath result) "")
       then (acc ++ [DevDepFragmentPath result])%list
       else acc)
    results acc
  = (acc ++ fragmentPaths results)%list.
Proof.
  unfold fragmentPaths.
  induction results as [|r rs IH]; intros acc; simpl; [rewrite app_nil_r; reflexivity|].
  rewrite IH. unfold filepath.nonEmpty at 2.
  destruct (negb (String.eqb (DevDepFragmentPath r) "")); [|reflexivity].
  rewrite <- app_assoc. reflexivity.
Qed.

(** The loop collects exactly the non-empty fragment paths, in order. *)
Lemma collectFragments_eq results : collectFragments results = fragmentPaths results.
Proof. unfold collectFragments. apply collectFragments_from. Qed.

Lemma compileCallback_eq c a ctx (root : bool) results w :
  let ctx' := if root
              then setDevDepFragments (fragmentPaths results) ctx
              else ctx in
  let w' := emit (EvAppCompile ctx') (emit (EvMessage (compileMessage root ctx)) w) in
  compileCallback c a ctx root results w
  = match app_Compile a ctx' with
    | Ok r => (Ok (results ++ [r])%list, w')
    | Err e => (Err e, w')
    end.
Proof.
  unfold compileCallback, compileMessage, bind, callAppCompile, ui.Message, log, lift, ret.
  rewrite collectFragments_eq.
  destruct root; simpl; destruct (app_Compile a _); reflexivity.
Qed.

Lemma walkRun_compile_ok c root v x (vars vars' : WalkVars (list CompileResult)) :
  dag.Vertices (Graph (appfileCompiled c)) !! v = Some x ->
  walkRun c (compileCallback c) root v x false vars = (None, vars') ->
  exists r, captured vars' = (captured vars ++ [r])%list /\ resultFor c root v r.
Proof.
  intros Hx. unfold walkRun.
  destruct (walkBody_cases c (compileCallback c) root v x (captured vars) (world vars))
    as [(e & w1 & Hb & _)|(ctx & a & w1 & Hctx & Happ & _ & _ & _ & _ & Hb)];
    rewrite Hb; [discriminate|].
  rewrite compileCallback_eq.
  destruct (Nat.eqb v root) eqn:Hv.
  - destruct (app_Compile a _) as [r|e]; [|discriminate].
    intros H. injection H as <-. simpl. exists r. split; [reflexivity|].
    left. apply Nat.eqb_eq, Hv.
  - destruct (app_Compile a ctx) as [r|e] eqn:Hr; [|discriminate].
    intros H. injection H as <-. simpl. exists r. split; [reflexivity|].
    right. exists x. split; [exact Hx|].
    unfold compileResultOf. rewrite Hctx, Happ, Hr. reflexivity.
Qed.

Section CompileWalk.

Variable c : Core.
Variable root : nat.

Local Abbreviation g := (Graph (appfileCompiled c)).
Local Abbreviation wstep := (walker.step g walkStart (walkRun c (compileCallback c) root)).
Local Abbreviation wrun := (walker.run g walkStart (walkRun c (compileCallback c) root)).

Lemma compileInv_init w :
  compileInv c root
    (walker.init g {| stop := 0; captured := []; world := w |}).
Proof.
  assert (Hall : forall v s,
             List.map (fun _ => @walker.Waiting bool) (dag.Vertices g) !! v = Some s ->
             s = walker.Waiting).
  { intros v s. rewrite list_lookup_fmap.
    destruct (dag.Vertices g !! v); simpl; congruence. }
  constructor; simpl.
  - apply length_map.
  - intros v [H|[l H]]; apply Hall in H; discriminate.
  - congruence.
  - intros _ v l H. apply Hall in H. discriminate.
  - intros _. exists []. split; [constructor|]. split; [|constructor].
    intros v. split; [intros H; inversion H|].
    intros [e H]. apply Hall in H. discriminate.
Qed.

(** Starting a callback keeps the invariant. *)
Lemma compileInv_start st v (s : @walker.Status bool) :
  compileInv c root st ->
  walker.status st !! v = Some walker.Waiting ->
  (s = walker.Skipped
   \/ (walker.depsSucceeded g st v = true
       /\ s = walker.Running (negb (Z.eqb (stop (walker.shared st)) 0)))) ->
  compileInv c root (walker.setStatus v s st).
Proof.
  intros [Hlen Hdeps Hflag Hclear Hres] Hv Hs.
  assert (Hlt : v < length (walker.status st)) by (eapply lookup_lt_Some; eauto).
  assert (Hother : forall u t, <[v := s]> (walker.status st) !! u = Some t ->
                               (u = v /\ t = s) \/ (u <> v /\ walker.status st !! u = Some t)).
  { intros u t H. apply list_lookup_insert_Some in H as [(-> & -> & _)|(Hne & H)]; auto. }
  assert (Hkeep : forall u t, walker.status st !! u = Some t -> t <> walker.Waiting ->
                              <[v := s]> (walker.status st) !! u = Some t).
  { intros u t H Ht. rewrite list_lookup_insert_ne; [exact H|]. congruence. }
  assert (HnotDone : forall e, s <> walker.Done e)
    by (destruct Hs as [->|[_ ->]]; discriminate).
  constructor; simpl.
  - rewrite length_insert. exact Hlen.
  - intros u Hu d Hd.
    assert (Hd' : walker.status st !! d = Some (walker.Done None)).
    { destruct Hu as [Hu|[l Hu]]; apply Hother in Hu as [[-> Hu]|[_ Hu]].
      - exfalso. exact (HnotDone None (eq_sym Hu)).
      - eapply Hdeps; eauto.
      - destruct Hs as [->|[Hds _]]; [discriminate|].
        unfold walker.depsSucceeded in Hds.
        rewrite forallb_forall in Hds. specialize (Hds d Hd).
        unfold walker.statusOf in Hds.
        destruct (walker.status st !! d) as [[| |[e|]|]|]; try discriminate.
        reflexivity.
      - eapply Hdeps; eauto. }
    apply Hkeep; [exact Hd'|discriminate].
  - intros Hstop. destruct (Hflag Hstop) as (u & e & Hu).
    exists u, e. apply Hkeep; [exact Hu|discriminate].
  - intros Hstop u l Hu. apply Hother in Hu as [[-> Hu]|[_ Hu]].
    + destruct Hs as [->|[_ ->]]; [discriminate|].
      injection Hu as ->. rewrite Hstop. reflexivity.
    + eapply Hclear; eauto.
  - intros Hstop. destruct (Hres Hstop) as (order & Hnd & Hin & Hall).
    exists order. split; [exact Hnd|]. split; [|exact Hall].
    intros u. rewrite Hin. split; intros [e He]; exists e.
    + apply Hkeep; [exact He|discriminate].
    + apply Hother in He as [[-> He]|[_ He]]; [|exact He].
      exfalso. exact (HnotDone e (eq_sym He)).
Qed.

(** Running a callback that had started keeps the invariant. *)
Lemma compileInv_finish st v x l :
  compileInv c root st ->
  dag.Vertices g !! v = Some x ->
  walker.status st !! v = Some (walker.Running l) ->
  compileInv c root
    {| walker.status :=
         <[v := walker.Done (fst (walkRun c (compileCallback c) root v x l (walker.shared st)))]>
           (walker.status st);
       walker.shared := snd (walkRun c (compileCallback c) root v x l (walker.shared st));
       walker.errs :=
         match fst (walkRun c (compileCallback c) root v x l (walker.shared st)) with
         | Some e => (walker.errs st ++ [e])%list
         | None => walker.errs st
         end |}.
Proof.
  intros [Hlen Hdeps Hflag Hclear Hres] Hx Hv.
  assert (Hlt : v < length (walker.status st)) by (eapply lookup_lt_Some; eauto).
  set (r := walkRun c (compileCallback c) root v x l (walker.shared st)).
  assert (Hother : forall u t, <[v := walker.Done (fst r)]> (walker.status st) !! u = Some t ->
                     (u = v /\ t = walker.Done (fst r))
                     \/ (u <> v /\ walker.status st !! u = Some t)).
  { intros u t H. apply list_lookup_insert_Some in H as [(-> & -> & _)|(Hne & H)]; auto. }
  assert (Hkeep : forall u t, walker.status st !! u = Some t ->
                              (forall l', t <> walker.Running l') ->
                              <[v := walker.Done (fst r)]> (walker.status st) !! u = Some t).
  { intros u t H Ht. rewrite list_lookup_insert_ne; [exact H|].
    intros <-. rewrite Hv in H. injection H as <-. exact (Ht l eq_refl). }
  assert (Hself : <[v := walker.Done (fst r)]> (walker.status st) !! v
                  = Some (walker.Done (fst r)))
    by (apply list_lookup_insert_eq, Hlt).
  pose proof (walkRun_cases c (compileCallback c) root v x l (walker.shared st)) as Hcases.
  fold r in Hcases.
  constructor; simpl.
  - rewrite length_insert. exact Hlen.
  - intros u Hu d Hd.
    assert (Hd' : walker.status st !! d = Some (walker.Done None)).
    { destruct Hu as [Hu|[l' Hu]]; apply Hother in Hu as [[-> Hu]|[_ Hu]];
        try discriminate;
        match goal with
        | H : walker.status st !! ?u = Some (walker.Done None) |- _ =>
            apply (Hdeps u); [left; exact H|assumption]
        | H : walker.status st !! ?u = Some (walker.Running _) |- _ =>
            apply (Hdeps u); [right; eexists; exact H|assumption]
        end. }
    apply Hkeep; [exact Hd'|discriminate].
  - intros Hstop.
    destruct Hcases as [(Hn & Hst & _)|(_ & _ & e & He)].
    + rewrite Hst in Hstop. destruct (Hflag Hstop) as (u & e & Hu).
      exists u, e. apply Hkeep; [exact Hu|discriminate].
    + exists v, e. rewrite Hself, He. reflexivity.
  - intros Hstop u l' Hu.
    destruct Hcases as [(_ & Hst & _)|(_ & Hst & _)]; [|congruence].
    rewrite Hst in Hstop.
    apply Hother in Hu as [[_ Hu]|[_ Hu]]; [discriminate|].
    eapply Hclear; eauto.
  - intros Hstop.
    destruct Hcases as [(Hn & Hst & _)|(_ & Hst & _)]; [|congruence].
    rewrite Hst in Hstop.
    assert (Hl : l = false) by (eapply Hclear; eauto). subst l.
    destruct (Hres Hstop) as (order & Hnd & Hin & Hall).
    destruct (walkRun_compile_ok c root v x (walker.shared st) (snd r) Hx)
      as (res & Hcap & Hfor).
    { fold r. rewrite <- Hn. destruct r; reflexivity. }
    exists (order ++ [v])%list. split; [|split].
    + apply NoDup_app. split; [exact Hnd|]. split; [|apply NoDup_singleton].
      intros u Hu Huv. apply list_elem_of_singleton in Huv. subst u.
      apply Hin in Hu as [e He]. congruence.
    + intros u. rewrite elem_of_app, list_elem_of_singleton, Hin.
      split.
      * intros [[e He]| ->]; [|eauto].
        exists e. apply Hkeep; [exact He|discriminate].
      * intros [e He]. apply Hother in He as [[-> _]|[_ He]]; eauto.
    + rewrite Hcap. apply Forall2_app; [exact Hall|].
      constructor; [exact Hfor|constructor].
Qed.

Lemma compileInv_step st a : compileInv c root st -> compileInv c root (wstep st a).
Proof.
  intros Hinv. destruct a as [v|v]; cbn [walker.step].
  - destruct (dag.Vertices g !! v) as [x|]; [|exact Hinv].
    destruct (walker.status st !! v) as [[| | |]|] eqn:Hv; try exact Hinv.
    destruct (walker.depsFinished g st v); [|exact Hinv].
    destruct (walker.depsSucceeded g st v) eqn:Hd.
    + apply compileInv_start; [exact Hinv|exact Hv|]. right. split; [exact Hd|reflexivity].
    + apply compileInv_start; [exact Hinv|exact Hv|]. left. reflexivity.
  - destruct (dag.Vertices g !! v) as [x|] eqn:Hx; [|exact Hinv].
    destruct (walker.status st !! v) as [[|l| |]|] eqn:Hv; try exact Hinv.
    pose proof (compileInv_finish st v x l Hinv Hx Hv) as H.
    destruct (walkRun c (compileCallback c) root v x l (walker.shared st)) as [err sh].
    exact H.
Qed.

Lemma compileInv_run sched w :
  compileInv c root
    (wrun (walker.init g {| stop := 0; captured := []; world := w |}) sched).
Proof.
  apply (walker_facts.run_invariant g walkStart (walkRun c (compileCallback c) root)
           (compileInv c root)).
  - intros st a. apply compileInv_step.
  - apply compileInv_init.
Qed.

End CompileWalk.

(** ** The root of the graph *)

Lemma in_DownEdges g a b : In b (dag.DownEdges g a) <-> In (a, b) (dag.Edges g).
Proof.
  unfold dag.DownEdges. rewrite in_map_iff. split.
  - intros ([a' b'] & Hb & Hin). apply filter_In in Hin as [Hin Ha].
    simpl in *. apply Nat.eqb_eq in Ha. subst. exact Hin.
  - intros Hin. exists (a, b). split; [reflexivity|].
    apply filter_In. split; [exact Hin|]. simpl. apply Nat.eqb_refl.
Qed.

Lemma in_UpEdges g a b : In a (dag.UpEdges g b) <-> In (a, b) (dag.Edges g).
Proof.
  unfold dag.UpEdges. rewrite in_map_iff. split.
  - intros ([a' b'] & Ha & Hin). apply filter_In in Hin as [Hin Hb].
    simpl in *. apply Nat.eqb_eq in Hb. subst. exact Hin.
  - intros Hin. exists (a, b). split; [reflexivity|].
    apply filter_In. split; [exact Hin|]. simpl. apply Nat.eqb_refl.
Qed.

Lemma in_combine_seq {A} (l : list A) : forall k v x,
  l !! v = Some x -> In (k + v, x) (combine (seq k (length l)) l).
Proof.
  induction l as [|y ys IH]; intros k v x Hv; [discriminate|].
  destruct v as [|v]; simpl in *.
  - injection Hv as ->. left. rewrite Nat.add_0_r. reflexivity.
  - right. replace (k + Datatypes.S v) with (Datatypes.S k + v) by lia.
    apply IH, Hv.
Qed.

Lemma in_indexed g v x : dag.Vertices g !! v = Some x -> In (v, x) (dag.indexed g).
Proof. intros Hv. apply (in_combine_seq _ 0 v x Hv). Qed.

(** The vertex [Root] returns is the only one that nothing depends on. *)
Lemma Root_unique g root v x :
  dag.Root g = Ok root ->
  dag.Vertices g !! v = Some x ->
  dag.UpEdges g v = [] ->
  v = fst root.
Proof.
  unfold dag.Root. intros Hr Hv Hup.
  assert (Hin : In (v, x)
                  (List.filter
                     (fun v => match dag.UpEdges g (fst v) with [] => true | _ => false end)
                     (dag.indexed g))).
  { apply filter_In. split; [apply in_indexed, Hv|]. simpl. rewrite Hup. reflexivity. }
  destruct (List.filter _ (dag.indexed g)) as [|r [|r' rs]]; try discriminate.
  injection Hr as <-. destruct Hin as [Heq|[]]. rewrite Heq. reflexivity.
Qed.

(** In a graph without cycles whose edges join its vertices, the root
    reaches every vertex: that the root reaches every vertex is what it
    means for the graph to be a rooted DAG. *)
Lemma root_reaches_all g root (rank : nat -> nat) (bound : nat) :
  dag.Root g = Ok root ->
  (forall a b, In (a, b) (dag.Edges g) ->
               a < length (dag.Vertices g) /\ rank b < rank a) ->
  (forall v, v < length (dag.Vertices g) -> rank v < bound) ->
  forall v, v < length (dag.Vertices g) -> reaches g (fst root) v.
Proof.
  intros Hr Hedge Hbound.
  assert (H : forall k v, v < length (dag.Vertices g) -> bound - rank v <= k ->
                          reaches g (fst root) v).
  { induction k as [|k IH]; intros v Hv Hk.
    - specialize (Hbound v Hv). lia.
    - destruct (lookup_lt_is_Some_2 _ _ Hv) as [x Hx].
      destruct (dag.UpEdges g v) as [|p ps] eqn:Hup.
      + rewrite (Root_unique g root v x Hr Hx Hup). constructor.
      + assert (Hp : In (p, v) (dag.Edges g)).
        { apply in_UpEdges. rewrite Hup. left. reflexivity. }
        destruct (Hedge p v Hp) as [Hpl Hrank].
        apply (reaches_edge g (fst root) p v).
        * apply IH; [exact Hpl|]. specialize (Hbound p Hpl). lia.
        * apply in_DownEdges, Hp. }
  intros v Hv. apply (H (bound - rank v) v Hv). lia.
Qed.

(** When the root's callback has started, everything it depends on has
    returned nil. *)
Lemma root_started_deps_done c root (st : walkState (list CompileResult)) l v :
  compileInv c root st ->
  walker.status st !! root = Some (walker.Running l) ->
  reaches (Graph (appfileCompiled c)) root v ->
  v = root \/ walker.status st !! v = Some (walker.Done None).
Proof.
  intros Hinv Hroot Hreach.
  induction Hreach as [|a b d Hab IH Hd]; [left; reflexivity|].
  right. apply (inv_deps _ _ _ Hinv b); [|exact Hd].
  destruct (IH Hinv Hroot) as [->|Hb]; [right; eauto|left; exact Hb].
Qed.

(** C3. In a [Compile] walk the callback hands [app.Compile] a context
    whose [DevDepFragments] are, for the root, exactly the non-empty
    [DevDepFragmentPath] values of the results appended so far, in order,
    and, for every other vertex, empty. And the root comes last: in a graph
    where the root reaches every vertex, whenever the root's callback has
    started, it has not been stopped and the results appended so far are
    those of all the other vertices, each the result of that dependency's
    [Compile]. *)
Theorem Compile_root_fragments (c : Core) :
  (forall root v x (vars : WalkVars (list CompileResult)) ctx a w1 w2,
      appContext c (vertex_File x) (world vars) = (Ok ctx, w1) ->
      app c ctx w1 = (Ok a, w2) ->
      let ctx' := if Nat.eqb v root
                  then setDevDepFragments (fragmentPaths (captured vars)) ctx
                  else ctx in
      let w' := emit (EvAppCompile ctx')
                  (emit (EvMessage (compileMessage (Nat.eqb v root) ctx)) w2) in
      DevDepFragments ctx'
      = (if Nat.eqb v root then fragmentPaths (captured vars) else [])
      /\ walkRun c (compileCallback c) root v x false vars
         = match app_Compile a ctx' with
           | Ok r => (None, {| stop := stop vars;
                               captured := (captured vars ++ [r])%list;
                               world := w' |})
           | Err e => (Some e, {| stop := 1%Z;
                                  captured := captured vars;
                                  world := w' |})
           end)
  /\ (forall root pre w l,
        (forall v, v < length (dag.Vertices (Graph (appfileCompiled c))) ->
                   reaches (Graph (appfileCompiled c)) root v) ->
        let st := walker.run (Graph (appfileCompiled c)) walkStart
                    (walkRun c (compileCallback c) root)
                    (walker.init (Graph (appfileCompiled c))
                       {| stop := 0%Z; captured := []; world := w |}) pre in
        walker.status st !! root = Some (walker.Running l) ->
        l = false
        /\ stop (walker.shared st) = 0%Z
        /\ exists order,
             order ≡ₚ List.filter (fun v => negb (Nat.eqb v root))
                        (seq 0 (length (dag.Vertices (Graph (appfileCompiled c)))))
             /\ Forall2
                  (fun v r =>
                     exists x,
                       dag.Vertices (Graph (appfileCompiled c)) !! v = Some x
                       /\ compileResultOf c x = Some r)
                  order (captured (walker.shared st))).
Proof.
  split.
  - intros root v x vars ctx a w1 w2 Hc Ha ctx' w'. split.
    + apply appContext_ok in Hc as (_ & _ & Hfr & _).
      subst ctx'. destruct (Nat.eqb v root); [reflexivity|exact Hfr].
    + rewrite (walkRun_body _ _ _ _ _ _ _ _ _ _ Hc Ha), compileCallback_eq.
      fold ctx'. fold w'. destruct (app_Compile a ctx'); reflexivity.
  - intros root pre w l Hreach st Hroot.
    pose proof (compileInv_run c root pre w) as Hinv. fold st in Hinv.
    assert (Hdone : forall v, v < length (dag.Vertices (Graph (appfileCompiled c))) ->
                              v <> root ->
                              walker.status st !! v = Some (walker.Done None)).
    { intros v Hv Hne.
      destruct (root_started_deps_done c root st l v Hinv Hroot (Hreach v Hv));
        [contradiction|assumption]. }
    assert (Hrange : forall v s, walker.status st !! v = Some s ->
                                 v < length (dag.Vertices (Graph (appfileCompiled c)))).
    { intros v s Hv. rewrite <- (inv_length _ _ _ Hinv). eapply lookup_lt_Some, Hv. }
    assert (Hstop : stop (walker.shared st) = 0%Z).
    { destruct (Z.eq_dec (stop (walker.shared st)) 0%Z) as [H|H]; [exact H|].
      destruct (inv_flag _ _ _ Hinv H) as (v & e & Hv). exfalso.
      destruct (Nat.eq_dec v root) as [->|Hne]; [congruence|].
      rewrite (Hdone v (Hrange _ _ Hv) Hne) in Hv. discriminate. }
    split; [exact (inv_clear _ _ _ Hinv Hstop root l Hroot)|].
    split; [exact Hstop|].
    destruct (inv_results _ _ _ Hinv Hstop) as (order & Hnd & Hin & Hall).
    assert (Hmem : forall v, v ∈ order <->
                             v < length (dag.Vertices (Graph (appfileCompiled c)))
                             /\ v <> root).
    { intros v. rewrite Hin. split.
      - intros [e He]. split; [exact (Hrange _ _ He)|]. congruence.
      - intros [Hv Hne]. exists None. exact (Hdone v Hv Hne). }
    exists order. split.
    + apply NoDup_Permutation; [exact Hnd| |].
      * apply NoDup_ListNoDup, List.NoDup_filter, List.seq_NoDup.
      * intros v. rewrite Hmem, list_elem_of_In, filter_In, in_seq.
        rewrite negb_true_iff, Nat.eqb_neq. simpl. lia.
    + assert (Hne : Forall (fun v => v <> root) order).
      { apply Forall_forall. intros v Hv. apply Hmem in Hv. tauto. }
      clear - Hall Hne. induction Hall as [|v r vs rs Hvr _ IH]; [constructor|].
      inversion Hne as [|? ? Hv Hrest]; subst.
      constructor; [|exact (IH Hrest)].
      destruct Hvr as [->|Hx]; [contradiction|exact Hx].
Qed.

Lemma Compile_root_fragments_witness :
  let c := Sample.mkCore Sample.rootOk
             (Sample.graph3 Sample.rootOk (Sample.mkFile "D1" "one" "ok")
                (Sample.mkFile "D2" "two" "ok")) in
  let pre := [walker.Start 1; walker.Start 2; walker.Run 2; walker.Run 1;
              walker.Start 0] in
  let st := walker.run (Graph (appfileCompiled c)) walkStart
              (walkRun c (compileCallback c) 0)
              (walker.init (Graph (appfileCompiled c))
                 {| stop := 0%Z; captured := []; world := Sample.emptyWorld |}) pre in
  stop (walker.shared st) = 0%Z
  /\ exists order,
       order ≡ₚ [1; 2]
       /\ Forall2
            (fun v r =>
               exists x,
                 dag.Vertices (Graph (appfileCompiled c)) !! v = Some x
                 /\ compileResultOf c x = Some r)
            order (captured (walker.shared st)).
Proof.
  intros c pre st.
  assert (Hreach : forall v, v < length (dag.Vertices (Graph (appfileCompiled c))) ->
                             reaches (Graph (appfileCompiled c)) 0 v).
  { intros v Hv. simpl in Hv.
    destruct v as [|[|[|v]]]; [constructor| | |lia].
    - apply (reaches_edge _ 0 0 1); [constructor|]. simpl. auto.
    - apply (reaches_edge _ 0 0 2); [constructor|]. simpl. auto. }
  destruct (proj2 (Compile_root_fragments c) 0 pre Sample.emptyWorld false Hreach
              eq_refl) as (_ & Hstop & Horder).
  split; [exact Hstop|exact Horder].
Defined.

(** A fresh compile of a root with one dependency: the dependency is
    compiled first, and the root's context carries its fragment. *)
Example Compile_two_vertices :
  let c := Sample.mkCore Sample.rootOk
             {| dag.Vertices := [Sample.vertex Sample.rootOk;
                                 Sample.vertex (Sample.mkFile "D" "dep" "ok")];
                dag.Edges := [(0, 1)] |} in
  let w := setDirs {[ "/tmp/compile"; "/tmp/compile/old" ]}
             (setFiles {[ "/tmp/compile/stale.txt" := Raw (Text "stale") ]}
                Sample.emptyWorld) in
  fst (Compile c [] w) = Ok tt
  /\ files (snd (Compile c [] w)) = ∅
  /\ List.filter (fun e => match e with EvAppCompile _ => true | _ => false end)
       (trace (snd (Compile c [] w)))
     = [ EvAppCompile (Sample.depCtx "D" "dep" "ok");
         EvAppCompile (setDevDepFragments ["/tmp/compile/dep-D/frag.sh"]
                         (Sample.rootCtx "ok")) ].
Proof. repeat split; vm_compute; reflexivity. Qed.

(** A graph with the root alone: one callback, with no fragments. *)
Example Compile_root_only :
  let c := Sample.mkCore Sample.rootOk (Sample.graph1 Sample.rootOk) in
  List.filter (fun e => match e with EvAppCompile _ => true | _ => false end)
    (trace (snd (Compile c [] Sample.emptyWorld)))
  = [ EvAppCompile (Sample.rootCtx "ok") ].
Proof. vm_compute. reflexivity. Qed.

(** * Further properties of [core.go] *)

(** ** [infra], [app], [appContext] *)

(** [infra] never touches the files, the directories or the answers, and
    what it adds to the trace is at most the start of the factory. *)
Lemma infra_world c w r w' :
  infra c w = (r, w') ->
  files w' = files w /\ dirs w' = dirs w /\ denied w' = denied w
  /\ answers w' = answers w
  /\ (trace w' = trace w
      \/ trace w'
         = (trace w
            ++ [EvInfraFactory (proj_Infrastructure (file_Project (appfile c)))])%list).
Proof.
  unfold infra.
  destruct (infras c _) as [[i|e]|];
    destruct (ActiveInfrastructure (appfile c)) as [config|];
    unfold bind, log, lift, fail, ret; simpl;
    intros H; injection H as <- <-; simpl; auto 10.
Qed.

(** [infra] looks the infrastructure type up in the registry and then
    the active infrastructure in the Appfile, in this order, before it
    starts the factory: in both failures nothing is started and the world is
    as it was. An error of the factory is returned as it is; on success the
    context has the directory [Join(compileDir, "infra-<type>")], the active
    configuration, no action and no credentials. *)
Lemma infra_outcomes (c : Core) (w : World) :
  let name := proj_Infrastructure (file_Project (appfile c)) in
  match infras c name, ActiveInfrastructure (appfile c) with
  | None, _ =>
      infra c w = (Err (Errorf ("infrastructure type not supported: " ++ name)), w)
  | Some _, None =>
      infra c w = (Err (Errorf ("infrastructure not found in appfile: " ++ name)), w)
  | Some (Err e), Some _ =>
      infra c w = (Err e, emit (EvInfraFactory name) w)
  | Some (Ok i), Some config =>
      infra c w
      = (Ok (i, {| ictx_Dir := filepath.Join [compileDir c; "infra-" ++ name];
                   ictx_Infra := config;
                   ictx_Shared := {| shared_Directory := dir c; shared_Ui := ui_ c |};
                   ictx_Action := "";
                   ictx_ActionArgs := [];
                   InfraCreds := None |}),
         emit (EvInfraFactory name) w)
  end.
Proof.
  intros name. unfold infra. fold name.
  destruct (infras c name) as [[i|e]|];
    destruct (ActiveInfrastructure (appfile c)) as [config|]; reflexivity.
Qed.

(** [app] starts the factory registered for the context's tuple. With
    no factory for the tuple it fails naming the tuple and starts nothing;
    an error of the factory comes back behind "app failed to start
    properly"; otherwise the implementation the factory gave is returned. *)
Lemma app_outcomes (c : Core) (ctx : Context) (w : World) :
  match apps c (ctx_Tuple ctx) with
  | None =>
      app c ctx w
      = (Err (Errorf ("app implementation for tuple not found: ("
                      ++ tuple_App (ctx_Tuple ctx) ++ ", "
                      ++ tuple_Infra (ctx_Tuple ctx) ++ ", "
                      ++ tuple_InfraFlavor (ctx_Tuple ctx) ++ ")")), w)
  | Some (Err e) =>
      app c ctx w
      = (Err (Errorf ("app failed to start properly: " ++ Error e)),
         emit (EvAppFactory (ctx_Tuple ctx)) w)
  | Some (Ok a) => app c ctx w = (Ok a, emit (EvAppFactory (ctx_Tuple ctx)) w)
  end.
Proof.
  unfold app. destruct (apps c (ctx_Tuple ctx)) as [[a|e]|]; reflexivity.
Qed.

(** X1. The cache directory of [appContext]. All [appContext] does to the
    world is to make directories: no file, no directory that was there and
    nothing on the trace changes. When it succeeds the cache directory
    exists afterwards, and calling [appContext] again returns the same
    context and changes nothing. When it fails for an Appfile that has an
    active infrastructure, the error is that of [MkdirAll] behind "error
    making cache directory '<dir>': ". *)
Theorem appContext_cache_dir (c : Core) (f : File) (w : World) :
  madeDirs w (snd (appContext c f w))
  /\ (forall ctx w1,
        appContext c f w = (Ok ctx, w1) ->
        os.IsDir (CacheDir ctx) w1 = true
        /\ appContext c f w1 = (Ok ctx, w1))
  /\ (forall ctx e,
        contextOf c f = Some ctx ->
        fst (appContext c f w) = Err e ->
        exists cause,
          fst (os.MkdirAll (CacheDir ctx) w) = Err cause
          /\ e = Errorf ("error making cache directory '" ++ CacheDir ctx
                         ++ "': " ++ Error cause)).
Proof.
  pose proof (appContext_cases c f w) as H0.
  destruct (contextOf c f) as [ctx0|] eqn:Hctx.
  2: { rewrite H0. simpl. split; [apply os_facts.madeDirs_refl|].
       split; [discriminate|]. intros ctx e Hc. discriminate. }
  destruct (os_facts.MkdirAll_effects (CacheDir ctx0) w) as [Hmade Hdir].
  destruct (os.MkdirAll (CacheDir ctx0) w) as [[u|e0] w'] eqn:Hm;
    rewrite H0; simpl in Hmade, Hdir |- *.
  - split; [exact Hmade|]. split.
    + intros ctx w1 H. injection H as <- <-.
      split; [exact (Hdir u eq_refl)|].
      pose proof (appContext_cases c f w') as H1. rewrite Hctx in H1.
      rewrite H1, (os_facts.MkdirAll_there _ _ (Hdir u eq_refl)). reflexivity.
    + intros ctx e _ He. discriminate.
  - split; [exact Hmade|]. split; [discriminate|].
    intros ctx e Hc He. injection Hc as <-. injection He as <-.
    exists e0. rewrite Hm. split; reflexivity.
Qed.

Lemma appContext_cache_dir_witness :
  let c := Sample.mkCore Sample.rootOk (Sample.graph1 Sample.rootOk) in
  let f := Sample.mkFile "D" "dep" "ok" in
  let blocked := setFiles {[ "/data/cache" := Raw (Text "in the way") ]}
                   Sample.emptyWorld in
  (exists cause,
      fst (os.MkdirAll "/data/cache/D" blocked) = Err cause
      /\ Errorf "error making cache directory '/data/cache/D': mkdir /data/cache: not a directory"
         = Errorf ("error making cache directory '/data/cache/D': " ++ Error cause))
  /\ os.IsDir "/data/cache/D" (snd (appContext c f Sample.emptyWorld)) = true.
Proof.
  intros c f blocked. split.
  - apply (proj2 (proj2 (appContext_cache_dir c f blocked))
             (Sample.depCtx "D" "dep" "ok")).
    + vm_compute. reflexivity.
    + vm_compute. reflexivity.
  - apply (proj1 (proj2 (appContext_cache_dir c f Sample.emptyWorld))
             (Sample.depCtx "D" "dep" "ok")).
    vm_compute. reflexivity.
Defined.

(** ** [walk]: what a failing callback returns *)

(** X2. A vertex whose Appfile cannot be loaded, or whose app cannot be
    resolved, makes the callback of [walk] return the error behind the
    vertex's name ("Error loading Appfile for '<name>': ...", "Error loading
    App implementation for '<name>': ...") and set the stop flag, and the
    user callback is not called: the result does not depend on it. An error
    of the user callback itself is returned as it is, again with the flag
    set. *)
Theorem walkRun_load_errors {S : Type} (c : Core)
    (f : App -> Context -> bool -> S -> M S) (root v : nat)
    (x : CompiledGraphVertex) (vars : WalkVars S) :
  (ActiveInfrastructure (vertex_File x) = None ->
   walkRun c f root v x false vars
   = (Some (Errorf ("Error loading Appfile for '" ++ NameValue x
                    ++ "': infrastructure not found in appfile: "
                    ++ proj_Infrastructure (file_Project (vertex_File x)))),
      {| stop := 1%Z; captured := captured vars; world := world vars |}))
  /\ (forall ctx w1,
        appContext c (vertex_File x) (world vars) = (Ok ctx, w1) ->
        apps c (ctx_Tuple ctx) = None ->
        walkRun c f root v x false vars
        = (Some (Errorf ("Error loading App implementation for '" ++ NameValue x
                         ++ "': app implementation for tuple not found: "
                         ++ TupleString (ctx_Tuple ctx))),
           {| stop := 1%Z; captured := captured vars; world := w1 |}))
  /\ (forall ctx a w1 w2 e w3,
        appContext c (vertex_File x) (world vars) = (Ok ctx, w1) ->
        app c ctx w1 = (Ok a, w2) ->
        f a ctx (Nat.eqb v root) (captured vars) w2 = (Err e, w3) ->
        walkRun c f root v x false vars
        = (Some e, {| stop := 1%Z; captured := captured vars; world := w3 |})).
Proof.
  split; [|split].
  - intros Hnone. unfold walkRun, walkBody, bind, wrapErr, appContext.
    rewrite Hnone. reflexivity.
  - intros ctx w1 Hc Hnone. unfold walkRun, walkBody, bind, wrapErr.
    rewrite Hc. unfold app. rewrite Hnone. reflexivity.
  - intros ctx a w1 w2 e w3 Hc Ha Hf.
    rewrite (walkRun_body _ _ _ _ _ _ _ _ _ _ Hc Ha), Hf. reflexivity.
Qed.

Lemma walkRun_load_errors_witness :
  let c := Sample.mkCore Sample.rootOk (Sample.graph1 Sample.rootOk) in
  let vars := {| stop := 0%Z; captured := []; world := Sample.emptyWorld |} in
  walkRun c (compileCallback c) 0 1 (Sample.vertex Sample.noInfraFile) false vars
  = (Some (Errorf "Error loading Appfile for 'lonely': infrastructure not found in appfile: gce"),
     {| stop := 1%Z; captured := []; world := Sample.emptyWorld |})
  /\ fst (walkRun c (compileCallback c) 0 1
            (Sample.vertex (Sample.mkFile "D" "dep" "unknown")) false vars)
     = Some (Errorf "Error loading App implementation for 'dep': app implementation for tuple not found: (unknown, aws, simple)").
Proof.
  intros c vars. split.
  - apply (proj1 (walkRun_load_errors c (compileCallback c) 0 1
                    (Sample.vertex Sample.noInfraFile) vars)).
    reflexivity.
  - rewrite (proj1 (proj2 (walkRun_load_errors c (compileCallback c) 0 1
                             (Sample.vertex (Sample.mkFile "D" "dep" "unknown")) vars))
               (Sample.depCtx "D" "dep" "unknown")
               (snd (appContext c (Sample.mkFile "D" "dep" "unknown") Sample.emptyWorld)));
      [reflexivity | vm_compute; reflexivity | reflexivity].
Defined.

(** ** [Compile]: before the walk *)

(** X3. Every error [Compile] returns comes from before the walk. When the
    infrastructure cannot be resolved, [Compile] returns that error having
    deleted nothing; and whenever [Compile] returns an error, no application
    factory was started and no application operation called. *)
Theorem Compile_errors_before_walk (c : Core) (sched : list walker.Step) (w : World) :
  (forall e, fst (infra c w) = Err e ->
             fst (Compile c sched w) = Err e
             /\ files (snd (Compile c sched w)) = files w
             /\ dirs (snd (Compile c sched w)) = dirs w)
  /\ (forall e, fst (Compile c sched w) = Err e ->
                exists new,
                  trace (snd (Compile c sched w)) = (trace w ++ new)%list
                  /\ List.filter isAppEvent new = []).
Proof.
  split.
  - intros e He. unfold Compile, bind.
    destruct (infra c w) as [[ic|e'] w1] eqn:Hi; simpl in He; [discriminate|].
    injection He as ->. apply infra_world in Hi as (Hf & Hd & _). auto.
  - intros e. unfold Compile, bind.
    destruct (infra c w) as [[ic|e'] w1] eqn:Hi;
      apply infra_world in Hi as (_ & _ & _ & _ & Ht).
    2: { intros _. simpl. destruct Ht as [Ht|Ht]; rewrite Ht.
         - exists []. rewrite app_nil_r. auto.
         - eexists. split; [reflexivity|reflexivity]. }
    assert (Hpre : exists pre, trace w1 = (trace w ++ pre)%list
                               /\ List.filter isAppEvent pre = []).
    { destruct Ht as [Ht|Ht]; rewrite Ht.
      - exists []. rewrite app_nil_r. auto.
      - eexists. split; [reflexivity|reflexivity]. }
    destruct Hpre as (pre & Hpre & Hno).
    destruct (os_facts.RemoveAll_quiet (compileDir c) w1) as (Ht2 & _).
    destruct (os.RemoveAll (compileDir c) w1) as [[u|e'] w2]; simpl in Ht2.
    2: { intros _. simpl. exists pre. rewrite Ht2. auto. }
    unfold callInfraCompile, bind, log, lift. simpl.
    destruct (infra_Compile (fst ic) (snd ic)) as [r|e'].
    + destruct (walk c (compileCallback c) sched [] _) as [[err results] w4].
      simpl. discriminate.
    + intros _. simpl. exists (pre ++ [EvInfraCompile (snd ic)])%list.
      rewrite Ht2, Hpre, <- app_assoc. split; [reflexivity|].
      rewrite List.filter_app, Hno. reflexivity.
Qed.

Lemma Compile_errors_before_walk_witness :
  let c := Sample.mkCore (Sample.noInfraFile) (Sample.graph1 Sample.noInfraFile) in
  let w := setFiles {[ "/tmp/compile/stale.txt" := Raw (Text "stale") ]}
             Sample.emptyWorld in
  fst (Compile c [] w) = Err (Errorf "infrastructure type not supported: gce")
  /\ files (snd (Compile c [] w)) = files w
  /\ dirs (snd (Compile c [] w)) = dirs w.
Proof.
  intros c w.
  apply (proj1 (Compile_errors_before_walk c [] w)). reflexivity.
Defined.

(** ** The order of a walk *)

Lemma forallb_false_exists {A} (f : A -> bool) (l : list A) :
  forallb f l = false -> exists x, In x l /\ f x = false.
Proof.
  induction l as [|a l IH]; simpl; [discriminate|].
  destruct (f a) eqn:E; simpl.
  - intros H. destruct (IH H) as (x & Hx & Hf). eauto.
  - intros _. eauto.
Qed.

Module walker_order.
Import walker.

Section Order.

Context {St Local : Type}.
Variable g : dag.Graph.
Variable cbStart : nat -> CompiledGraphVertex -> St -> Local.
Variable cbRun : nat -> CompiledGraphVertex -> Local -> St -> option error * St.
Hypothesis inRange : edgesInRange g.

Local Abbreviation State := (@State St Local).
Local Abbreviation step := (step g cbStart cbRun).
Local Abbreviation run := (run g cbStart cbRun).

Lemma orderly_init sh : orderly g (init g sh : State).
Proof.
  assert (Hall : forall v s,
             List.map (fun _ => @Waiting Local) (dag.Vertices g) !! v = Some s ->
             s = Waiting).
  { intros v s. rewrite list_lookup_fmap.
    destruct (dag.Vertices g !! v); simpl; congruence. }
  constructor; simpl.
  - apply length_map.
  - intros v s H Hs. apply Hall in H. subst. discriminate.
  - intros v e H. apply Hall in H. discriminate.
  - intros v H. apply Hall in H. discriminate.
Qed.

Lemma orderly_start (st : State) v (s : @Status Local) :
  orderly g st ->
  status st !! v = Some Waiting ->
  depsFinished g st v = true ->
  (depsSucceeded g st v = false /\ s = Skipped
   \/ depsSucceeded g st v = true /\ exists l, s = Running l) ->
  orderly g (setStatus v s st).
Proof.
  intros [Hlen Hdeps Herrs Hskip] Hv Hfin Hs.
  assert (Hother : forall u t, <[v := s]> (status st) !! u = Some t ->
                               (u = v /\ t = s) \/ (u <> v /\ status st !! u = Some t)).
  { intros u t H. apply list_lookup_insert_Some in H as [(-> & -> & _)|(Hne & H)]; auto. }
  assert (Hkeep : forall u t, status st !! u = Some t -> t <> Waiting ->
                              <[v := s]> (status st) !! u = Some t).
  { intros u t H Ht. rewrite list_lookup_insert_ne; [exact H|]. congruence. }
  constructor; simpl.
  - rewrite length_insert. exact Hlen.
  - intros u t Hu Ht d Hd.
    assert (Hd' : status st !! d = Some (Done None)).
    { apply Hother in Hu as [[-> ->]|[_ Hu]].
      - destruct Hs as [[_ ->]|[Hok _]]; [discriminate|].
        unfold depsSucceeded in Hok. rewrite forallb_forall in Hok.
        specialize (Hok d Hd). unfold statusOf in Hok.
        destruct (status st !! d) as [[| |[e|]|]|]; try discriminate. reflexivity.
      - exact (Hdeps u t Hu Ht d Hd). }
    apply Hkeep; [exact Hd'|discriminate].
  - intros u e Hu. apply Hother in Hu as [[_ Hu]|[_ Hu]].
    + destruct Hs as [[_ ->]|[_ [l ->]]]; discriminate.
    + exact (Herrs u e Hu).
  - intros u Hu. apply Hother in Hu as [[-> Hu]|[_ Hu]]; [|exact (Hskip u Hu)].
    destruct Hs as [[Hfail _]|[_ [l ->]]]; [|discriminate].
    unfold depsSucceeded in Hfail.
    apply forallb_false_exists in Hfail as (d & Hd & Hbad).
    unfold depsFinished in Hfin. rewrite forallb_forall in Hfin.
    specialize (Hfin d Hd).
    assert (Hin : In (v, d) (dag.Edges g)) by (apply in_DownEdges, Hd).
    destruct (inRange v d Hin) as [_ Hlt].
    destruct (lookup_lt_is_Some_2 (status st) d ltac:(lia)) as [sd Hsd].
    unfold statusOf in Hfin, Hbad. rewrite Hsd in Hfin, Hbad.
    destruct sd as [|l|[e|]|]; try discriminate.
    + intros Hnil. pose proof (Herrs d e Hsd) as Hin'. rewrite Hnil in Hin'.
      destruct Hin'.
    + exact (Hskip d Hsd).
Qed.

Lemma orderly_finish (st : State) v l err sh :
  orderly g st ->
  status st !! v = Some (Running l) ->
  orderly g ({| status := <[v := Done err]> (status st);
                shared := sh;
                errs := match err with
                        | Some e => (errs st ++ [e])%list
                        | None => errs st
                        end |} : State).
Proof.
  intros [Hlen Hdeps Herrs Hskip] Hv.
  assert (Hlt : v < length (status st)) by (eapply lookup_lt_Some; eauto).
  assert (Hother : forall u t, <[v := Done err]> (status st) !! u = Some t ->
                     (u = v /\ t = Done err) \/ (u <> v /\ status st !! u = Some t)).
  { intros u t H. apply list_lookup_insert_Some in H as [(-> & -> & _)|(Hne & H)]; auto. }
  assert (Hkeep : forall u t, status st !! u = Some t ->
                              (forall l', t <> Running l') ->
                              <[v := Done err]> (status st) !! u = Some t).
  { intros u t H Ht. rewrite list_lookup_insert_ne; [exact H|].
    intros <-. rewrite Hv in H. injection H as <-. exact (Ht l eq_refl). }
  assert (Hgrow : forall e, In e (errs st) ->
                            In e (match err with
                                  | Some e' => (errs st ++ [e'])%list
                                  | None => errs st
                                  end)).
  { intros e He. destruct err; [apply in_or_app; left|]; exact He. }
  constructor; simpl.
  - rewrite length_insert. exact Hlen.
  - intros u t Hu Ht d Hd.
    assert (Hd' : status st !! d = Some (Done None)).
    { apply Hother in Hu as [[-> _]|[_ Hu]].
      - exact (Hdeps v (Running l) Hv eq_refl d Hd).
      - exact (Hdeps u t Hu Ht d Hd). }
    apply Hkeep; [exact Hd'|discriminate].
  - intros u e Hu. apply Hother in Hu as [[_ Hu]|[_ Hu]].
    + injection Hu as <-. apply in_or_app. right. left. reflexivity.
    + apply Hgrow, (Herrs u e Hu).
  - intros u Hu. apply Hother in Hu as [[_ Hu]|[_ Hu]]; [discriminate|].
    pose proof (Hskip u Hu) as Hne.
    destruct err; [|exact Hne]. destruct (errs st); [congruence|discriminate].
Qed.

Lemma orderly_step (st : State) a : orderly g st -> orderly g (step st a).
Proof.
  intros Hord. destruct a as [v|v]; cbn [walker.step].
  - destruct (dag.Vertices g !! v) as [x|]; [|exact Hord].
    destruct (status st !! v) as [[| | |]|] eqn:Hv; try exact Hord.
    destruct (depsFinished g st v) eqn:Hf; [|exact Hord].
    destruct (depsSucceeded g st v) eqn:Hd.
    + apply orderly_start; eauto.
    + apply orderly_start; eauto.
  - destruct (dag.Vertices g !! v) as [x|]; [|exact Hord].
    destruct (status st !! v) as [[|l| |]|] eqn:Hv; try exact Hord.
    destruct (cbRun v x l (shared st)) as [err sh].
    apply (orderly_finish st v l err sh Hord Hv).
Qed.

Lemma orderly_run sched sh : orderly g (run (init g sh) sched).
Proof.
  apply (walker_facts.run_invariant g cbStart cbRun (orderly g)).
  - intros st a. apply orderly_step.
  - apply orderly_init.
Qed.

(** Once a callback has started, everything its vertex depends on, at any
    distance, has returned nil. *)
Lemma started_deps_done (st : State) root s v :
  orderly g st ->
  status st !! root = Some s -> started s = true ->
  reaches g root v ->
  v = root \/ status st !! v = Some (Done None).
Proof.
  intros Hord Hroot Hs Hreach.
  induction Hreach as [a|a b d Hab IH Hd]; [left; reflexivity|].
  right. destruct (IH Hroot) as [Heq|Hb].
  - rewrite Heq in Hd. exact (ord_deps _ _ Hord a s Hroot Hs d Hd).
  - exact (ord_deps _ _ Hord b (Done None) Hb eq_refl d Hd).
Qed.

End Order.

End walker_order.

(** ** [Compile]: the walk as a whole *)

(** What one callback of a [Compile] walk does, case by case: it saw the
    flag set and did nothing; or it failed before [app.Compile]; or it called
    [app.Compile] after the factory and the message. *)
Lemma walkRun_compile_cases c root v x l (vars : WalkVars (list CompileResult)) :
  let out := walkRun c (compileCallback c) root v x l vars in
  (l = true /\ out = (None, vars))
  \/ (l = false
      /\ (exists e, fst out = Some e)
      /\ stop (snd out) = 1%Z
      /\ captured (snd out) = captured vars
      /\ (trace (world (snd out)) = trace (world vars)
          \/ exists t, trace (world (snd out))
                       = (trace (world vars) ++ [EvAppFactory t])%list))
  \/ (l = false
      /\ exists ctx a,
          contextOf c (vertex_File x) = Some ctx
          /\ appOf c ctx = Some a
          /\ let ctx' := if Nat.eqb v root
                         then setDevDepFragments (fragmentPaths (captured vars)) ctx
                         else ctx in
             trace (world (snd out))
             = (trace (world vars)
                  ++ [EvAppFactory (ctx_Tuple ctx);
                      EvMessage (compileMessage (Nat.eqb v root) ctx);
                      EvAppCompile ctx'])%list
             /\ match app_Compile a ctx' with
                | Ok r => fst out = None
                          /\ stop (snd out) = stop vars
                          /\ captured (snd out) = (captured vars ++ [r])%list
                | Err e => fst out = Some e
                           /\ stop (snd out) = 1%Z
                           /\ captured (snd out) = captured vars
                end).
Proof.
  intros out. subst out. unfold walkRun.
  destruct l; [left; auto|right].
  destruct (walkBody_cases c (compileCallback c) root v x (captured vars) (world vars))
    as [(e & w1 & Hb & _ & _ & Ht)|(ctx & a & w1 & Hctx & Happ & _ & _ & _ & Ht & Hb)];
    rewrite Hb.
  - left. simpl. repeat split; eauto.
  - right. split; [reflexivity|]. exists ctx, a.
    split; [exact Hctx|]. split; [exact Happ|].
    rewrite compileCallback_eq. cbv zeta.
    destruct (app_Compile a _) as [r|e]; simpl; rewrite Ht, <- !app_assoc; simpl; auto.
Qed.

Section CompileOrder.

Variable c : Core.
Variable root : nat.
Variable w0 : World.

Local Abbreviation g := (Graph (appfileCompiled c)).
Local Abbreviation wstep := (walker.step g walkStart (walkRun c (compileCallback c) root)).
Local Abbreviation wrun := (walker.run g walkStart (walkRun c (compileCallback c) root)).
Local Abbreviation start := (walker.init g {| stop := 0; captured := []; world := w0 |}).

Lemma compileCalls_run sched : compileCalls c w0 (walker.shared (wrun start sched)).
Proof.
  apply (walker_facts.run_shared_invariant g walkStart
           (walkRun c (compileCallback c) root) (compileCalls c w0)).
  - intros v x l vars (new & Ht & Hres). unfold compileCalls.
    destruct (walkRun_compile_cases c root v x l vars)
      as [(_ & Hout)|[(_ & _ & Hstop & _ & Htr)|(_ & ctx & a & Hctx & Happ & Htr & Hr)]].
    + rewrite Hout. exists new. auto.
    + destruct Htr as [Htr|[t Htr]]; rewrite Htr, Ht.
      * exists new. split; [reflexivity|]. rewrite Hstop. discriminate.
      * exists (new ++ [EvAppFactory t])%list. rewrite <- app_assoc.
        split; [reflexivity|]. rewrite Hstop. discriminate.
    + cbv zeta in Htr, Hr. rewrite Htr, Ht, <- app_assoc.
      eexists. split; [reflexivity|].
      rewrite List.filter_app. simpl.
      destruct (app_Compile a _) as [r|e] eqn:Hc.
      * destruct Hr as (_ & Hstop & Hcap). rewrite Hstop, Hcap. intros H0.
        apply Forall2_app; [exact (Hres H0)|].
        constructor; [|constructor].
        eexists _, a. split; [reflexivity|]. split; [|exact Hc].
        destruct (Nat.eqb v root); exact Happ.
      * destruct Hr as (_ & Hstop & _). rewrite Hstop. discriminate.
  - exists []. simpl. rewrite app_nil_r. split; [reflexivity|]. constructor.
Qed.

Lemma announcedByRoot_step (st : walkState (list CompileResult)) a :
  announcedByRoot root w0 st -> announcedByRoot root w0 (wstep st a).
Proof.
  intros (new & Ht & Hann). unfold announcedByRoot.
  destruct (walker_facts.step_cases g walkStart (walkRun c (compileCallback c) root) st a)
    as [(Hs & _ & Hst)|(v & x & l & _ & Hx & Hv & Hs & Hst & _)].
  - exists new. rewrite Hs. split; [exact Ht|].
    intros Hne. destruct (Hann Hne) as [e He]. exists e.
    destruct (Hst root) as [Heq|(_ & Hw & _)]; congruence.
  - assert (Hlt : v < length (walker.status st)) by (eapply lookup_lt_Some; eauto).
    assert (Hkeep : (exists e, walker.status st !! root = Some (walker.Done e)) ->
                    exists e, walker.status (wstep st a) !! root = Some (walker.Done e)).
    { intros [e He]. rewrite Hst. destruct (Nat.eq_dec v root) as [->|Hne].
      - rewrite list_lookup_insert_eq by exact Hlt. eauto.
      - rewrite list_lookup_insert_ne by exact Hne. eauto. }
    assert (Hroot : v = root ->
                    exists e, walker.status (wstep st a) !! root = Some (walker.Done e)).
    { intros <-. rewrite Hst, list_lookup_insert_eq by exact Hlt. eauto. }
    rewrite Hs.
    destruct (walkRun_compile_cases c root v x l (walker.shared st))
      as [(_ & Hout)|[(_ & _ & _ & _ & Htr)|(_ & ctx & a' & _ & _ & Htr & _)]].
    + rewrite Hout. exists new. split; [exact Ht|]. intros Hne. apply Hkeep, Hann, Hne.
    + destruct Htr as [Htr|[t Htr]]; rewrite Htr, Ht.
      * exists new. split; [reflexivity|]. intros Hne. apply Hkeep, Hann, Hne.
      * exists (new ++ [EvAppFactory t])%list. rewrite <- app_assoc.
        split; [reflexivity|]. rewrite List.filter_app. simpl. rewrite app_nil_r.
        intros Hne. apply Hkeep, Hann, Hne.
    + cbv zeta in Htr. rewrite Htr, Ht, <- app_assoc.
      eexists. split; [reflexivity|]. rewrite List.filter_app.
      destruct (Nat.eqb v root) eqn:Hvr.
      * intros _. apply Hroot, Nat.eqb_eq, Hvr.
      * match goal with
        | |- context [List.filter isMainAnnouncement (?e1 :: ?e2 :: ?e3 :: nil)] =>
            change (List.filter isMainAnnouncement (e1 :: e2 :: e3 :: nil))
              with (@nil Event)
        end.
        rewrite app_nil_r. intros Hne. apply Hkeep, Hann, Hne.
Qed.

Lemma announcedByRoot_run sched : announcedByRoot root w0 (wrun start sched).
Proof.
  apply (walker_facts.run_invariant g walkStart (walkRun c (compileCallback c) root)
           (announcedByRoot root w0)).
  - intros st a. apply announcedByRoot_step.
  - exists []. simpl. rewrite app_nil_r. split; [reflexivity|]. congruence.
Qed.

End CompileOrder.

Lemma sample_graph3_in_range r d1 d2 : edgesInRange (Sample.graph3 r d1 d2).
Proof.
  intros a b [H|[H|[]]]; injection H as <- <-; simpl; lia.
Qed.

Lemma sample_graph3_reaches r d1 d2 v :
  v < 3 -> reaches (Sample.graph3 r d1 d2) 0 v.
Proof.
  intros Hv. destruct v as [|[|[|v]]]; [constructor| | |lia].
  - apply (reaches_edge _ 0 0 1); [constructor|]. simpl. auto.
  - apply (reaches_edge _ 0 0 2); [constructor|]. simpl. auto.
Qed.

(** X5. A walk of [Compile] that returns no error compiled every vertex of
    the graph exactly once: in a graph without cycles whose edges join its
    vertices, the results are one per vertex, for every dependency the
    result of its own [Compile], and the calls of [app.Compile] the walk
    made are exactly the calls that returned these results, one call for
    each result. Nothing is said about the order of the calls of different
    vertices. *)
Theorem walk_compiles_every_vertex (c : Core) (rank : nat -> nat)
    (sched : list walker.Step) (w : World)
    (results : list CompileResult) (w' : World) :
  edgesInRange (Graph (appfileCompiled c)) ->
  (forall a b, In (a, b) (dag.Edges (Graph (appfileCompiled c))) -> rank b < rank a) ->
  (forall v, v < length (dag.Vertices (Graph (appfileCompiled c))) ->
             rank v < length (dag.Vertices (Graph (appfileCompiled c)))) ->
  walk c (compileCallback c) sched [] w = (None, results, w') ->
  exists root order new,
    dag.Root (Graph (appfileCompiled c)) = Ok root
    /\ order ≡ₚ seq 0 (length (dag.Vertices (Graph (appfileCompiled c))))
    /\ Forall2 (resultFor c (fst root)) order results
    /\ trace w' = (trace w ++ new)%list
    /\ exists calls,
         calls ≡ₚ List.filter isAppCompile new
         /\ Forall2 (compileCall c) calls results.
Proof.
  intros Hrange Hrank Hbound. unfold walk.
  destruct (dag.Root (Graph (appfileCompiled c))) as [root|e] eqn:Hroot; [|discriminate].
  cbv zeta. unfold walkFrom, walker.Walk.
  set (st := walker.run _ _ _ _ _).
  intros H. injection H as Herr Hres Hw.
  assert (Herrs : walker.errs st = []).
  { unfold walker.walkError in Herr. destruct (walker.errs st); [reflexivity|discriminate]. }
  pose proof (walker_order.orderly_run (Graph (appfileCompiled c)) walkStart
                (walkRun c (compileCallback c) (fst root)) Hrange
                (sched ++ walker.drain (Graph (appfileCompiled c)))
                {| stop := 0; captured := []; world := w |}) as Hord.
  fold st in Hord.
  pose proof (walker_facts.Walk_finishes (Graph (appfileCompiled c)) walkStart
                (walkRun c (compileCallback c) (fst root)) rank Hrank sched
                {| stop := 0; captured := []; world := w |} Hbound) as Hfin.
  unfold walker.Walk in Hfin. fold st in Hfin.
  pose proof (compileInv_run c (fst root)
                (sched ++ walker.drain (Graph (appfileCompiled c))) w) as Hinv.
  fold st in Hinv.
  pose proof (compileCalls_run c (fst root) w
                (sched ++ walker.drain (Graph (appfileCompiled c)))) as (new & Ht & Hcalls).
  fold st in Ht, Hcalls.
  assert (Hnone : forall v e, walker.status st !! v <> Some (walker.Done (Some e))).
  { intros v e Hv. pose proof (ord_errs _ _ Hord v e Hv) as Hin.
    rewrite Herrs in Hin. destruct Hin. }
  assert (Hdone : forall v, v < length (dag.Vertices (Graph (appfileCompiled c))) ->
                            walker.status st !! v = Some (walker.Done None)).
  { intros v Hv. rewrite <- (ord_length _ _ Hord) in Hv.
    destruct (lookup_lt_is_Some_2 _ _ Hv) as [s Hs].
    specialize (Hfin v). unfold walker.statusOf in Hfin. rewrite Hs in Hfin.
    destruct s as [|l|[e|]|]; try discriminate.
    - destruct (Hnone v e Hs).
    - exact Hs.
    - destruct (ord_skipped _ _ Hord v Hs Herrs). }
  assert (Hstop : stop (walker.shared st) = 0%Z).
  { destruct (Z.eq_dec (stop (walker.shared st)) 0%Z) as [H0|Hne]; [exact H0|].
    destruct (inv_flag _ _ _ Hinv Hne) as (v & e & Hv). destruct (Hnone v e Hv). }
  destruct (inv_results _ _ _ Hinv Hstop) as (order & Hnd & Hin & Hres').
  exists root, order, new. split; [reflexivity|].
  rewrite <- Hres, <- Hw. repeat split.
  - apply NoDup_Permutation; [exact Hnd|apply NoDup_seq|].
    intros v. rewrite Hin, elem_of_seq. split.
    + intros [e He]. apply lookup_lt_Some in He.
      rewrite (ord_length _ _ Hord) in He. lia.
    + intros [_ Hv]. exists None. apply Hdone. lia.
  - exact Hres'.
  - exact Ht.
  - exists (List.filter isAppCompile new). split; [reflexivity|exact (Hcalls Hstop)].
Qed.

Lemma walk_compiles_every_vertex_witness :
  let c := Sample.mkCore Sample.rootOk
             (Sample.graph3 Sample.rootOk (Sample.mkFile "D1" "one" "ok")
                (Sample.mkFile "D2" "two" "ok")) in
  let out := walk c (compileCallback c) [] [] Sample.emptyWorld in
  exists root order new,
    dag.Root (Graph (appfileCompiled c)) = Ok root
    /\ order ≡ₚ seq 0 (length (dag.Vertices (Graph (appfileCompiled c))))
    /\ Forall2 (resultFor c (fst root)) order (snd (fst out))
    /\ trace (snd out) = (trace Sample.emptyWorld ++ new)%list
    /\ exists calls,
         calls ≡ₚ List.filter isAppCompile new
         /\ Forall2 (compileCall c) calls (snd (fst out)).
Proof.
  intros c out.
  apply (walk_compiles_every_vertex c (fun v => match v with 0 => 1 | _ => 0 end)
           [] Sample.emptyWorld (snd (fst out)) (snd out)).
  - apply sample_graph3_in_range.
  - intros a b [H|[H|[]]]; injection H as <- <-; simpl; lia.
  - intros v Hv. simpl. destruct v; lia.
  - vm_compute. reflexivity.
Defined.

(** X6. When a dependency fails, the main application is not compiled. In
    a graph whose edges join its vertices and whose root reaches every
    vertex, at any moment of a [Compile] walk at which the callback of a
    vertex other than the root has returned an error, the root's callback
    has not started, and [Compiling main application...] is not among the
    messages of the walk. *)
Theorem Compile_failed_dependency_blocks_root (c : Core) (root : nat)
    (sched : list walker.Step) (w : World) (v : nat) (e : error) :
  let st := walker.run (Graph (appfileCompiled c)) walkStart
              (walkRun c (compileCallback c) root)
              (walker.init (Graph (appfileCompiled c))
                 {| stop := 0%Z; captured := []; world := w |}) sched in
  edgesInRange (Graph (appfileCompiled c)) ->
  (forall u, u < length (dag.Vertices (Graph (appfileCompiled c))) ->
             reaches (Graph (appfileCompiled c)) root u) ->
  v <> root ->
  walker.status st !! v = Some (walker.Done (Some e)) ->
  started (walker.statusOf st root) = false
  /\ exists new,
       trace (world (walker.shared st)) = (trace w ++ new)%list
       /\ List.filter isMainAnnouncement new = [].
Proof.
  intros st Hrange Hreach Hne Hv.
  pose proof (walker_order.orderly_run (Graph (appfileCompiled c)) walkStart
                (walkRun c (compileCallback c) root) Hrange sched
                {| stop := 0; captured := []; world := w |}) as Hord.
  fold st in Hord.
  assert (Hroot : forall s, walker.status st !! root = Some s -> started s = false).
  { intros s Hs. destruct (started s) eqn:Hst; [|reflexivity].
    assert (Hlt : v < length (dag.Vertices (Graph (appfileCompiled c)))).
    { rewrite <- (ord_length _ _ Hord). eapply lookup_lt_Some; eauto. }
    destruct (walker_order.started_deps_done (Graph (appfileCompiled c)) st root s v
                Hord Hs Hst (Hreach v Hlt)) as [Heq|Hd]; congruence. }
  split.
  - unfold walker.statusOf. destruct (walker.status st !! root) as [s|] eqn:Hs;
      [exact (Hroot s eq_refl)|reflexivity].
  - destruct (announcedByRoot_run c root w sched) as (new & Ht & Hann).
    fold st in Ht, Hann. exists new. split; [exact Ht|].
    destruct (List.filter isMainAnnouncement new) as [|m ms] eqn:Hf; [reflexivity|].
    destruct (Hann ltac:(discriminate)) as [e' He'].
    specialize (Hroot _ He'). discriminate.
Qed.

Lemma Compile_failed_dependency_blocks_root_witness :
  let c := Sample.mkCore Sample.rootOk
             (Sample.graph3 Sample.rootOk (Sample.mkFile "D1" "one" "bad")
                (Sample.mkFile "D2" "two" "ok")) in
  let st := walker.run (Graph (appfileCompiled c)) walkStart
              (walkRun c (compileCallback c) 0)
              (walker.init (Graph (appfileCompiled c))
                 {| stop := 0%Z; captured := []; world := Sample.emptyWorld |})
              [walker.Start 1; walker.Run 1; walker.Start 2; walker.Run 2;
               walker.Start 0; walker.Run 0] in
  started (walker.statusOf st 0) = false
  /\ exists new,
       trace (world (walker.shared st)) = (trace Sample.emptyWorld ++ new)%list
       /\ List.filter isMainAnnouncement new = [].
Proof.
  intros c st.
  apply (Compile_failed_dependency_blocks_root c 0
           [walker.Start 1; walker.Run 1; walker.Start 2; walker.Run 2;
            walker.Start 0; walker.Run 0]
           Sample.emptyWorld 1 (Errorf "compile failed: one")).
  - apply sample_graph3_in_range.
  - intros u Hu. apply sample_graph3_reaches. exact Hu.
  - discriminate.
  - vm_compute. reflexivity.
Defined.

(** ** [creds]: what it touches *)

Lemma onlyCredsEvents_trans w1 w2 w3 :
  onlyCredsEvents w1 w2 -> onlyCredsEvents w2 w3 -> onlyCredsEvents w1 w3.
Proof.
  intros (n1 & H1 & F1) (n2 & H2 & F2). exists (n1 ++ n2)%list.
  rewrite H2, H1, <- app_assoc. split; [reflexivity|].
  apply Forall_app. split; assumption.
Qed.

Lemma onlyCredsEvents_new w w' new :
  trace w' = (trace w ++ new)%list ->
  forallb isCredsEvent new = true ->
  onlyCredsEvents w w'.
Proof.
  intros Ht Hf. exists new. split; [exact Ht|].
  apply List.Forall_forall. intros e He.
  rewrite forallb_forall in Hf. exact (Hf e He).
Qed.

Lemma onlyCredsEvents_no_app w w' :
  onlyCredsEvents w w' ->
  exists new, trace w' = (trace w ++ new)%list /\ List.filter isAppEvent new = [].
Proof.
  intros (new & Ht & Hf). exists new. split; [exact Ht|].
  clear Ht. induction Hf as [|e l He _ IH]; [reflexivity|].
  simpl. rewrite IH. destruct e; try discriminate; reflexivity.
Qed.

Lemma askPasswordLoop_effects fuel : forall w,
  files (snd (askPasswordLoop fuel w)) = files w
  /\ dirs (snd (askPasswordLoop fuel w)) = dirs w
  /\ denied (snd (askPasswordLoop fuel w)) = denied w
  /\ (exists n, trace (snd (askPasswordLoop fuel w))
                = (trace w ++ repeat (EvInput encryptOpts) n)%list)
  /\ (forall pw, fst (askPasswordLoop fuel w) = Ok pw -> pw <> "").
Proof.
  induction fuel as [|fuel IH]; intros w; simpl.
  - refine (conj eq_refl (conj eq_refl (conj eq_refl (conj _ _)))).
    + exists 0. simpl. rewrite app_nil_r. reflexivity.
    + discriminate.
  - unfold bind, ui.Input. simpl.
    destruct (answers w) as [|[a|e] rest]; simpl.
    + refine (conj eq_refl (conj eq_refl (conj eq_refl (conj _ _)))).
      * exists 1. reflexivity.
      * discriminate.
    + destruct (String.eqb a "") eqn:Ea.
      * destruct (IH (setAnswers rest (emit (EvInput encryptOpts) w)))
          as (Hf & Hd & Hn & [n Ht] & Hpw).
        simpl in Hf, Hd, Hn, Ht.
        refine (conj Hf (conj Hd (conj Hn (conj _ Hpw)))).
        exists (Datatypes.S n). rewrite Ht, <- app_assoc. reflexivity.
      * unfold ret. simpl.
        refine (conj eq_refl (conj eq_refl (conj eq_refl (conj _ _)))).
        -- exists 1. reflexivity.
        -- intros pw H. injection H as <-. apply String.eqb_neq, Ea.
    + refine (conj eq_refl (conj eq_refl (conj eq_refl (conj _ _)))).
      * exists 1. reflexivity.
      * discriminate.
Qed.

Lemma inputs_are_creds_events o n :
  forallb isCredsEvent (repeat (EvInput o) n) = true.
Proof. induction n as [|n IH]; [reflexivity|exact IH]. Qed.

(** The re-acquisition block: it calls [infra.Creds], asks for the new
    password until it is not empty, and writes the file once, last. *)
Lemma credsAcquire_effects path i infraCtx w :
  let out := credsAcquire path i infraCtx w in
  dirs (snd out) = dirs w
  /\ denied (snd out) = denied w
  /\ (exists n, trace (snd out)
                = (trace w ++ [EvMessage credsMissingNotice; EvInfraCreds infraCtx]
                     ++ repeat (EvInput encryptOpts) n)%list)
  /\ ((files (snd out) = files w /\ exists e, fst out = Err e)
      \/ exists pw m,
           pw <> ""
           /\ infra_Creds i infraCtx = Ok m
           /\ fst out = Ok m
           /\ files (snd out) = <[path := Envelope pw (JSON m)]> (files w)).
Proof.
  intros out. subst out.
  unfold credsAcquire, bind, ui.Message, callInfraCreds, log, lift. simpl.
  destruct (infra_Creds i infraCtx) as [m|e]; simpl.
  2: { refine (conj eq_refl (conj eq_refl (conj _ _))).
       - exists 0. simpl. rewrite <- app_assoc. reflexivity.
       - left. eauto. }
  unfold askPassword.
  match goal with
  | |- context [askPasswordLoop ?n ?w0] =>
      destruct (askPasswordLoop_effects n w0) as (Hf & Hd & Hn & [k Ht] & Hpw);
      destruct (askPasswordLoop n w0) as [[pw|e] w1]
  end; simpl in Hf, Hd, Hn, Ht, Hpw |- *.
  2: { refine (conj Hd (conj Hn (conj _ _))).
       - exists k. rewrite Ht, <- !app_assoc. reflexivity.
       - left. eauto. }
  unfold wrapErr, cryptWrite, os.WriteFile, ret.
  destruct (bool_decide (path ∈ dirs w1)); simpl.
  { refine (conj Hd (conj Hn (conj _ _))).
    - exists k. rewrite Ht, <- !app_assoc. reflexivity.
    - left. eauto. }
  destruct (bool_decide (path ∈ denied w1)); simpl.
  { refine (conj Hd (conj Hn (conj _ _))).
    - exists k. rewrite Ht, <- !app_assoc. reflexivity.
    - left. eauto. }
  refine (conj Hd (conj Hn (conj _ _))).
  - exists k. rewrite Ht, <- !app_assoc. reflexivity.
  - right. exists pw, m. rewrite Hf. unfold json.Marshal. auto.
Qed.

(** The block for the cached file: one notice, one prompt, and nothing
    else; it ends in an error, in the early return, or in the fall through
    with no credentials. *)
Lemma credsCached_effects path infraCtx w :
  let out := credsCached path infraCtx w in
  files (snd out) = files w
  /\ dirs (snd out) = dirs w
  /\ denied (snd out) = denied w
  /\ trace (snd out)
     = (trace w ++ [EvMessage credsFoundNotice; EvInput decryptOpts])%list
  /\ ((exists e, fst out = Err e)
      \/ fst out = Ok (inl infraCtx)
      \/ fst out = Ok (inr None)).
Proof.
  intros out. subst out.
  unfold credsCached, bind, ui.Message, ui.Input, log. simpl.
  destruct (answers w) as [|[a|e] rest]; simpl.
  - rewrite <- app_assoc. simpl. eauto 10.
  - destruct (String.eqb a ""); simpl.
    + unfold ret. simpl. rewrite <- app_assoc. simpl. auto 10.
    + unfold wrapErr, cryptRead, lift, ret, bind. simpl.
      destruct (files w !! path) as [[b|pw b|d]|]; simpl;
        rewrite <- ?app_assoc; simpl; eauto 10.
      destruct (String.eqb pw a); simpl; rewrite <- ?app_assoc; simpl; eauto 10.
      destruct (json.Unmarshal b); simpl; rewrite <- ?app_assoc; simpl; eauto 10.
  - rewrite <- app_assoc. simpl. eauto 10.
Qed.

(** [creds], branch by branch. *)
Lemma creds_unfold c i infraCtx w :
  let path := filepath.Join [localDir c; "creds"] in
  let w1 := emit (EvHeader "Detecting infrastructure credentials...") w in
  let acquire w2 :=
    match credsAcquire path i infraCtx w2 with
    | (Ok m, w3) => (Ok (setInfraCreds m infraCtx), w3)
    | (Err e, w3) => (Err e, w3)
    end in
  creds c i infraCtx w
  = if os.exists_ path w then
      match credsCached path infraCtx w1 with
      | (Err e, w2) => (Err e, w2)
      | (Ok (inl ctx), w2) => (Ok ctx, w2)
      | (Ok (inr (Some m)), w2) => (Ok (setInfraCreds (Some m) infraCtx), w2)
      | (Ok (inr None), w2) => acquire w2
      end
    else
      match os.MkdirAll (filepath.Dir path) w1 with
      | (Err e, w2) => (Err e, w2)
      | (Ok _, w2) => acquire w2
      end.
Proof.
  intros path w1 acquire. subst acquire. unfold creds. fold path.
  unfold bind at 1. unfold ui.Header, log. cbv beta iota. fold w1.
  unfold bind at 1. unfold os.Stat.
  change (os.exists_ path w1) with (os.exists_ path w).
  destruct (os.exists_ path w).
  - unfold bind at 1.
    destruct (credsCached path infraCtx w1) as [[[ctx|[m|]]|e] w2]; reflexivity.
  - unfold bind at 1. unfold bind at 2. unfold ret at 2.
    destruct (os.MkdirAll (filepath.Dir path) w1) as [[u|e] w2]; reflexivity.
Qed.

(** The tail of [creds] that acquires new credentials, from a world [w2]
    that [creds] reached from [w] without touching a file. *)
Lemma creds_acquire_effects path i infraCtx w w2 :
  files w2 = files w -> denied w2 = denied w -> onlyCredsEvents w w2 ->
  let out := match credsAcquire path i infraCtx w2 with
             | (Ok m, w3) => (Ok (setInfraCreds m infraCtx), w3)
             | (Err e, w3) => (Err e, w3)
             end in
  denied (snd out) = denied w
  /\ dirs (snd out) = dirs w2
  /\ onlyCredsEvents w (snd out)
  /\ ((files (snd out) = files w
       /\ forall ctx, fst out = Ok ctx -> ctx = infraCtx)
      \/ exists pw m,
           pw <> ""
           /\ infra_Creds i infraCtx = Ok m
           /\ fst out = Ok (setInfraCreds m infraCtx)
           /\ files (snd out) = <[path := Envelope pw (JSON m)]> (files w)).
Proof.
  intros Hf Hn Hev out. subst out.
  destruct (credsAcquire_effects path i infraCtx w2) as (Hd3 & Hn3 & [k Ht3] & Hfiles).
  assert (Hev3 : onlyCredsEvents w (snd (credsAcquire path i infraCtx w2))).
  { apply (onlyCredsEvents_trans w w2); [exact Hev|].
    eapply onlyCredsEvents_new; [exact Ht3|].
    simpl. apply inputs_are_creds_events. }
  destruct (credsAcquire path i infraCtx w2) as [[m|e] w3]; simpl in *.
  - refine (conj _ (conj Hd3 (conj Hev3 _))); [congruence|].
    destruct Hfiles as [[_ [e He]]|(pw & m' & Hpw & Hc & Hm & Hw)]; [discriminate|].
    right. exists pw, m'. injection Hm as ->. rewrite Hw, Hf. auto.
  - refine (conj _ (conj Hd3 (conj Hev3 _))); [congruence|].
    destruct Hfiles as [[Hsame _]|(pw & m' & _ & _ & Hm & _)]; [|discriminate].
    left. split; [congruence|discriminate].
Qed.



(** X8. The credentials file is there and the user types a password that
    is not empty. Then [creds] shows the notice and this one prompt and does
    nothing else: no file or directory changes and [infra.Creds] is not
    called. It returns the context it was given when the file is sealed
    under the password typed and holds a map; in every other case it returns
    "error reading encrypted credentials: <cause>" followed by the advice to
    enter the empty password. *)
Theorem creds_cached_nonempty_password (c : Core) (i : Infrastructure)
    (infraCtx : InfraContext) (w : World) (typed : string)
    (rest : list (result string)) :
  let path := filepath.Join [localDir c; "creds"] in
  let out := creds c i infraCtx w in
  os.exists_ path w = true ->
  answers w = Ok typed :: rest ->
  typed <> "" ->
  snd out
  = {| files := files w; dirs := dirs w; denied := denied w; answers := rest;
       trace := (trace w ++ [EvHeader "Detecting infrastructure credentials...";
                             EvMessage credsFoundNotice;
                             EvInput decryptOpts])%list |}
  /\ ((exists m, files w !! path = Some (Envelope typed (JSON m))) ->
      fst out = Ok infraCtx)
  /\ ((forall m, files w !! path <> Some (Envelope typed (JSON m))) ->
      exists cause,
        fst out = Err (Errorf ("error reading encrypted credentials: "
                               ++ cause ++ credsReadAdvice))).
Proof.
  intros path out Hex Ha Hty. subst out. rewrite creds_unfold. cbv zeta. fold path.
  rewrite Hex.
  unfold credsCached, bind, ui.Message, ui.Input, log. cbn [answers emit].
  rewrite Ha. cbv beta iota.
  apply String.eqb_neq in Hty. rewrite Hty. cbn [negb].
  unfold wrapErr, cryptRead, lift, ret, bind. cbn [files emit setAnswers].
  destruct (files w !! path) as [[b|pw b|d]|] eqn:Hfile.
  - unfold setAnswers, emit; simpl; rewrite <- !app_assoc; simpl. split; [reflexivity|]. split.
    + intros [m Hm]. discriminate.
    + intros _. eexists. reflexivity.
  - destruct (String.eqb pw typed) eqn:Hpw.
    + apply String.eqb_eq in Hpw. subst pw.
      destruct b as [m|s]; unfold setAnswers, emit; simpl; rewrite <- !app_assoc; simpl.
      * split; [reflexivity|]. split; [reflexivity|].
        intros Hno. destruct (Hno m eq_refl).
      * split; [reflexivity|]. split.
        -- intros [m Hm]. discriminate.
        -- intros _. eexists. reflexivity.
    + unfold setAnswers, emit; simpl; rewrite <- !app_assoc; simpl. split; [reflexivity|]. split.
      * intros [m Hm]. injection Hm as -> _. rewrite String.eqb_refl in Hpw.
        discriminate.
      * intros _. eexists. reflexivity.
  - unfold setAnswers, emit; simpl; rewrite <- !app_assoc; simpl. split; [reflexivity|]. split.
    + intros [m Hm]. discriminate.
    + intros _. eexists. reflexivity.
  - unfold setAnswers, emit; simpl; rewrite <- !app_assoc; simpl. split; [reflexivity|]. split.
    + intros [m Hm]. discriminate.
    + intros _. eexists. reflexivity.
Qed.

Lemma creds_cached_nonempty_password_witness :
  let c := Sample.mkCore Sample.rootOk (Sample.graph1 Sample.rootOk) in
  let w := setAnswers [Ok "wrong"; Ok "next"]
             (setFiles {[ "/local/creds" := Envelope "correct" (JSON (Some Sample.awsCreds)) ]}
                Sample.emptyWorld) in
  let out := creds c Sample.awsInfra Sample.infraCtx0 w in
  files (snd out) = files w
  /\ answers (snd out) = [Ok "next"]
  /\ exists cause,
       fst out = Err (Errorf ("error reading encrypted credentials: "
                              ++ cause ++ credsReadAdvice)).
Proof.
  intros c w out.
  destruct (creds_cached_nonempty_password c Sample.awsInfra Sample.infraCtx0 w
              "wrong" [Ok "next"])
    as (Hw & _ & Herr).
  - vm_compute. reflexivity.
  - reflexivity.
  - discriminate.
  - split; [|split].
    + subst out. rewrite Hw. reflexivity.
    + subst out. rewrite Hw. reflexivity.
    + apply Herr. intros m Hm. vm_compute in Hm. discriminate Hm.
Defined.

(** X9. The first run: nothing is at the path of the credentials file.
    [creds] then makes the directory of the file, with its parents; an error
    of [MkdirAll] is returned as it is, after the header and nothing else,
    the world being as [MkdirAll] left it. Otherwise the directory exists
    afterwards, the user is never asked for the password of cached
    credentials, and what follows the header is the notice that no
    credentials were found, the call of [infra.Creds] with the context
    passed in, and prompts for the new password only. *)
Theorem creds_first_run (c : Core) (i : Infrastructure)
    (infraCtx : InfraContext) (w : World) :
  let path := filepath.Join [localDir c; "creds"] in
  let out := creds c i infraCtx w in
  let w1 := emit (EvHeader "Detecting infrastructure credentials...") w in
  os.exists_ path w = false ->
  (forall e w2, os.MkdirAll (filepath.Dir path) w1 = (Err e, w2) ->
                out = (Err e, w2))
  /\ (forall u w2, os.MkdirAll (filepath.Dir path) w1 = (Ok u, w2) ->
        os.IsDir (filepath.Dir path) (snd out) = true
        /\ exists n,
             trace (snd out)
             = (trace w
                ++ [EvHeader "Detecting infrastructure credentials...";
                    EvMessage credsMissingNotice;
                    EvInfraCreds infraCtx]
                ++ repeat (EvInput encryptOpts) n)%list).
Proof.
  intros path out w1 Hex. subst out. rewrite creds_unfold. cbv zeta. fold path w1.
  rewrite Hex.
  destruct (os_facts.MkdirAll_effects (filepath.Dir path) w1)
    as [(_ & _ & Ht & _ & _) Hok].
  destruct (os.MkdirAll (filepath.Dir path) w1) as [[u|e] w2]; simpl in *.
  - split; [discriminate|]. intros u' w2' H. injection H as <-.
    destruct (credsAcquire_effects path i infraCtx w2) as (Hd & _ & [n Hn] & _).
    assert (Hdir : os.IsDir (filepath.Dir path)
                     (snd (credsAcquire path i infraCtx w2)) = true).
    { unfold os.IsDir. rewrite Hd. exact (Hok u eq_refl). }
    destruct (credsAcquire path i infraCtx w2) as [[m|e] w3]; simpl in *;
      (split; [exact Hdir|]);
      exists n; rewrite Hn, Ht; unfold w1; simpl; rewrite <- !app_assoc; reflexivity.
  - split; [|discriminate]. intros e' w2' H. injection H as <- <-. reflexivity.
Qed.

Lemma creds_first_run_witness :
  let c := Sample.mkCore Sample.rootOk (Sample.graph1 Sample.rootOk) in
  let w := setAnswers [Ok ""; Ok "secret"] Sample.emptyWorld in
  let blocked := setFiles {[ "/local" := Raw (Text "in the way") ]} w in
  (os.IsDir "/local" (snd (creds c Sample.awsInfra Sample.infraCtx0 w)) = true
   /\ exists n,
        trace (snd (creds c Sample.awsInfra Sample.infraCtx0 w))
        = ([EvHeader "Detecting infrastructure credentials...";
            EvMessage credsMissingNotice;
            EvInfraCreds Sample.infraCtx0]
           ++ repeat (EvInput encryptOpts) n)%list)
  /\ creds c Sample.awsInfra Sample.infraCtx0 blocked
     = (Err (Errorf "mkdir /local: not a directory"),
        emit (EvHeader "Detecting infrastructure credentials...") blocked).
Proof.
  intros c w blocked. split.
  - destruct (creds_first_run c Sample.awsInfra Sample.infraCtx0 w) as [_ Hok].
    + vm_compute. reflexivity.
    + apply (Hok tt (snd (os.MkdirAll "/local"
                            (emit (EvHeader "Detecting infrastructure credentials...") w)))).
      vm_compute. reflexivity.
  - destruct (creds_first_run c Sample.awsInfra Sample.infraCtx0 blocked) as [Herr _].
    + vm_compute. reflexivity.
    + apply Herr. vm_compute. reflexivity.
Defined.

Lemma creds_events c i infraCtx w : onlyCredsEvents w (snd (creds c i infraCtx w)).
Proof.
  rewrite creds_unfold. cbv zeta.
  set (path := filepath.Join [localDir c; "creds"]).
  set (w1 := emit (EvHeader "Detecting infrastructure credentials...") w).
  assert (Hev1 : onlyCredsEvents w w1).
  { apply (onlyCredsEvents_new w w1 [EvHeader "Detecting infrastructure credentials..."]);
      reflexivity. }
  destruct (os.exists_ path w).
  - destruct (credsCached_effects path infraCtx w1) as (Hf & _ & Hn & Ht & _).
    assert (Hev2 : onlyCredsEvents w (snd (credsCached path infraCtx w1))).
    { apply (onlyCredsEvents_trans w w1); [exact Hev1|].
      eapply onlyCredsEvents_new; [exact Ht|reflexivity]. }
    destruct (credsCached path infraCtx w1) as [[[ctx|[m|]]|e] w2]; simpl in *;
      try exact Hev2.
    apply (creds_acquire_effects path i infraCtx w w2 Hf Hn Hev2).
  - destruct (os_facts.MkdirAll_effects (filepath.Dir path) w1)
      as [(Hf & Hn & Ht & _) _].
    assert (Hev2 : onlyCredsEvents w (snd (os.MkdirAll (filepath.Dir path) w1))).
    { apply (onlyCredsEvents_trans w w1); [exact Hev1|].
      apply (onlyCredsEvents_new _ _ []); [|reflexivity].
      rewrite Ht, app_nil_r. reflexivity. }
    destruct (os.MkdirAll (filepath.Dir path) w1) as [[u|e] w2]; simpl in *;
      [|exact Hev2].
    apply (creds_acquire_effects path i infraCtx w w2 Hf Hn Hev2).
Qed.

(** ** [Build] *)

Lemma appEvents_same w w' : trace w' = trace w -> appEvents w w' [].
Proof. intros H. exists []. rewrite H, app_nil_r. auto. Qed.

Lemma appEvents_one w w' e :
  trace w' = (trace w ++ [e])%list -> appEvents w w' (List.filter isAppEvent [e]).
Proof. intros H. exists [e]. auto. Qed.

Lemma appEvents_trans w1 w2 w3 l1 l2 :
  appEvents w1 w2 l1 -> appEvents w2 w3 l2 -> appEvents w1 w3 (l1 ++ l2).
Proof.
  intros (n1 & H1 & F1) (n2 & H2 & F2). exists (n1 ++ n2)%list.
  rewrite H2, H1, <- app_assoc, List.filter_app, F1, F2. auto.
Qed.

Lemma infra_appEvents c w : appEvents w (snd (infra c w)) [].
Proof.
  destruct (infra c w) as [r w1] eqn:Hi.
  apply infra_world in Hi as (_ & _ & _ & _ & [Ht|Ht]); simpl.
  - apply appEvents_same, Ht.
  - apply (appEvents_one _ _ _ Ht).
Qed.

Lemma creds_appEvents c i infraCtx w : appEvents w (snd (creds c i infraCtx w)) [].
Proof. apply onlyCredsEvents_no_app, creds_events. Qed.

(** X10. [Build] builds the root application and touches no other: either
    it fails, and then all it did to the application plugins was at most to
    start one factory; or it started the factory of the root's tuple, called
    [Build] of that implementation once, on the root's context, and returns
    what that call returned. In particular it returns nil only if the root's
    [Build] did. *)
Theorem Build_only_builds_root (c : Core) (w : World) :
  ((exists e, fst (Build c w) = Err e)
   /\ (appEvents w (snd (Build c w)) []
       \/ exists t, appEvents w (snd (Build c w)) [EvAppFactory t]))
  \/ exists root ctx a,
       dag.Root (Graph (appfileCompiled c)) = Ok root
       /\ contextOf c (vertex_File (snd root)) = Some ctx
       /\ appOf c ctx = Some a
       /\ appEvents w (snd (Build c w)) [EvAppFactory (ctx_Tuple ctx); EvAppBuild ctx]
       /\ fst (Build c w)
          = match app_Build a ctx with None => Ok tt | Some e => Err e end.
Proof.
  unfold Build, bind, wrapErr, lift.
  pose proof (infra_appEvents c w) as Hi.
  destruct (infra c w) as [[ic|e] w1]; cbn [snd] in Hi; cbv beta iota.
  2: { left. simpl. eauto. }
  pose proof (creds_appEvents c (fst ic) (snd ic) w1) as Hc.
  destruct (creds c (fst ic) (snd ic) w1) as [[infraCtx|e] w2]; cbn [snd] in Hc;
    cbv beta iota;
    pose proof (appEvents_trans _ _ _ _ _ Hi Hc) as H2; cbn [List.app] in H2.
  2: { left. simpl. eauto. }
  destruct (dag.Root (Graph (appfileCompiled c))) as [root|e] eqn:Hroot; cbv beta iota.
  2: { left. simpl. eauto. }
  destruct (appContext c (vertex_File (snd root)) w2) as [[ctx|e] w3] eqn:Hctx;
    apply appContext_world in Hctx as (_ & Ht3 & _ & _ & Hcontext);
    pose proof (appEvents_trans _ _ _ _ _ H2 (appEvents_same _ _ Ht3)) as H3;
    cbn [List.app] in H3; cbv beta iota.
  2: { left. simpl. eauto. }
  destruct (app c ctx w3) as [[a|e] w4] eqn:Happ;
    apply app_world in Happ as (_ & _ & _ & _ & Ht4 & Hok); cbv beta iota.
  2: { left. simpl. split; [eauto|].
       destruct Ht4 as [Ht4|Ht4].
       - left. apply (appEvents_trans _ _ _ _ _ H3 (appEvents_same _ _ Ht4)).
       - right. exists (ctx_Tuple ctx).
         apply (appEvents_trans _ _ _ _ _ H3 (appEvents_one _ _ _ Ht4)). }
  destruct (Hok a eq_refl) as [Ha Ht4'].
  pose proof (appEvents_trans _ _ _ _ _ H3 (appEvents_one _ _ _ Ht4')) as H4.
  simpl in H4.
  right. exists root, ctx, a.
  split; [reflexivity|]. split; [apply Hcontext; reflexivity|]. split; [exact Ha|].
  unfold callAppBuild, bind, log, liftErr.
  assert (H5 : appEvents w (emit (EvAppBuild ctx) w4)
                 [EvAppFactory (ctx_Tuple ctx); EvAppBuild ctx]).
  { apply (appEvents_trans _ _ _ _ _ H4
             (appEvents_one w4 (emit (EvAppBuild ctx) w4) (EvAppBuild ctx) eq_refl)). }
  destruct (app_Build a ctx); simpl; auto.
Qed.

(** ** [Dev] *)

Lemma filter_none {A} (f : A -> bool) (l : list A) :
  Forall (fun x => f x = false) l -> List.filter f l = [].
Proof.
  induction 1 as [|x l Hx _ IH]; [reflexivity|]. simpl. rewrite Hx. exact IH.
Qed.

(** X11. [Dev] calls the root's [Dev] at most once, and last, and only
    when everything before went well. Either [Dev] fails without having
    called it; or the root was found, its context and its implementation
    were loaded and the walk over the dependencies returned no error, and
    then the call of [Dev] of the root's implementation on the root's
    context is the last thing that happens, and [Dev] returns what this call
    returned. *)
Theorem Dev_calls_root_Dev_last (c : Core) (sched : list walker.Step) (w : World) :
  exists new,
    trace (snd (Dev c sched w)) = (trace w ++ new)%list
    /\ (((exists e, fst (Dev c sched w) = Err e) /\ List.filter isAppDev new = [])
        \/ exists root ctx a pre w1 w2 w3,
             dag.Root (Graph (appfileCompiled c)) = Ok root
             /\ appContext c (vertex_File (snd root)) w = (Ok ctx, w1)
             /\ app c ctx w1 = (Ok a, w2)
             /\ walk c (devCallback ctx) sched tt w2 = (None, tt, w3)
             /\ new = (pre ++ [EvAppDev ctx])%list
             /\ List.filter isAppDev pre = []
             /\ Dev c sched w
                = (match app_Dev a ctx with None => Ok tt | Some e => Err e end,
                   emit (EvAppDev ctx) w3)).
Proof.
  destruct (dag.Root (Graph (appfileCompiled c))) as [root|e] eqn:Hr.
  2: { exists []. unfold Dev, bind, lift. rewrite Hr. simpl.
       rewrite app_nil_r. split; [reflexivity|]. left. eauto. }
  destruct (appContext c (vertex_File (snd root)) w) as [[ctx|e] w1] eqn:Hc.
  2: { exists []. unfold Dev, bind, lift, wrapErr. rewrite Hr, Hc. simpl.
       apply appContext_world in Hc as (_ & Ht & _). rewrite Ht, app_nil_r.
       split; [reflexivity|]. left. eauto. }
  destruct (app c ctx w1) as [[a|e] w2] eqn:Ha.
  2: { unfold Dev, bind, lift, wrapErr. rewrite Hr, Hc, Ha. simpl.
       apply appContext_world in Hc as (_ & Ht1 & _).
       apply app_world in Ha as (_ & _ & _ & _ & [Ht2|Ht2] & _); rewrite Ht2, Ht1.
       - exists []. rewrite app_nil_r. split; [reflexivity|]. left. eauto.
       - eexists. split; [reflexivity|]. left. eauto. }
  destruct (walk c (devCallback ctx) sched tt w2) as [[err []] w3] eqn:Hw.
  destruct err as [e|].
  - unfold Dev, bind, lift, wrapErr. rewrite Hr, Hc, Ha, Hw. simpl.
    apply appContext_world in Hc as (_ & Ht1 & _).
    apply app_world in Ha as (_ & _ & _ & _ & _ & Hok).
    destruct (Hok a eq_refl) as [_ Ht2].
    destruct (walk_dev_devWalked c ctx sched w2 "") as (new & Ht3 & Hnd & _).
    rewrite Hw in Ht3. simpl in Ht3.
    exists (EvAppFactory (ctx_Tuple ctx) :: new).
    rewrite Ht3, Ht2, Ht1, <- app_assoc. split; [reflexivity|]. left.
    split; [eauto|]. simpl. apply filter_none, Hnd.
  - destruct (Dev_calls_Dev_once c sched w root ctx a w1 w2 w3 Hr Hc Ha Hw)
      as (HD & pre & Ht & Hpre).
    exists (pre ++ [EvAppDev ctx])%list. split; [exact Ht|]. right.
    exists root, ctx, a, pre, w1, w2, w3. auto 10.
Qed.

(** X12. A dependency that is not cached. When its [DevDep] fails, the
    callback of [Dev] returns "Error building dependency for dev '<name>':
    <cause>" and has done nothing else. When its [DevDep] reports files, the
    callback either stores a descriptor at the dependency's cache path and
    changes no other file — and from then on the callback finds the
    descriptor and only tells the user that it uses the cache, whatever the
    implementation — or it fails with "Error caching dependency for dev
    '<name>': <cause>" and has written nothing. *)
Theorem Dev_caches_dev_dep_with_files (rootCtx : Context) (a : App) (ctx : Context)
    (w : World) :
  let name := app_Name (file_Application (ctx_Appfile ctx)) in
  let out := devCallback rootCtx a ctx false tt w in
  ~ cached (devDepPath ctx) w ->
  (forall e, app_DevDep a rootCtx ctx = Err e ->
     out = (Err (Errorf ("Error building dependency for dev '" ++ name ++ "': "
                         ++ Error e)),
            emit (EvAppDevDep rootCtx ctx) w))
  /\ (forall dep, app_DevDep a rootCtx ctx = Ok dep -> Files dep <> [] ->
        (fst out = Ok tt
         /\ (exists d, files (snd out) = <[devDepPath ctx := DevDepJSON d]> (files w))
         /\ (forall rootCtx' a',
               devCallback rootCtx' a' ctx false tt (snd out)
               = (Ok tt,
                  emit (EvHeader ("Using cached dev dependency for '" ++ name ++ "'"))
                    (snd out))))
        \/ ((exists cause,
               fst out = Err (Errorf ("Error caching dependency for dev '" ++ name
                                      ++ "': " ++ cause)))
            /\ files (snd out) = files w)).
Proof.
  intros name out Hn. subst out. unfold devCallback. fold (devDepPath ctx). fold name.
  destruct (ReadDevDep_not_cached _ _ Hn) as [e0 He0]. rewrite He0. clear He0 e0.
  unfold callAppDevDep, RelFiles, WriteDevDep.
  unfold bind, wrapErr, log, lift, os.WriteFile, ret.
  split.
  - intros e He. rewrite He. reflexivity.
  - intros dep Hdep Hfiles. rewrite Hdep. cbv beta iota.
    assert (Hlen : Nat.ltb 0 (length (Files dep)) = true).
    { destruct (Files dep); [congruence|reflexivity]. }
    rewrite Hlen.
    destruct (relFiles (CacheDir ctx) (Files dep)) as [fs|e]; cbv beta iota.
    2: { right. simpl. eauto. }
    cbn [dirs denied emit].
    destruct (bool_decide (devDepPath ctx ∈ dirs w)).
    { right. simpl. eauto. }
    destruct (bool_decide (devDepPath ctx ∈ denied w)).
    { right. simpl. eauto. }
    left. cbn [fst snd]. split; [reflexivity|]. split.
    + eexists. reflexivity.
    + intros rootCtx' a'. apply (devCallback_hit _ _ _ _ {| Files := fs |}).
      cbn [files setFiles emit]. apply lookup_insert_eq.
Qed.

Lemma Dev_caches_dev_dep_with_files_witness :
  let ctx := Sample.depCtx "D" "dep" "files" in
  let out := devCallback (Sample.rootCtx "ok") Sample.filesApp ctx false tt
               Sample.emptyWorld in
  (fst out = Ok tt
   /\ (exists d, files (snd out)
                 = <[devDepPath ctx := DevDepJSON d]> (files Sample.emptyWorld))
   /\ (forall rootCtx' a',
         devCallback rootCtx' a' ctx false tt (snd out)
         = (Ok tt, emit (EvHeader ("Using cached dev dependency for '" ++ "dep" ++ "'"))
                     (snd out))))
  \/ ((exists cause,
         fst out = Err (Errorf ("Error caching dependency for dev '" ++ "dep"
                                ++ "': " ++ cause)))
      /\ files (snd out) = files Sample.emptyWorld).
Proof.
  intros ctx out.
  assert (Hn : ~ cached (devDepPath ctx) Sample.emptyWorld).
  { intros [d Hd]. vm_compute in Hd. discriminate Hd. }
  apply (proj2 (Dev_caches_dev_dep_with_files (Sample.rootCtx "ok") Sample.filesApp
                  ctx Sample.emptyWorld Hn)
           {| Files := [CacheDir ctx ++ "/box.tar"] |}).
  - reflexivity.
  - discriminate.
Defined.

(** ** [Execute]: the two tasks *)

Lemma executeApp_unfold c opts w :
  executeApp c opts w
  = match appContext c (appfile c) w with
    | (Err e, w1) => (Returned (Some e), w1)
    | (Ok ctx, w1) =>
        match app c ctx w1 with
        | (Err e, w2) => (Returned (Some e), w2)
        | (Ok a, w2) =>
            match Task opts with
            | ExecuteTaskDev =>
                returned (callAppDev a (setAction (Action opts) (Args opts) ctx) w2)
            | _ => (Panicked ("uknown task: " ++ TaskString (Task opts)), w2)
            end
        end
    end.
Proof.
  unfold executeApp, bind, ret.
  destruct (appContext c (appfile c) w) as [[ctx|e] w1]; [|reflexivity].
  destruct (app c ctx w1) as [[a|e] w2]; reflexivity.
Qed.

(** X13. [Execute] with the task [ExecuteTaskDev] runs [Dev] of the main
    application: the context is the one of the core's own Appfile, so its
    directory is [Join(compileDir, "app")], with the action and the
    arguments of the options put in after the implementation was loaded, and
    [Execute] returns what [Dev] returned. The errors of loading the context
    or the implementation are returned as they are, without a prefix, and
    then [Dev] is not called. *)
Theorem Execute_dev_task (c : Core) (opts : ExecuteOpts) (w : World) :
  Task opts = ExecuteTaskDev ->
  match contextOf c (appfile c) with
  | None =>
      Execute c opts w
      = (Returned (Some (Errorf ("infrastructure not found in appfile: "
                                 ++ proj_Infrastructure (file_Project (appfile c))))),
         w)
  | Some ctx =>
      Dir ctx = filepath.Join [compileDir c; "app"]
      /\ match os.MkdirAll (CacheDir ctx) w with
         | (Err e, w1) =>
             Execute c opts w
             = (Returned (Some (Errorf ("error making cache directory '"
                                        ++ CacheDir ctx ++ "': " ++ Error e))), w1)
         | (Ok _, w1) =>
             match apps c (ctx_Tuple ctx) with
             | None =>
                 Execute c opts w
                 = (Returned (Some (Errorf ("app implementation for tuple not found: "
                                            ++ TupleString (ctx_Tuple ctx)))), w1)
             | Some (Err e) =>
                 Execute c opts w
                 = (Returned (Some (Errorf ("app failed to start properly: "
                                            ++ Error e))),
                    emit (EvAppFactory (ctx_Tuple ctx)) w1)
             | Some (Ok a) =>
                 let ctx' := setAction (Action opts) (Args opts) ctx in
                 Execute c opts w
                 = (Returned (app_Dev a ctx'),
                    emit (EvAppDev ctx') (emit (EvAppFactory (ctx_Tuple ctx)) w1))
             end
         end
  end.
Proof.
  intros Ht.
  assert (HE : Execute c opts w = executeApp c opts w).
  { unfold Execute. rewrite Ht. reflexivity. }
  rewrite HE, executeApp_unfold, Ht. clear HE.
  pose proof (appContext_cases c (appfile c) w) as Hc.
  destruct (contextOf c (appfile c)) as [ctx|] eqn:Hctx.
  2: { rewrite Hc. reflexivity. }
  split.
  { unfold contextOf in Hctx.
    destruct (ActiveInfrastructure (appfile c)); [|discriminate].
    injection Hctx as <-. simpl. rewrite String.eqb_refl. reflexivity. }
  rewrite Hc. clear Hc.
  destruct (os.MkdirAll (CacheDir ctx) w) as [[u|e] w1]; [|reflexivity].
  pose proof (app_outcomes c ctx w1) as Ha.
  destruct (apps c (ctx_Tuple ctx)) as [[a|e]|]; rewrite Ha; try reflexivity.
  cbv zeta. unfold returned, callAppDev, bind, log, liftErr. simpl.
  destruct (app_Dev a _); reflexivity.
Qed.

Lemma Execute_dev_task_witness :
  let c := Sample.mkCore Sample.rootOk (Sample.graph1 Sample.rootOk) in
  let opts := {| Task := ExecuteTaskDev; Action := "destroy"; Args := ["-force"] |} in
  let ctx' := setAction "destroy" ["-force"] (Sample.rootCtx "ok") in
  Dir (Sample.rootCtx "ok") = filepath.Join [compileDir c; "app"]
  /\ Execute c opts Sample.emptyWorld
     = (Returned None,
        emit (EvAppDev ctx')
          (emit (EvAppFactory (ctx_Tuple (Sample.rootCtx "ok")))
             (setDirs {[ "/data"; "/data/cache"; "/data/cache/R" ]}
                Sample.emptyWorld))).
Proof.
  intros c opts ctx'.
  pose proof (Execute_dev_task c opts Sample.emptyWorld eq_refl) as H.
  vm_compute in H. destruct H as [Hd He]. split.
  - vm_compute. exact Hd.
  - vm_compute. exact He.
Defined.

(** X14. [Execute] with the task [ExecuteTaskInfra] resolves the
    infrastructure and calls its [Execute] once, with the action and the
    arguments of the options, in the directory [Join(compileDir,
    "infra-<name>")] and without credentials: [creds] is not called, the
    user is asked nothing and no file or directory changes. When the
    infrastructure type has no factory or the Appfile has no active
    infrastructure, the error says so and nothing is started; an error of
    the factory is returned as it is. *)
Theorem Execute_infra_task (c : Core) (opts : ExecuteOpts) (w : World) :
  Task opts = ExecuteTaskInfra ->
  let name := proj_Infrastructure (file_Project (appfile c)) in
  match infras c name, ActiveInfrastructure (appfile c) with
  | None, _ =>
      Execute c opts w
      = (Returned (Some (Errorf ("infrastructure type not supported: " ++ name))), w)
  | Some _, None =>
      Execute c opts w
      = (Returned (Some (Errorf ("infrastructure not found in appfile: " ++ name))), w)
  | Some (Err e), Some _ =>
      Execute c opts w = (Returned (Some e), emit (EvInfraFactory name) w)
  | Some (Ok i), Some config =>
      let ctx := {| ictx_Dir := filepath.Join [compileDir c; "infra-" ++ name];
                    ictx_Infra := config;
                    ictx_Shared := {| shared_Directory := dir c; shared_Ui := ui_ c |};
                    ictx_Action := Action opts;
                    ictx_ActionArgs := Args opts;
                    InfraCreds := None |} in
      Execute c opts w
      = (Returned (infra_Execute i ctx),
         emit (EvInfraExecute ctx) (emit (EvInfraFactory name) w))
  end.
Proof.
  intros Ht name.
  assert (HE : Execute c opts w
               = match infra c w with
                 | (Err e, w1) => (Returned (Some e), w1)
                 | (Ok ic, w1) =>
                     let ctx := setInfraAction (Action opts) (Args opts) (snd ic) in
                     (Returned (infra_Execute (fst ic) ctx),
                      emit (EvInfraExecute ctx) w1)
                 end).
  { unfold Execute. rewrite Ht.
    unfold executeInfra, returned, bind, callInfraExecute, log, liftErr.
    destruct (infra c w) as [[ic|e] w1]; [|reflexivity].
    cbv zeta. destruct (infra_Execute (fst ic) _); reflexivity. }
  pose proof (infra_outcomes c w) as Hi. cbv zeta in Hi. fold name in Hi.
  destruct (infras c name) as [[i|e]|];
    destruct (ActiveInfrastructure (appfile c)) as [config|];
    rewrite HE, Hi; reflexivity.
Qed.

Lemma Execute_infra_task_witness :
  let c := Sample.mkCore Sample.rootOk (Sample.graph1 Sample.rootOk) in
  let opts := {| Task := ExecuteTaskInfra; Action := "info"; Args := [] |} in
  let ctx := setInfraAction "info" [] Sample.infraCtx0 in
  Execute c opts Sample.emptyWorld
  = (Returned None,
     emit (EvInfraExecute ctx) (emit (EvInfraFactory "aws") Sample.emptyWorld)).
Proof.
  intros c opts ctx.
  pose proof (Execute_infra_task c opts Sample.emptyWorld eq_refl) as H.
  vm_compute in H. vm_compute. exact H.
Defined.

(** ** [Compile]: what it asks and calls *)

(** A callback of [Compile] reads no answer of the user, and all it adds to
    the trace are the events of loading and compiling an app. *)
Lemma walkRun_compile_quiet c root v x l (vars : WalkVars (list CompileResult)) :
  answers (world (snd (walkRun c (compileCallback c) root v x l vars)))
  = answers (world vars)
  /\ exists new,
       trace (world (snd (walkRun c (compileCallback c) root v x l vars)))
       = (trace (world vars) ++ new)%list
       /\ Forall (fun e => isCompileWalkEvent e = true) new.
Proof.
  split.
  - unfold walkRun. destruct l; [reflexivity|].
    destruct (walkBody_cases c (compileCallback c) root v x (captured vars) (world vars))
      as [(e & w1 & Hb & _ & Ha & _)|(ctx & a & w1 & _ & _ & _ & Ha & _ & _ & Hb)];
      rewrite Hb; [exact Ha|].
    rewrite compileCallback_eq.
    destruct (app_Compile a _); exact Ha.
  - destruct (walkRun_compile_cases c root v x l vars)
      as [(_ & Hout)|[(_ & _ & _ & _ & Htr)|(_ & ctx & a & _ & _ & Htr & _)]].
    + rewrite Hout. exists []. rewrite app_nil_r. split; [reflexivity|constructor].
    + destruct Htr as [Htr|[t Htr]]; rewrite Htr.
      * exists []. rewrite app_nil_r. split; [reflexivity|constructor].
      * eexists. split; [reflexivity|]. repeat constructor.
    + cbv zeta in Htr. rewrite Htr. eexists. split; [reflexivity|]. repeat constructor.
Qed.

Lemma walk_compile_quiet c sched w :
  answers (snd (walk c (compileCallback c) sched [] w)) = answers w
  /\ exists new,
       trace (snd (walk c (compileCallback c) sched [] w)) = (trace w ++ new)%list
       /\ Forall (fun e => isCompileWalkEvent e = true) new.
Proof.
  unfold walk. destruct (dag.Root (Graph (appfileCompiled c))) as [root|e].
  2: { simpl. split; [reflexivity|]. exists []. rewrite app_nil_r.
       split; [reflexivity|constructor]. }
  simpl. unfold walkFrom, walker.Walk.
  apply (walker_facts.run_shared_invariant _ _ _
           (fun vars => answers (world vars) = answers w
                        /\ exists new,
                             trace (world vars) = (trace w ++ new)%list
                             /\ Forall (fun e => isCompileWalkEvent e = true) new)).
  - intros v x l sh (Ha & old & Ht & Hold).
    destruct (walkRun_compile_quiet c (fst root) v x l sh) as (Ha' & new & Ht' & Hnew).
    split; [congruence|].
    exists (old ++ new)%list. rewrite Ht', Ht, <- app_assoc.
    split; [reflexivity|]. apply Forall_app. split; assumption.
  - simpl. split; [reflexivity|]. exists []. rewrite app_nil_r.
    split; [reflexivity|constructor].
Qed.

(** X15. [Compile] asks the user nothing and loads no credentials. It reads
    no answer of the user; and what it does is, in this order, to start the
    factory of the infrastructure, to call [infra.Compile] once — with the
    context [infra] built, which holds no credentials — and then only to
    start app factories, print messages and call [app.Compile]. It may stop
    after any of these steps. *)
Theorem Compile_asks_nothing (c : Core) (sched : list walker.Step) (w : World) :
  let name := proj_Infrastructure (file_Project (appfile c)) in
  answers (snd (Compile c sched w)) = answers w
  /\ exists new,
       trace (snd (Compile c sched w)) = (trace w ++ new)%list
       /\ (new = []
           \/ new = [EvInfraFactory name]
           \/ exists i infraCtx rest,
                infra c w = (Ok (i, infraCtx), emit (EvInfraFactory name) w)
                /\ InfraCreds infraCtx = None
                /\ new = EvInfraFactory name :: EvInfraCompile infraCtx :: rest
                /\ Forall (fun e => isCompileWalkEvent e = true) rest).
Proof.
  intros name. unfold Compile, bind.
  pose proof (infra_outcomes c w) as Hi. cbv zeta in Hi. fold name in Hi.
  destruct (infras c name) as [[i|e]|];
    destruct (ActiveInfrastructure (appfile c)) as [config|]; rewrite Hi.
  2-6: simpl; split; [reflexivity|]; eexists;
       (split; [first [symmetry; apply app_nil_r | reflexivity]|]); auto.
  cbv beta iota.
  destruct (os_facts.RemoveAll_quiet (compileDir c) (emit (EvInfraFactory name) w))
    as (Ht & Ha & _).
  destruct (os.RemoveAll (compileDir c) (emit (EvInfraFactory name) w))
    as [[u|e] w1]; simpl in Ht, Ha; cbv beta iota.
  2: { simpl. split; [exact Ha|]. exists [EvInfraFactory name]. auto. }
  unfold callInfraCompile, bind, log, lift. cbn [fst snd]. cbv beta iota.
  match goal with
  | |- context [infra_Compile i ?ictx] => set (infraCtx := ictx)
  end.
  destruct (infra_Compile i infraCtx) as [r|e]; cbv beta iota.
  2: { simpl. split; [exact Ha|]. eexists. rewrite Ht, <- app_assoc.
       split; [reflexivity|]. right. right. exists i, infraCtx, []. auto. }
  destruct (walk_compile_quiet c sched (emit (EvInfraCompile infraCtx) w1))
    as (Ha' & new & Ht' & Hnew).
  assert (Hsnd : forall X : option error * list CompileResult * World,
             snd (let '(_, _, w') := X in (@Ok unit tt, w')) = snd X)
    by (intros [[? ?] ?]; reflexivity).
  rewrite !Hsnd. simpl in Ha', Ht'.
  split; [congruence|].
  eexists. rewrite Ht', Ht, <- !app_assoc. split; [reflexivity|].
  right. right. exists i, infraCtx, new. auto.
Qed.

(** ** [Dev]: whole runs *)

(** A callback that finds no descriptor calls [DevDep] first. *)
Lemma devCallback_miss_trace rootCtx a ctx w :
  ~ cached (devDepPath ctx) w ->
  exists rest,
    trace (snd (devCallback rootCtx a ctx false tt w))
    = (trace w ++ EvAppDevDep rootCtx ctx :: rest)%list.
Proof.
  intros Hn. unfold devCallback. fold (devDepPath ctx).
  destruct (ReadDevDep_not_cached _ _ Hn) as [e0 He0]. rewrite He0. clear He0 e0.
  unfold callAppDevDep, RelFiles, WriteDevDep.
  unfold bind, wrapErr, log, lift, os.WriteFile, ret.
  destruct (app_DevDep a rootCtx ctx) as [dep|e]; cbv beta iota.
  2: { exists []. reflexivity. }
  destruct (Nat.ltb 0 (length (Files dep))).
  2: { exists []. reflexivity. }
  destruct (relFiles (CacheDir ctx) (Files dep)) as [fs|e]; cbv beta iota.
  2: { eexists. simpl. rewrite <- !app_assoc. reflexivity. }
  cbn [dirs denied emit].
  destruct (bool_decide (devDepPath ctx ∈ dirs w));
    [eexists; simpl; rewrite <- !app_assoc; reflexivity|].
  destruct (bool_decide (devDepPath ctx ∈ denied w));
    eexists; simpl; rewrite <- !app_assoc; reflexivity.
Qed.






(** A callback that was not stopped and returned nil has visited its
    vertex: the header on a cache hit, the call of [DevDep] otherwise. *)
Lemma walkRun_dev_visit c rootCtx root v x (vars : WalkVars unit) :
  v <> root ->
  fst (walkRun c (devCallback rootCtx) root v x false vars) = None ->
  exists ctx added,
    contextOf c (vertex_File x) = Some ctx
    /\ trace (world (snd (walkRun c (devCallback rootCtx) root v x false vars)))
       = (trace (world vars) ++ added)%list
    /\ (cached (devDepPath ctx) (world vars) -> In (cacheHitHeader ctx) added)
    /\ (~ cached (devDepPath ctx) (world vars) -> In (EvAppDevDep rootCtx ctx) added).
Proof.
  intros Hv. unfold walkRun.
  destruct (walkBody_cases c (devCallback rootCtx) root v x (captured vars) (world vars))
    as [(e & w1 & Hb & _)|(ctx & a & w1 & Hctx & Happ & Hf & _ & _ & Ht & Hb)];
    rewrite Hb; [discriminate|].
  apply Nat.eqb_neq in Hv. rewrite Hv. destruct (captured vars). intros Hnone.
  exists ctx.
  destruct (files w1 !! devDepPath ctx) as [fd|] eqn:Hlook.
  1: destruct fd as [b|pw b|d].
  3: { rewrite (devCallback_hit rootCtx a ctx w1 d Hlook). simpl.
       exists [EvAppFactory (ctx_Tuple ctx); cacheHitHeader ctx].
       rewrite Ht, <- app_assoc. split; [exact Hctx|]. split; [reflexivity|].
       split; [intros _; simpl; auto|].
       intros Hn. exfalso. apply Hn. exists d. rewrite <- Hf. exact Hlook. }
  all: assert (Hmiss : ~ cached (devDepPath ctx) w1)
         by (intros [d Hd]; congruence);
       destruct (devCallback_miss_trace rootCtx a ctx w1 Hmiss) as [rest Hrest];
       exists (EvAppFactory (ctx_Tuple ctx) :: EvAppDevDep rootCtx ctx :: rest);
       (split; [exact Hctx|]);
       (split;
        [destruct (devCallback rootCtx a ctx false tt w1) as [[u|e] w2];
         simpl in Hrest |- *; rewrite Hrest, Ht, <- app_assoc; reflexivity|]);
       (split; [|intros _; simpl; auto]);
       intros Hc; exfalso; apply Hmiss; apply (cached_files _ _ _ Hf), Hc.
Qed.

Section DevWalk.

Variable c : Core.
Variable root : nat.
Variable rootCtx : Context.
Variable w0 : World.

Local Abbreviation g := (Graph (appfileCompiled c)).
Local Abbreviation wstep := (walker.step g walkStart (walkRun c (devCallback rootCtx) root)).
Local Abbreviation wrun := (walker.run g walkStart (walkRun c (devCallback rootCtx) root)).
Local Abbreviation start := (walker.init g {| stop := 0; captured := tt; world := w0 |}).

Lemma devInv_init : devInv c root rootCtx w0 start.
Proof.
  assert (Hall : forall v s,
             List.map (fun _ => @walker.Waiting bool) (dag.Vertices g) !! v = Some s ->
             s = walker.Waiting).
  { intros v s. rewrite list_lookup_fmap.
    destruct (dag.Vertices g !! v); simpl; congruence. }
  constructor; simpl.
  - congruence.
  - intros _ v l H. apply Hall in H. discriminate.
  - auto.
  - auto.
  - exists []. rewrite app_nil_r. split; [reflexivity|].
    intros _ v e x ctx H. apply Hall in H. discriminate.
Qed.

Lemma devInv_step (st : walkState unit) a :
  devInv c root rootCtx w0 st -> devInv c root rootCtx w0 (wstep st a).
Proof.
  intros [Hflag Hclear Hcached Hmissing (new & Ht & Hvis)].
  destruct (walker_facts.step_cases g walkStart (walkRun c (devCallback rootCtx) root) st a)
    as [(Hs & He & Hst)|(v & x & l & _ & Hx & Hv & Hs & Hst & He)].
  - constructor; rewrite ?Hs, ?He; auto.
    + intros H0 v l Hv.
      destruct (Hst v) as [Heq|(_ & _ & [Hsk|(x & _ & _ & Hr)])].
      * rewrite Heq in Hv. exact (Hclear H0 v l Hv).
      * congruence.
      * rewrite Hr in Hv. injection Hv as <-. unfold walkStart.
        rewrite H0. reflexivity.
    + exists new. split; [exact Ht|]. intros H0 v e x ctx Hd.
      destruct (Hst v) as [Heq|(_ & _ & [Hsk|(y & _ & _ & Hr)])]; [|congruence..].
      rewrite Heq in Hd. exact (Hvis H0 v e x ctx Hd).
  - assert (Hlt : v < length (walker.status st)) by (eapply lookup_lt_Some; eauto).
    destruct (walkRun_dev_effect c rootCtx root v x l (walker.shared st))
      as (added & Hadd & _ & Hkeep).
    pose proof (walkRun_cases c (devCallback rootCtx) root v x l (walker.shared st))
      as Hcases.
    assert (Hzero : stop (walker.shared (wstep st a)) = 0%Z ->
                    stop (walker.shared st) = 0%Z
                    /\ fst (walkRun c (devCallback rootCtx) root v x l (walker.shared st))
                       = None).
    { rewrite Hs. intros H0.
      destruct Hcases as [(Hn & Hstop & _)|(_ & Hstop & _)]; [|congruence].
      split; [congruence|exact Hn]. }
    constructor.
    + rewrite Hs, He.
      destruct Hcases as [(Hn & Hstop & _)|(_ & _ & e & Hsome)].
      * rewrite Hn, Hstop. exact Hflag.
      * rewrite Hsome. intros _. destruct (walker.errs st); discriminate.
    + intros H0 u l' Hu. destruct (Hzero H0) as [H00 _].
      rewrite Hst in Hu.
      apply list_lookup_insert_Some in Hu as [(_ & Hu & _)|(_ & Hu)]; [discriminate|].
      exact (Hclear H00 u l' Hu).
    + intros p Hp. rewrite Hs. apply Hkeep, Hcached, Hp.
    + intros p Hno Hp. rewrite Hs.
      apply (walkRun_dev_keeps_missing c rootCtx root p v x l _ Hno Hx).
      exact (Hmissing p Hno Hp).
    + exists (new ++ added)%list. rewrite Hs, Hadd, Ht, <- app_assoc.
      split; [reflexivity|]. intros H0 u e y ctx Hu Hne Hy Hctx.
      rewrite <- Hs in H0. destruct (Hzero H0) as [H00 Hnone].
      rewrite Hst in Hu.
      apply list_lookup_insert_Some in Hu as [(<- & _ & _)|(_ & Hu)].
      * assert (Hl : l = false) by exact (Hclear H00 v l Hv). subst l.
        assert (y = x) by congruence. subst y.
        destruct (walkRun_dev_visit c rootCtx root v x (walker.shared st) Hne Hnone)
          as (ctx' & added' & Hctx' & Hadd' & Hhit & Hmiss).
        assert (ctx' = ctx) by congruence. subst ctx'.
        assert (added' = added).
        { rewrite Hadd in Hadd'. apply app_inv_head in Hadd'. congruence. }
        subst added'. split.
        -- intros Hc. apply in_or_app. right. apply Hhit, Hcached, Hc.
        -- intros Hno Hc. apply in_or_app. right. apply Hmiss, Hmissing; assumption.
      * destruct (Hvis H00 u e y ctx Hu Hne Hy Hctx) as [Hhit Hmiss].
        split; intros; apply in_or_app; left; auto.
Qed.

Lemma devInv_run sched : devInv c root rootCtx w0 (wrun start sched).
Proof.
  apply (walker_facts.run_invariant g walkStart (walkRun c (devCallback rootCtx) root)
           (devInv c root rootCtx w0)).
  - intros st a. apply devInv_step.
  - apply devInv_init.
Qed.

End DevWalk.

(** A walk of [Dev] that returns no error has visited every dependency. *)
Lemma walk_dev_visits c (rank : nat -> nat) rootCtx sched w2 w3 root :
  edgesInRange (Graph (appfileCompiled c)) ->
  (forall a b, In (a, b) (dag.Edges (Graph (appfileCompiled c))) -> rank b < rank a) ->
  (forall v, v < length (dag.Vertices (Graph (appfileCompiled c))) ->
             rank v < length (dag.Vertices (Graph (appfileCompiled c)))) ->
  dag.Root (Graph (appfileCompiled c)) = Ok root ->
  walk c (devCallback rootCtx) sched tt w2 = (None, tt, w3) ->
  exists new,
    trace w3 = (trace w2 ++ new)%list
    /\ forall v x ctx,
         v <> fst root ->
         dag.Vertices (Graph (appfileCompiled c)) !! v = Some x ->
         contextOf c (vertex_File x) = Some ctx ->
         (cached (devDepPath ctx) w2 -> In (cacheHitHeader ctx) new)
         /\ (noFilesAt c (devDepPath ctx) -> ~ cached (devDepPath ctx) w2 ->
             In (EvAppDevDep rootCtx ctx) new).
Proof.
  intros Hrange Hrank Hbound Hroot. unfold walk. rewrite Hroot. cbv zeta.
  unfold walkFrom, walker.Walk.
  set (st := walker.run _ _ _ _ _).
  intros H. injection H as Herr _ Hw.
  assert (Herrs : walker.errs st = []).
  { unfold walker.walkError in Herr. destruct (walker.errs st); [reflexivity|discriminate]. }
  pose proof (walker_order.orderly_run (Graph (appfileCompiled c)) walkStart
                (walkRun c (devCallback rootCtx) (fst root)) Hrange
                (sched ++ walker.drain (Graph (appfileCompiled c)))
                {| stop := 0; captured := tt; world := w2 |}) as Hord.
  fold st in Hord.
  pose proof (walker_facts.Walk_finishes (Graph (appfileCompiled c)) walkStart
                (walkRun c (devCallback rootCtx) (fst root)) rank Hrank sched
                {| stop := 0; captured := tt; world := w2 |} Hbound) as Hfin.
  unfold walker.Walk in Hfin. fold st in Hfin.
  pose proof (devInv_run c (fst root) rootCtx w2
                (sched ++ walker.drain (Graph (appfileCompiled c)))) as Hinv.
  fold st in Hinv.
  destruct Hinv as [Hflag _ _ _ (new & Ht & Hvis)].
  assert (Hstop : stop (walker.shared st) = 0%Z).
  { destruct (Z.eq_dec (stop (walker.shared st)) 0%Z) as [H0|Hne]; [exact H0|].
    destruct (Hflag Hne Herrs). }
  exists new. rewrite <- Hw. split; [exact Ht|].
  intros v x ctx Hv Hx Hctx.
  assert (Hlt : v < length (walker.status st)).
  { rewrite (ord_length _ _ Hord). eapply lookup_lt_Some; eauto. }
  destruct (lookup_lt_is_Some_2 _ _ Hlt) as [s Hs].
  specialize (Hfin v). unfold walker.statusOf in Hfin. rewrite Hs in Hfin.
  destruct s as [|l|e|]; try discriminate.
  - exact (Hvis Hstop v e x ctx Hs Hv Hx Hctx).
  - destruct (ord_skipped _ _ Hord v Hs Herrs).
Qed.

(** A run of [Dev] whose walk returns no error: every dependency was
    visited, and the root's [Dev] was called last. *)
Lemma Dev_visits c (rank : nat -> nat) sched w root rootCtx rootApp w1 w2 w3 :
  edgesInRange (Graph (appfileCompiled c)) ->
  (forall a b, In (a, b) (dag.Edges (Graph (appfileCompiled c))) -> rank b < rank a) ->
  (forall v, v < length (dag.Vertices (Graph (appfileCompiled c))) ->
             rank v < length (dag.Vertices (Graph (appfileCompiled c)))) ->
  dag.Root (Graph (appfileCompiled c)) = Ok root ->
  appContext c (vertex_File (snd root)) w = (Ok rootCtx, w1) ->
  app c rootCtx w1 = (Ok rootApp, w2) ->
  walk c (devCallback rootCtx) sched tt w2 = (None, tt, w3) ->
  exists new,
    trace (snd (Dev c sched w)) = (trace w ++ new ++ [EvAppDev rootCtx])%list
    /\ List.filter isAppDev new = []
    /\ forall v x ctx,
         v <> fst root ->
         dag.Vertices (Graph (appfileCompiled c)) !! v = Some x ->
         contextOf c (vertex_File x) = Some ctx ->
         (cached (devDepPath ctx) w -> In (cacheHitHeader ctx) new)
         /\ (noFilesAt c (devDepPath ctx) -> ~ cached (devDepPath ctx) w ->
             In (EvAppDevDep rootCtx ctx) new).
Proof.
  intros Hrange Hrank Hbound Hr Hc Ha Hw.
  destruct (Dev_calls_Dev_once c sched w root rootCtx rootApp w1 w2 w3 Hr Hc Ha Hw)
    as (HD & _).
  destruct (walk_dev_visits c rank rootCtx sched w2 w3 root Hrange Hrank Hbound Hr Hw)
    as (new & Ht & Hvis).
  destruct (walk_dev_devWalked c rootCtx sched w2 "") as (new' & Ht' & Hnd & _).
  rewrite Hw in Ht'. simpl in Ht'.
  assert (new' = new) by (rewrite Ht in Ht'; apply app_inv_head in Ht'; congruence).
  subst new'.
  apply appContext_world in Hc as (Hf1 & Ht1 & _).
  apply app_world in Ha as (Hf2 & _ & _ & _ & _ & Hok).
  destruct (Hok rootApp eq_refl) as [_ Ht2].
  exists (EvAppFactory (ctx_Tuple rootCtx) :: new).
  rewrite HD. simpl. split; [|split].
  - rewrite Ht, Ht2, Ht1, <- !app_assoc. reflexivity.
  - apply filter_none, Hnd.
  - intros v x ctx Hv Hx Hctx.
    destruct (Hvis v x ctx Hv Hx Hctx) as [Hhit Hmiss]. split.
    + intros Hcached. right. apply Hhit.
      apply (cached_files _ _ _ Hf2), (cached_files _ _ _ Hf1), Hcached.
    + intros Hno Hn. right. apply Hmiss; [exact Hno|].
      intros Hk. apply Hn.
      apply (cached_files _ _ _ Hf1), (cached_files _ _ _ Hf2), Hk.
Qed.

(** C5, as stated, fails: a dependency with a readable descriptor gets no
    header when the walk is stopped before its callback starts. Here the
    first dependency fails, and the callback of the second, which is cached,
    sees the flag and returns at once. *)
Lemma Dev_cached_without_header :
  let c := Sample.mkCore Sample.rootOk
             (Sample.graph3 Sample.rootOk (Sample.mkFile "D1" "one" "bad")
                (Sample.mkFile "D2" "two" "files")) in
  let w := setFiles {[ "/data/cache/D2/dev-dep.json" := DevDepJSON {| Files := ["box.tar"] |} ]}
             Sample.emptyWorld in
  cached (devDepPath (Sample.depCtx "D2" "two" "files")) w
  /\ fst (Dev c [] w)
     = Err (multiError ["Error building dependency for dev 'one': dev dep failed: one"])
  /\ trace (snd (Dev c [] w))
     = [ EvAppFactory (ctx_Tuple (Sample.rootCtx "ok"));
         EvAppFactory (ctx_Tuple (Sample.depCtx "D1" "one" "bad"));
         EvAppDevDep (Sample.rootCtx "ok") (Sample.depCtx "D1" "one" "bad") ]
  /\ ~ In (cacheHitHeader (Sample.depCtx "D2" "two" "files")) (trace (snd (Dev c [] w))).
Proof.
  intros c w. split; [|split; [|split]].
  - exists {| Files := ["box.tar"] |}. vm_compute. reflexivity.
  - vm_compute. reflexivity.
  - vm_compute. reflexivity.
  - assert (Ht : trace (snd (Dev c [] w))
                 = [ EvAppFactory (ctx_Tuple (Sample.rootCtx "ok"));
                     EvAppFactory (ctx_Tuple (Sample.depCtx "D1" "one" "bad"));
                     EvAppDevDep (Sample.rootCtx "ok") (Sample.depCtx "D1" "one" "bad") ])
      by (vm_compute; reflexivity).
    rewrite Ht. intros [H|[H|[H|[]]]]; discriminate H.
Qed.

(** C5. In every run of [Dev], whatever the schedule, [DevDep] is never
    called for a context whose descriptor was readable at the start. When
    the walk returns no error, on a graph without cycles whose edges join its
    vertices, the cache-hit header of every dependency with a readable
    descriptor has been printed, and [rootApp.Dev(rootCtx)] is then called,
    once and last. *)
Theorem Dev_cached_dev_dep (c : Core) :
  (forall sched w p,
      cached p w ->
      exists new,
        trace (snd (Dev c sched w)) = (trace w ++ new)%list
        /\ Forall (fun e => isDevDepAt p e = false) new)
  /\ (forall (rank : nat -> nat) sched w root rootCtx rootApp w1 w2 w3,
        edgesInRange (Graph (appfileCompiled c)) ->
        (forall a b, In (a, b) (dag.Edges (Graph (appfileCompiled c))) ->
                     rank b < rank a) ->
        (forall v, v < length (dag.Vertices (Graph (appfileCompiled c))) ->
                   rank v < length (dag.Vertices (Graph (appfileCompiled c)))) ->
        dag.Root (Graph (appfileCompiled c)) = Ok root ->
        appContext c (vertex_File (snd root)) w = (Ok rootCtx, w1) ->
        app c rootCtx w1 = (Ok rootApp, w2) ->
        walk c (devCallback rootCtx) sched tt w2 = (None, tt, w3) ->
        exists new,
          trace (snd (Dev c sched w)) = (trace w ++ new ++ [EvAppDev rootCtx])%list
          /\ List.filter isAppDev new = []
          /\ forall v x ctx,
               v <> fst root ->
               dag.Vertices (Graph (appfileCompiled c)) !! v = Some x ->
               contextOf c (vertex_File x) = Some ctx ->
               cached (devDepPath ctx) w ->
               In (cacheHitHeader ctx) new
               /\ Forall (fun e => isDevDepAt (devDepPath ctx) e = false) new).
Proof.
  split.
  - intros sched w p. apply Dev_no_DevDep_for_cached.
  - intros rank sched w root rootCtx rootApp w1 w2 w3
      Hrange Hrank Hbound Hr Hc Ha Hw.
    destruct (Dev_visits c rank sched w root rootCtx rootApp w1 w2 w3
                Hrange Hrank Hbound Hr Hc Ha Hw) as (new & Ht & Hnd & Hvis).
    exists new. split; [exact Ht|]. split; [exact Hnd|].
    intros v x ctx Hv Hx Hctx Hcached.
    split; [apply (Hvis v x ctx Hv Hx Hctx), Hcached|].
    destruct (Dev_no_DevDep_for_cached c sched w (devDepPath ctx) Hcached)
      as (new' & Ht' & Hno).
    rewrite Ht in Ht'. apply app_inv_head in Ht'. rewrite <- Ht' in Hno.
    apply Forall_app in Hno as [Hno _]. exact Hno.
Qed.

Lemma Dev_cached_dev_dep_witness :
  let c := Sample.mkCore Sample.rootOk
             (Sample.graph3 Sample.rootOk (Sample.mkFile "D1" "one" "files")
                (Sample.mkFile "D2" "two" "ok")) in
  let w := setFiles {[ "/data/cache/D1/dev-dep.json" := DevDepJSON {| Files := ["box.tar"] |} ]}
             Sample.emptyWorld in
  (exists new,
      trace (snd (Dev c [] w)) = (trace w ++ new)%list
      /\ Forall (fun e => isDevDepAt "/data/cache/D1/dev-dep.json" e = false) new)
  /\ (exists new,
        trace (snd (Dev c [] w))
        = (trace w ++ new ++ [EvAppDev (Sample.rootCtx "ok")])%list
        /\ List.filter isAppDev new = []
        /\ In (cacheHitHeader (Sample.depCtx "D1" "one" "files")) new).
Proof.
  intros c w.
  assert (Hcached : cached "/data/cache/D1/dev-dep.json" w).
  { exists {| Files := ["box.tar"] |}. vm_compute. reflexivity. }
  split.
  - apply (proj1 (Dev_cached_dev_dep c) [] w "/data/cache/D1/dev-dep.json" Hcached).
  - pose (w1 := snd (appContext c Sample.rootOk w)).
    pose (w2 := snd (app c (Sample.rootCtx "ok") w1)).
    pose (w3 := snd (walk c (devCallback (Sample.rootCtx "ok")) [] tt w2)).
    destruct (proj2 (Dev_cached_dev_dep c)
                (fun v => match v with 0 => 1 | _ => 0 end) [] w
                (0, Sample.vertex Sample.rootOk) (Sample.rootCtx "ok") Sample.okApp
                w1 w2 w3) as (new & Ht & Hnd & Hvis).
    + apply sample_graph3_in_range.
    + intros a b [H|[H|[]]]; injection H as <- <-; simpl; lia.
    + intros v Hv. simpl. destruct v; lia.
    + reflexivity.
    + vm_compute. reflexivity.
    + reflexivity.
    + vm_compute. reflexivity.
    + exists new. split; [exact Ht|]. split; [exact Hnd|].
      apply (Hvis 1 (Sample.vertex (Sample.mkFile "D1" "one" "files"))
               (Sample.depCtx "D1" "one" "files")).
      * discriminate.
      * reflexivity.
      * vm_compute. reflexivity.
      * exact Hcached.
Defined.



